(** * rc-sim, [model_fit_exp3.py]: the system-identification script

    A shallow embedding of the numeric core of [model_fit_exp3.py]:
    [solve] (the SVD pseudo-inverse fit), [correlation_report_3] (the
    correlation-driven selector) and the top-level loop over flight
    conditions, followed by the properties the specification states about
    them.

    - numpy's float64 is the kernel's binary64 ([PrimFloat.float]);
    - a 1-D array is a [list float], a 2-D array a list of equally long rows;
    - Python integers are [Z], indexing wraps negative indices and raises
      [IndexError] out of range;
    - [print], [plt.show] and file writes are events of an output log; an
      exception ends the computation and keeps the log produced so far;
    - [while] loops run on fuel: [Running] is the outcome of a loop that has
      not finished when the fuel is spent;
    - dask's [svd] and numpy's [corrcoef], [allclose], [matrix_rank] and
      [std] are library calls: the script is embedded over an interface
      [Numerics] that supplies them. *)

From Stdlib Require Import Ascii String ZArith List Bool Lia Floats Permutation.

Set Warnings "-register-all,-inexact-float".
Import ListNotations.

Local Open Scope string_scope.
Local Open Scope list_scope.
Local Open Scope Z_scope.

(** ** Python values, exceptions and the output log *)

Abbreviation vec := (list float).
Abbreviation matrix := (list (list float)).

Inductive exn : Type :=
| IndexError
| ValueError
| TypeError
| LinAlgError.

(** What the script hands to [print] (and returns from [solve]). *)
Inductive pyval : Type :=
| PyInt (z : Z)
| PyFloat (x : float)
| PyFmt3 (x : float)              (* "%.3f" % x *)
| PyStr (s : string)
| PyBool (b : bool)
| PyShape (dims : list Z)         (* an array's .shape *)
| PyArr1 (v : vec)
| PyArr2 (m : matrix)
| PyList (l : list pyval)
| PyTuple (l : list pyval)
| PyDict (kv : list (string * pyval)).

Inductive event : Type :=
| Print (args : list pyval)                  (* print(a, b, ...) *)
| PrintNoNl (args : list pyval)              (* print(..., end="") *)
| Plot (original estimated : pyval)          (* plt.figure .. plt.show *)
| WriteFile (path : string) (content : pyval).

Inductive outcome (A : Type) : Type :=
| Ret (a : A)          (* normal completion *)
| Raise (e : exn)      (* an exception propagates *)
| Running.             (* a loop still running when the fuel is spent *)
Arguments Ret {A} a.
Arguments Raise {A} e.
Arguments Running {A}.

(** A computation: the events it emitted and how it ended. *)
Definition M (A : Type) : Type := (list event * outcome A)%type.

Definition ret {A} (a : A) : M A := ([], Ret a).
Definition raise {A} (e : exn) : M A := ([], Raise e).
Definition bind {A B} (m : M A) (f : A -> M B) : M B :=
  match m with
  | (l, Ret a) => let (l', r) := f a in (l ++ l', r)
  | (l, Raise e) => (l, Raise e)
  | (l, Running) => (l, Running)
  end.
Definition print (args : list pyval) : M unit := ([Print args], Ret tt).
Definition print_no_nl (args : list pyval) : M unit := ([PrintNoNl args], Ret tt).
Definition lift {A} (r : exn + A) : M A :=
  match r with inl e => raise e | inr a => ret a end.

Declare Scope py_scope.
Delimit Scope py_scope with py.
Notation "x <- c ;; k" := (bind c (fun x => k))
  (at level 61, c at next level, right associativity) : py_scope.
Notation "' p <- c ;; k" := (bind c (fun x => match x with p => k end))
  (at level 61, p pattern, c at next level, right associativity) : py_scope.
Notation "c ;; k" := (bind c (fun _ => k))
  (at level 61, right associativity) : py_scope.
Local Open Scope py_scope.

Fixpoint mapM {A B} (f : A -> M B) (l : list A) : M (list B) :=
  match l with
  | [] => ret []
  | a :: l' => b <- f a ;; bs <- mapM f l' ;; ret (b :: bs)
  end.

(** [for x in l: body x] *)
Fixpoint for_each {A} (l : list A) (body : A -> M unit) : M unit :=
  match l with
  | [] => ret tt
  | a :: l' => body a ;; for_each l' body
  end.

(** [while cond: body], on fuel. *)
Fixpoint while {S} (fuel : nat) (cond : S -> bool) (body : S -> M S) (s : S)
  : M S :=
  match fuel with
  | O => ([], Running)
  | Datatypes.S fuel' =>
      if cond s then s' <- body s ;; while fuel' cond body s' else ret s
  end.

(** [l[i]]: a negative index counts from the end. *)
Definition py_nth {A} (l : list A) (i : Z) : M A :=
  let n := Z.of_nat (length l) in
  let k := if i <? 0 then i + n else i in
  if (0 <=? k) && (k <? n) then
    match nth_error l (Z.to_nat k) with
    | Some a => ret a
    | None => raise IndexError
    end
  else raise IndexError.

(** [range(n)] *)
Definition range (n : nat) : list Z := map Z.of_nat (seq 0 n).

(** [l.index(x)]: first position, [ValueError] when absent. *)
Fixpoint index_from {A} (eqb : A -> A -> bool) (l : list A) (x : A) (k : Z)
  : M Z :=
  match l with
  | [] => raise ValueError
  | a :: l' => if eqb a x then ret k else index_from eqb l' x (k + 1)
  end.
Definition index_of {A} (eqb : A -> A -> bool) (l : list A) (x : A) : M Z :=
  index_from eqb l x 0.

(** A Python [set] of integers: [in], [add] and [sorted] are all the script
    uses, so the order of the carrier list is immaterial. *)
Definition pyset := list Z.
Definition set_in (x : Z) (s : pyset) : bool := existsb (Z.eqb x) s.
Definition set_add (x : Z) (s : pyset) : pyset :=
  if set_in x s then s else s ++ [x].

Fixpoint insert_sorted (x : Z) (l : list Z) : list Z :=
  match l with
  | [] => [x]
  | y :: l' => if x <=? y then x :: l else y :: insert_sorted x l'
  end.
Definition sorted (s : pyset) : list Z := fold_right insert_sorted [] s.

(** ** numpy arrays *)

Module Np.

Definition fadd := PrimFloat.add.
Definition fsub := PrimFloat.sub.
Definition fmul := PrimFloat.mul.
Definition fdiv := PrimFloat.div.
Definition fabs := PrimFloat.abs.
Definition fneg := PrimFloat.opp.
(** [a > b] on float64: false as soon as one side is NaN. *)
Definition fgt (a b : float) : bool := PrimFloat.ltb b a.

Fixpoint zip_with {A B C} (f : A -> B -> C) (a : list A) (b : list B)
  : list C :=
  match a, b with
  | x :: a', y :: b' => f x y :: zip_with f a' b'
  | _, _ => []
  end.

Definition ncols (m : matrix) : nat :=
  match m with [] => O | r :: _ => length r end.
Definition shape1 (v : vec) : pyval := PyShape [Z.of_nat (length v)].
Definition shape2 (m : matrix) : pyval :=
  PyShape [Z.of_nat (length m); Z.of_nat (ncols m)].

(** All rows as long as [n]: what makes a list of rows an array. *)
Definition rect (n : nat) (m : matrix) : Prop :=
  Forall (fun r => length r = n) m.

Definition col (j : nat) (m : matrix) : vec :=
  map (fun r => nth j r PrimFloat.zero) m.
(** [m.T] (a matrix without rows has no columns to turn into rows). *)
Definition transpose (m : matrix) : matrix :=
  map (fun j => col j m) (seq 0 (ncols m)).

(** The sum of products inside [@]. *)
Definition dot (a b : vec) : float :=
  match zip_with fmul a b with
  | [] => PrimFloat.zero
  | p :: ps => fold_left fadd ps p
  end.

(** [y @ b] for 1-D [y] and 2-D [b]. *)
Definition vecmat (y : vec) (b : matrix) : M vec :=
  if Nat.eqb (length y) (length b)
  then ret (map (dot y) (transpose b))
  else raise ValueError.

(** [a @ b] for 2-D [a] and [b]. *)
Definition matmul (a b : matrix) : M matrix :=
  mapM (fun r => vecmat r b) a.

(** Broadcasting of one row against a 1-D array: equal lengths, or one
    of them of length one. *)
Definition bcast_row (f : float -> float -> float) (r s : vec) : M vec :=
  if Nat.eqb (length r) (length s) then ret (zip_with f r s)
  else match r, s with
       | [x], _ => ret (map (f x) s)
       | _, [y] => ret (map (fun x => f x y) r)
       | _, _ => raise ValueError
       end.
(** [m * s] and [a - b] with broadcasting. *)
Definition bcast_mul (m : matrix) (s : vec) : M matrix :=
  mapM (fun r => bcast_row fmul r s) m.
Definition bcast_sub (a b : vec) : M vec := bcast_row fsub a b.

(** [1 / s] *)
Definition recip (s : vec) : vec := map (fdiv PrimFloat.one) s.

(** [np.vstack([m, row])] *)
Definition vstack (m : matrix) (row : vec) : M matrix :=
  if forallb (fun r => Nat.eqb (length r) (length row)) m
  then ret (m ++ [row])
  else raise ValueError.

(** [m[rows, :]] with an index list. *)
Definition take_rows (m : matrix) (rows : list Z) : M matrix :=
  mapM (py_nth m) rows.

(** [m[r, c]] *)
Definition at2 (m : matrix) (r c : Z) : M float :=
  row <- py_nth m r ;; py_nth row c.

End Np.

(** The line feed of ["X:\n"]. *)
Definition nl : string := String "010"%char "".

(** ** The numeric library calls the script makes *)

Record Numerics : Type := {
  svd : matrix -> exn + (matrix * vec * matrix);   (* da.linalg.svd: u, s, vh *)
  corrcoef : matrix -> exn + matrix;               (* np.corrcoef *)
  allclose : matrix -> matrix -> bool;             (* np.allclose *)
  matrix_rank : vec -> Z;                          (* np.linalg.matrix_rank *)
  std : vec -> float                               (* np.std *)
}.

(** ** State of the script *)

(** The variables of the [while True] loop of [correlation_report_3]. *)
Record sel_state : Type := {
  incl : pyset;      (* incl *)
  error : vec;       (* error *)
  corr : matrix      (* corr *)
}.

(** Lines 171-175: the loop starts from the included set [{i}] and the
    negated target row as error ([corr] still holds the correlation of
    the training rows computed at line 165). *)
Definition initial_state (i : Z) (target : vec) (corr0 : matrix) : sel_state :=
  {| incl := [i]; error := map Np.fneg target; corr := corr0 |}.

(** The two dictionaries of the ranking pass, keys in insertion order. *)
Record rank_state : Type := {
  rk_incl : list Z;              (* incl = {} *)
  rk_rem : list (Z * float)      (* rem = {} *)
}.

Definition is_empty {A} (l : list A) : bool :=
  match l with [] => true | _ => false end.

(** [del d[k]] *)
Definition dict_del {V} (k : Z) (d : list (Z * V)) : list (Z * V) :=
  filter (fun kv => negb (fst kv =? k)) d.

(** [sorted(rem.items(), key=lambda item: item[1], reverse=True)]: the
    stable descending sort (items of equal score keep their order). Where
    a score is NaN the order CPython produces depends on the comparisons
    its sort happens to make; what is proved below about the order of the
    result is stated for scores that are numbers. *)
Fixpoint insert_by_score (x : Z * float) (l : list (Z * float))
  : list (Z * float) :=
  match l with
  | [] => [x]
  | y :: l' =>
      if Np.fgt (snd y) (snd x) then y :: insert_by_score x l' else x :: l
  end.
Definition sorted_by_score (l : list (Z * float)) : list (Z * float) :=
  fold_right insert_by_score [] l.

(** A flight condition, [{"flaps": 0.5}]. *)
Definition flight_condition := list (string * float).

(** An entry of [train_data.cond_list]. *)
Record cond_entry : Type := {
  traindata_list : matrix;     (* one state vector per sample *)
  coeff : vec;
  sysid : option string        (* SystemIdentification(args.vehicle) *)
}.

(** The module-level variables the top level assigns. *)
Record globals : Type := {
  root_dict : list (string * pyval);
  condition_dict : list (string * pyval);
  cond_list : list cond_entry
}.

(** What the part of the script before line 102 fixes. *)
Record config : Type := {
  vehicle : string;                       (* args.vehicle *)
  dt : float;                             (* state_mgr.dt *)
  state_list : list string;               (* state_mgr.state_list *)
  output_states : list string;
  train_states : list string;
  conditions : list flight_condition
}.

(** [train_data.cond_list[i]["sysid"] = sysid] *)
Fixpoint store_sysid (cl : list cond_entry) (i : Z) (v : string)
  : list cond_entry :=
  match cl with
  | [] => []
  | e :: cl' =>
      if i =? 0
      then {| traindata_list := traindata_list e; coeff := coeff e;
              sysid := Some v |} :: cl'
      else e :: store_sysid cl' (i - 1) v
  end.

(** ** [solve] (lines 116-157) *)

Section Script.

Variable np : Numerics.

Definition solve (i : Z) (traindata : matrix) : M pyval :=
  row0 <- py_nth traindata 0 ;;
  let states := length row0 in
  let X := map (@removelast float) traindata in
  rowi <- py_nth traindata i ;;
  let Y := tl rowi in
  print [PyStr ("X:" ++ nl); Np.shape2 X; PyArr2 X] ;;
  print [PyStr ("Y:" ++ nl); Np.shape1 Y; PyArr1 Y] ;;
  print [PyStr "dask svd..."] ;;
  (* daX = da.from_array(X, chunks=...).persist(); u, s, vh = svd(daX);
     a failure of the factorization is raised here (dask may defer it to
     the first .compute() below) *)
  '(u, s, vh) <- lift (svd np X) ;;
  print [PyStr ("u:" ++ nl); Np.shape2 u; PyArr2 u] ;;
  print [PyStr ("s:" ++ nl); Np.shape1 s; PyArr1 s] ;;
  print [PyStr ("vh:" ++ nl); Np.shape2 vh; PyArr2 vh] ;;
  us <- Np.bcast_mul u s ;;
  Xr <- Np.matmul us (firstn states vh) ;;
  print [PyStr "dask svd close?"; PyBool (allclose np X Xr)] ;;
  let v := Np.transpose vh in
  print [PyStr "s inv:"; PyArr1 (Np.recip s)] ;;
  vs <- Np.bcast_mul (map (firstn states) v) (Np.recip s) ;;
  t <- Np.vecmat Y vs ;;
  A <- Np.vecmat t (Np.transpose u) ;;
  print [PyStr "A rank:"; PyInt (matrix_rank np A)] ;;
  print [PyStr ("A:" ++ nl); Np.shape1 A; PyArr1 A] ;;
  ret (PyArr1 A).

(** ** [correlation_report_3] (lines 162-241) *)

(** [A @ m] on what [solve] returned. *)
Definition py_matvec (A : pyval) (m : matrix) : M vec :=
  match A with
  | PyArr1 a => Np.vecmat a m
  | _ => raise TypeError
  end.

Definition plot (original estimated : vec) : M unit :=
  ([Plot (PyArr1 original) (PyArr1 estimated)], Ret tt).

(** Lines 190-197: the scan for the best correlation to the error row,
    [for j in range(len(train_states))] with [max_index], [max_abs]. *)
Fixpoint scan (corr : matrix) (incl : pyset) (js : list Z)
  (max_index : Z) (max_abs : float) : M (Z * float) :=
  match js with
  | [] => ret (max_index, max_abs)
  | j :: js' =>
      if set_in j incl then scan corr incl js' max_index max_abs
      else
        c <- Np.at2 corr (-1) j ;;
        if Np.fgt (Np.fabs c) max_abs
        then scan corr incl js' j (Np.fabs c)
        else scan corr incl js' max_index max_abs
  end.

(** Lines 182-199: the selecting half of an iteration; yields the
    correlation matrix, [max_index] and the grown included set. *)
Definition select_step (train_states : list string) (traindata : matrix)
  (st : sel_state) : M (matrix * Z * pyset) :=
  tde <- Np.vstack traindata (error st) ;;
  corr <- lift (corrcoef np tde) ;;
  last_row <- py_nth corr (-1) ;;
  print [PyArr1 last_row] ;;
  ' (max_index, _) <-
    scan corr (incl st) (range (length train_states)) (-1) PrimFloat.zero ;;
  name <- py_nth train_states max_index ;;
  print [PyStr "max correlation parameter:"; PyInt max_index; PyStr name] ;;
  ret (corr, max_index, set_add max_index (incl st)).

(** Lines 201-215: the fitting half. *)
Definition fit_step (traindata : matrix) (i : Z) (corr : matrix)
  (incl' : pyset) : M sel_state :=
  let includes := sorted incl' in
  param_index <- index_of Z.eqb includes i ;;
  sub <- Np.take_rows traindata includes ;;
  print [Np.shape2 sub] ;;
  A <- solve param_index sub ;;
  est <- py_matvec A sub ;;
  target <- py_nth traindata i ;;
  plot target est ;;
  error' <- Np.bcast_sub target est ;;
  print [PyStr "ERROR:"; PyFloat (std np error')] ;;
  ret {| incl := incl'; error := error'; corr := corr |}.

Definition loop_body (train_states : list string) (traindata : matrix)
  (i : Z) (st : sel_state) : M sel_state :=
  ' (corr, _, incl') <- select_step train_states traindata st ;;
  fit_step traindata i corr incl'.

(** Lines 229-233: the largest absolute correlation of row [j] to the
    rows ranked so far. *)
Fixpoint max_corr_with (corr : matrix) (j : Z) (ks : list Z)
  (max_corr : float) : M float :=
  match ks with
  | [] => ret max_corr
  | k :: ks' =>
      x <- Np.at2 corr j k ;;
      let c := Np.fabs x in
      if Np.fgt c max_corr then max_corr_with corr j ks' c
      else max_corr_with corr j ks' max_corr
  end.

(** Line 234: the score stored in [rem[j]]. *)
Definition score (corr : matrix) (i : Z) (ranked : list Z) (j : Z) : M float :=
  max_corr <- max_corr_with corr j ranked PrimFloat.zero ;;
  cij <- Np.at2 corr i j ;;
  ret (Np.fsub (Np.fabs cij) max_corr).

(** Lines 227-234: [rem] with every score recomputed. *)
Definition rescore (corr : matrix) (i : Z) (ranked : list Z)
  (rem : list (Z * float)) : M (list (Z * float)) :=
  mapM (fun jg => g <- score corr i ranked (fst jg) ;; ret (fst jg, g)) rem.

(** Lines 225-240: one round of the ranking loop. *)
Definition rank_body (train_states : list string) (corr : matrix) (i : Z)
  (row : vec) (st : rank_state) : M rank_state :=
  rem' <- rescore corr i (rk_incl st) (rk_rem st) ;;
  match sorted_by_score rem' with
  | [] => raise IndexError
  | (j, _) :: _ =>
      r <- py_nth row j ;;
      name <- py_nth train_states j ;;
      print_no_nl [PyFmt3 r; PyStr (name ++ ", ")] ;;
      ret {| rk_incl := rk_incl st ++ [j]; rk_rem := dict_del j rem' |}
  end.

(** Lines 217-241: the ranking pass that follows the [while True] loop. *)
Definition second_pass (fuel : nat) (train_states : list string)
  (corr : matrix) (i : Z) : M unit :=
  name <- py_nth train_states i ;;
  print_no_nl [PyStr (name ++ ": ")] ;;
  row <- py_nth corr i ;;
  let rem := map (fun j => (j, PrimFloat.zero))
                 (filter (fun j => negb (i =? j)) (range (length row))) in
  while fuel (fun st => negb (is_empty (rk_rem st)))
        (rank_body train_states corr i row)
        {| rk_incl := []; rk_rem := rem |} ;;
  print [PyStr ""].

Definition correlation_report_3 (fuel : nat) (train_states : list string)
  (traindata : matrix) (fit_states : list string) : M unit :=
  print [PyStr "test pearson correlation coefficients:"] ;;
  print [PyList (map PyStr train_states)] ;;
  corr0 <- lift (corrcoef np traindata) ;;
  print [PyArr2 corr0] ;;
  for_each fit_states (fun s =>
    i <- index_of String.eqb train_states s ;;
    target <- py_nth traindata i ;;
    let st0 := initial_state i target corr0 in
    print [PyArr1 (error st0)] ;;
    (* the set rem of lines 176-179 is not read by the loop *)
    st <- while fuel (fun _ => true) (loop_body train_states traindata i) st0 ;;
    second_pass fuel train_states (corr st) i).

(** ** The script's top level (lines 102-114 and 243-253) *)

Definition cond_val (c : flight_condition) : pyval :=
  PyDict (map (fun kv => (fst kv, PyFloat (snd kv))) c).

(** [enumerate(l)] *)
Definition enumerate {A} (l : list A) : list (Z * A) :=
  combine (range (length l)) l.

(** Lines 102-106. *)
Definition conditions_report (conditions : list flight_condition)
  (cl : list cond_entry) : M unit :=
  print [PyStr "Conditions report:"] ;;
  for_each (enumerate conditions) (fun ic =>
    print [PyInt (fst ic); cond_val (snd ic)] ;;
    e <- py_nth cl (fst ic) ;;
    v0 <- py_nth (traindata_list e) 0 ;;
    print [PyStr "  Number of states:"; PyInt (Z.of_nat (length v0))] ;;
    print [PyStr "  Input state vectors:";
           PyInt (Z.of_nat (length (traindata_list e)))]).

(** Lines 109-114. *)
Definition initial_root_dict (dt : float) (output_states state_list : list string)
  : list (string * pyval) :=
  [("dt", PyFloat dt);
   ("rows", PyInt (Z.of_nat (length output_states)));
   ("cols", PyInt (Z.of_nat (length state_list)));
   ("conditions", PyList [])].

(** Lines 244-253, for one condition: the globals after it, what it
    printed and how it ended. *)
Definition eval_condition (fuel : nat) (vehicle : string)
  (train_states output_states : list string)
  (i : Z) (cond : flight_condition) (g : globals)
  : list event * globals * outcome unit :=
  let g1 := {| root_dict := root_dict g;
               condition_dict := [("condition", cond_val cond)];
               cond_list := cond_list g |} in
  match py_nth (cond_list g1) i with
  | (_, Ret e) =>
      let traindata := Np.transpose (traindata_list e) in
      let g2 := {| root_dict := root_dict g1;
                   condition_dict := condition_dict g1;
                   cond_list := store_sysid (cond_list g1) i vehicle |} in
      let (log, r) :=
        correlation_report_3 fuel train_states traindata output_states in
      (Print [PyInt i; cond_val cond] :: log, g2, r)
  | (_, Raise x) => ([Print [PyInt i; cond_val cond]], g1, Raise x)
  | (_, Running) => ([Print [PyInt i; cond_val cond]], g1, Running)
  end.

(** [for i, cond in enumerate(conditions)] of line 244. *)
Fixpoint eval_conditions (fuel : nat) (vehicle : string)
  (train_states output_states : list string)
  (conds : list (Z * flight_condition)) (g : globals)
  : list event * globals * outcome unit :=
  match conds with
  | [] => ([], g, Ret tt)
  | (i, cond) :: rest =>
      match eval_condition fuel vehicle train_states output_states i cond g with
      | (log, g', Ret _) =>
          match eval_conditions fuel vehicle train_states output_states rest g' with
          | (log', g'', r) => (log ++ log', g'', r)
          end
      | (log, g', Raise x) => (log, g', Raise x)
      | (log, g', Running) => (log, g', Running)
      end
  end.

(** The script from line 102 on. *)
Definition main (fuel : nat) (cfg : config) (cl : list cond_entry)
  : list event * globals * outcome unit :=
  let g0 := {| root_dict := []; condition_dict := []; cond_list := cl |} in
  match conditions_report (conditions cfg) cl with
  | (log, Ret _) =>
      let g1 := {| root_dict := initial_root_dict (dt cfg) (output_states cfg)
                                  (state_list cfg);
                   condition_dict := [];
                   cond_list := cl |} in
      match eval_conditions fuel (vehicle cfg) (train_states cfg)
              (output_states cfg) (enumerate (conditions cfg)) g1 with
      | (log', g', r) => (log ++ log', g', r)
      end
  | (log, Raise x) => (log, g0, Raise x)
  | (log, Running) => (log, g0, Running)
  end.

End Script.

(** ** Reference numerics

    A float64 rendering of the library calls, after numpy's own algorithms,
    to run the script on concrete data: Pearson correlation as [np.corrcoef]
    computes it (covariance, division by the standard deviations, clipping
    to [-1, 1]), the population standard deviation of [np.std], the rank of
    a 1-D array as [np.linalg.matrix_rank] defines it, and the thin SVD of a
    matrix with a single row or a single column. *)

Module Ref.

Definition fsum (v : vec) : float :=
  match v with
  | [] => PrimFloat.zero
  | x :: xs => fold_left Np.fadd xs x
  end.

Definition of_nat (n : nat) : float :=
  PrimFloat.of_uint63 (Uint63.of_Z (Z.of_nat n)).

Definition mean (v : vec) : float := Np.fdiv (fsum v) (of_nat (length v)).

Definition center (v : vec) : vec :=
  let m := mean v in map (fun x => Np.fsub x m) v.

(** [np.cov]: rows are variables, normalised by [N - 1]. *)
Definition cov (m : matrix) : matrix :=
  let xs := map center m in
  let fact := Np.fdiv PrimFloat.one (of_nat (Np.ncols m - 1)) in
  map (fun r => map (fun r' => Np.fmul (Np.dot r r') fact) xs) xs.

Definition clip (x : float) : float :=
  if PrimFloat.ltb x (-1)%float then (-1)%float
  else if PrimFloat.ltb 1%float x then 1%float else x.

Definition corrcoef (m : matrix) : exn + matrix :=
  let c := cov m in
  let stddev := map (fun k => PrimFloat.sqrt (nth k (nth k c []) PrimFloat.zero))
                    (seq 0 (length c)) in
  inr (map (fun rk =>
         map (fun cj => clip (Np.fdiv (Np.fdiv (fst cj) (snd rk)) (snd cj)))
             (combine (fst rk) stddev))
       (combine c stddev)).

Definition std (v : vec) : float :=
  PrimFloat.sqrt (mean (map (fun x => Np.fmul (Np.fabs x) (Np.fabs x)) (center v))).

Definition matrix_rank (v : vec) : Z :=
  if forallb (fun x => PrimFloat.eqb x PrimFloat.zero) v then 0 else 1.

Definition close (a b : float) : bool :=
  PrimFloat.leb (Np.fabs (Np.fsub a b))
    (Np.fadd 1e-8%float (Np.fmul 1e-5%float (Np.fabs b))).

Definition allclose (a b : matrix) : bool :=
  forallb (fun rs => forallb (fun xy => close (fst xy) (snd xy))
                       (combine (fst rs) (snd rs)))
          (combine a b).

Definition norm2 (v : vec) : float :=
  PrimFloat.sqrt (fsum (map (fun x => Np.fmul x x) v)).

(** The direction of [v]: [v / |v|], the first unit vector for [v = 0]. *)
Definition unit (v : vec) : vec :=
  let n := norm2 v in
  if PrimFloat.eqb n PrimFloat.zero
  then match v with [] => [] | _ :: v' => PrimFloat.one :: map (fun _ => PrimFloat.zero) v' end
  else map (fun x => Np.fdiv x n) v.

(** Thin SVD of a single row or a single column; other shapes are not
    covered by this rendering. *)
Definition svd (x : matrix) : exn + (matrix * vec * matrix) :=
  match x with
  | [r] => inr ([[PrimFloat.one]], [norm2 r], [unit r])
  | _ =>
      if forallb (fun r => Nat.eqb (length r) 1) x
      then let c := Np.col 0 x in
           inr (map (fun y => [y]) (unit c), [norm2 c], [[PrimFloat.one]])
      else inl LinAlgError
  end.

Definition numerics : Numerics :=
  Build_Numerics svd corrcoef allclose matrix_rank std.

End Ref.

(** ** The fit in the words of the specification *)

Module Spec.

(** Samples [from .. from + count - 1] of a row. *)
Definition samples (from count : nat) (row : vec) : vec :=
  map (fun k => nth k row PrimFloat.zero) (seq from count).

(** X: all rows, samples [0, N-2]. *)
Definition X_block (N : nat) (m : matrix) : matrix :=
  map (samples 0 (N - 1)) m.

(** Y: the target row, samples [1, N-1]. *)
Definition Y_block (N : nat) (m : matrix) (i : nat) : vec :=
  samples 1 (N - 1) (nth i m []).

(** The first [n] columns of a matrix. *)
Definition first_columns (n : nat) (m : matrix) : matrix := map (firstn n) m.

(** [m . diag(d)]: column [k] of [m] scaled by [d_k]. *)
Definition times_diag (m : matrix) (d : vec) : matrix :=
  map (fun r => Np.zip_with Np.fmul r d) m.

(** A row vector times a matrix. *)
Definition row_times (y : vec) (m : matrix) : vec :=
  map (Np.dot y) (Np.transpose m).

(** A = Y . V . diag(1/S) . U^T, with V cut to its first [rows] columns. *)
Definition operator (rows : nat) (Y : vec) (u : matrix) (s : vec) (vh : matrix)
  : vec :=
  let V := first_columns rows (Np.transpose vh) in
  row_times (row_times Y (times_diag V (Np.recip s))) (Np.transpose u).

End Spec.

(** * Vocabulary of the properties and concrete inputs *)

(** ** The order of binary64 values *)

(** Finite binary64 values of one sign compare by exponent, then by
    mantissa. *)
Definition key (e : Z) (m : positive) (e' : Z) (m' : positive) : comparison :=
  match (e ?= e')%Z with Eq => (m ?= m')%positive | c => c end.

(** ** The scan for the best correlation *)

(** [abs(corr[-1, j])] read off the last row of the correlation matrix. *)
Definition cabs (row : vec) (j : Z) : float :=
  Np.fabs (nth (Z.to_nat j) row PrimFloat.zero).

(** The scan over a known last row. *)
Fixpoint scan_row (row : vec) (incl : pyset) (js : list Z)
  (max_index : Z) (max_abs : float) : Z * float :=
  match js with
  | [] => (max_index, max_abs)
  | j :: js' =>
      if set_in j incl then scan_row row incl js' max_index max_abs
      else if Np.fgt (cabs row j) max_abs
           then scan_row row incl js' j (cabs row j)
           else scan_row row incl js' max_index max_abs
  end.

(** Row [m] is the first of the not-yet-included rows of [js] whose
    absolute correlation is the largest, and that correlation is positive. *)
Definition first_max_candidate (row : vec) (incl : pyset) (js : list Z)
  (m : Z) : Prop :=
  exists l1 l2,
    js = l1 ++ m :: l2 /\
    set_in m incl = false /\
    Np.fgt (cabs row m) PrimFloat.zero = true /\
    (forall j, In j js -> set_in j incl = false ->
               Np.fgt (cabs row j) (cabs row m) = false) /\
    (forall j, In j l1 -> set_in j incl = false ->
               PrimFloat.is_nan (cabs row j) = true \/
               Np.fgt (cabs row m) (cabs row j) = true).

(** [l[k]] for [k] in [-1 .. len(l) - 1]. *)
Definition item {A} (l : list A) (d : A) (k : Z) : A :=
  if k <? 0 then last l d else nth (Z.to_nat k) l d.

(** The index the scan of an iteration settles on. *)
Definition chosen (train_states : list string) (corr : matrix) (incl : pyset)
  : Z :=
  fst (scan_row (last corr []) incl (range (length train_states)) (-1)
         PrimFloat.zero).

(** ** Events and outcomes *)

(** The kinds of event. *)
Definition is_print (e : event) : bool :=
  match e with Print _ => true | _ => false end.
Definition is_plot (e : event) : bool :=
  match e with Plot _ _ => true | _ => false end.
Definition is_ranking (e : event) : bool :=
  match e with PrintNoNl _ => true | _ => false end.
Definition is_write (e : event) : bool :=
  match e with WriteFile _ _ => true | _ => false end.

(** The plots shown so far: one per completed fit. *)
Definition count_plots (log : list event) : nat := length (filter is_plot log).

(** Every event of [m] passes [P]. *)
Definition emits_only {A} (P : event -> bool) (m : M A) : Prop :=
  forallb P (fst m) = true.
(** [m] ends, by a return or an exception. *)
Definition halts {A} (m : M A) : Prop := snd m <> Running.
(** [m] emits nothing and ends. *)
Definition pure {A} (m : M A) : Prop := fst m = [] /\ halts m.
(** [m] does not return. *)
Definition never_returns {A} (m : M A) : Prop := forall a, snd m <> Ret a.

Definition not_plot (e : event) : bool := negb (is_plot e).
Definition not_ranking (e : event) : bool := negb (is_ranking e).
Definition not_write (e : event) : bool := negb (is_write e).

(** [m] shows exactly one plot when it returns, at most one otherwise,
    and ends. *)
Definition one_plot {A} (m : M A) : Prop :=
  match snd m with
  | Ret _ => count_plots (fst m) = 1%nat
  | Raise _ => (count_plots (fst m) <= 1)%nat
  | Running => False
  end.

(** Nothing but [print] and the plot inside the loop. *)
Definition loop_event (e : event) : bool := is_print e || is_plot e.

(** [Q] holds of the log and the value whenever [m] returns. *)
Definition post {A} (m : M A) (Q : list event -> A -> Prop) : Prop :=
  forall a, snd m = Ret a -> Q (fst m) a.

(** The value is a 1-D array whose rank is in the log. *)
Definition operator_with_rank_printed (np : Numerics) (log : list event)
  (v : pyval) : Prop :=
  exists A, v = PyArr1 A /\
            In (Print [PyStr "A rank:"; PyInt (matrix_rank np A)]) log.

(** Whether a Python value is a pair. *)
Definition is_pair (v : pyval) : bool :=
  match v with PyTuple [_; _] => true | _ => false end.

(** ** Runs of the top level *)

(** The output, the globals and the outcome of a top-level run. *)
Definition out {A} (r : list event * globals * outcome A) : list event :=
  fst (fst r).
Definition glob {A} (r : list event * globals * outcome A) : globals :=
  snd (fst r).
Definition res {A} (r : list event * globals * outcome A) : outcome A :=
  snd r.

(** The per-condition record is the condition alone, or not yet built. *)
Definition holds_condition_only (conds : list flight_condition) (g : globals)
  : Prop :=
  condition_dict g = [] \/
  exists c, In c conds /\ condition_dict g = [("condition", cond_val c)].

(** ** The ranking pass *)

(** [(j, g)] is the first entry of [l] with the best score. *)
Definition first_best (l : list (Z * float)) (j : Z) (g : float) : Prop :=
  exists l1 l2,
    l = l1 ++ (j, g) :: l2 /\
    (forall x, In x l1 -> Np.fgt g (snd x) = true) /\
    (forall x, In x l2 -> Np.fgt (snd x) g = false).

(** [g] is the score of row [j]: the absolute correlation of [j] to the
    target [i], less the largest absolute correlation of [j] to a row
    ranked so far (0 when there is none above 0). *)
Definition scored (corr : matrix) (i : Z) (ranked : list Z) (j : Z)
  (g : float) : Prop :=
  exists cij mc,
    Np.at2 corr i j = ret cij /\
    g = Np.fsub (Np.fabs cij) mc /\
    (mc = PrimFloat.zero \/
     exists k c, In k ranked /\ Np.at2 corr j k = ret c /\ mc = Np.fabs c) /\
    (forall k c, In k ranked -> Np.at2 corr j k = ret c ->
                 Np.fgt (Np.fabs c) mc = false).

(** ** Concrete inputs *)

(** Training matrices for the selector. *)
Module Data.

(** The correlation matrix the reference [corrcoef] yields. *)
Definition corr_of (m : matrix) : matrix :=
  match Ref.corrcoef m with inr c => c | inl _ => [] end.

(** A ramp [p] and a constant channel [c]. *)
Definition ramp_const : matrix := [[1; 2; 3]; [5; 5; 5]]%float.

(** A ramp [p] and two channels uncorrelated with it. *)
Definition ramp_flat : matrix := [[1; 2; 3]; [1; 0; 1]; [0; 1; 0]]%float.

(** A ramp [p], a channel that follows it and one that does less so. *)
Definition ramp_mixed : matrix := [[1; 2; 3]; [1; 0; 1]; [2; 4; 7]]%float.

(** A single channel over two samples. *)
Definition single : matrix := [[3; 6]]%float.

(** The loop's first state for target row 0. *)
Definition start (m : matrix) : sel_state :=
  initial_state 0 (nth 0 m []) (corr_of m).

(** The correlation matrix of the first iteration. *)
Definition corr1 (m : matrix) : matrix := corr_of (m ++ [error (start m)]).

End Data.

(** Configurations and data for the top level. *)
Module Run.

Definition flaps (x : float) : flight_condition := [("flaps", x)].

(** Two samples of the channels [p] and [q], as [train_data] holds them:
    one state vector per sample. *)
Definition entry : cond_entry :=
  {| traindata_list := [[3; 1]; [6; 5]]%float; coeff := []; sysid := None |}.

(** The script's two flap conditions, [p] to predict. *)
Definition cfg : config :=
  {| vehicle := "wing"; dt := 0.02%float; state_list := ["p"; "q"];
     output_states := ["p"]; train_states := ["p"; "q"];
     conditions := [flaps 0; flaps 0.5] |}.

(** The same with nothing to predict. *)
Definition cfg_no_output : config :=
  {| vehicle := "wing"; dt := 0.02%float; state_list := ["p"; "q"];
     output_states := []; train_states := ["p"; "q"];
     conditions := [flaps 0; flaps 0.5] |}.

(** A numeric library whose SVD does not converge. *)
Definition svd_fails : Numerics :=
  Build_Numerics (fun _ => inl LinAlgError) Ref.corrcoef Ref.allclose
    Ref.matrix_rank Ref.std.

(** How often [correlation_report_3] was entered. *)
Definition reports_started (log : list event) : nat :=
  length (filter (fun e =>
            match e with
            | Print [PyStr s] =>
                String.eqb s "test pearson correlation coefficients:"
            | _ => false
            end) log).

(** The globals the loop over conditions starts from. *)
Definition start_globals (c : config) (cl : list cond_entry) : globals :=
  {| root_dict := initial_root_dict (dt c) (output_states c) (state_list c);
     condition_dict := [];
     cond_list := cl |}.

End Run.

(** Inputs of the ranking pass. *)
Module Rank.

(** The pool of the ranking pass for target 0 of three channels. *)
Definition start : rank_state :=
  {| rk_incl := []; rk_rem := [(1, PrimFloat.zero); (2, PrimFloat.zero)] |}.

(** What a computation returned ([d] when it did not). *)
Definition returned {A} (d : A) (m : M A) : A :=
  match snd m with Ret a => a | _ => d end.

(** Correlations in which channel [a] goes against the target. *)
Definition opposed : matrix :=
  [[1; -0.8; 0.5]; [-0.8; 1; 0]; [0.5; 0; 1]]%float.

End Rank.

(** ** Exceptions and the iterations of the loop *)

(** Every exception [m] may raise satisfies [P]. *)
Definition raises_only {A} (P : exn -> Prop) (m : M A) : Prop :=
  forall e, snd m = Raise e -> P e.

(** What [solve] may raise on [traindata]: the [IndexError] of an index,
    the [ValueError] of shapes that do not fit, what the SVD of X raised. *)
Definition solve_failure (np : Numerics) (traindata : matrix) (e : exn)
  : Prop :=
  e = IndexError \/ e = ValueError \/
  svd np (map (@removelast float) traindata) = inl e.

(** [iterates k st st']: [k] iterations of the selector's loop for target
    row [i], each run to its end, lead from state [st] to state [st']. *)
Inductive iterates (np : Numerics) (train_states : list string)
  (traindata : matrix) (i : Z) : nat -> sel_state -> sel_state -> Prop :=
| iterates_O (st : sel_state) : iterates np train_states traindata i 0 st st
| iterates_S (k : nat) (st st1 st2 : sel_state) :
    snd (loop_body np train_states traindata i st) = Ret st1 ->
    iterates np train_states traindata i k st1 st2 ->
    iterates np train_states traindata i (S k) st st2.

(** What the selector's loop keeps, for [n] rows of [N] samples: the
    target row is included, the included indices are distinct and are row
    indices or the sentinel, the error row has one entry per sample. *)
Definition sel_inv (n N : nat) (i : Z) (st : sel_state) : Prop :=
  set_in i (incl st) = true /\
  Forall (fun k => -1 <= k < Z.of_nat n) (incl st) /\
  NoDup (incl st) /\
  length (error st) = N.

(** What the ranking loop keeps on [n] rows: distinct pooled rows, and
    ranked and pooled rows that are row indices. *)
Definition rank_inv (n : nat) (st : rank_state) : Prop :=
  NoDup (map fst (rk_rem st)) /\
  Forall (fun k => 0 <= k < Z.of_nat n) (rk_incl st) /\
  Forall (fun k => 0 <= k < Z.of_nat n) (map fst (rk_rem st)).

(** ** The training data behind the conditions *)

(** Entry [k] of [cond_list] exists and holds at least one state vector:
    what the conditions report reads of it. *)
Definition reportable (cl : list cond_entry) (k : nat) : bool :=
  match nth_error cl k with
  | Some e => negb (is_empty (traindata_list e))
  | None => false
  end.

(** The entry [e] once [e["sysid"] = v] is done. *)
Definition with_sysid (e : cond_entry) (v : string) : cond_entry :=
  {| traindata_list := traindata_list e; coeff := coeff e; sysid := Some v |}.

(** * Properties *)

(** ** The monad and Python indexing *)

Lemma bind_ret_l {A B} (a : A) (f : A -> M B) : bind (ret a) f = f a.
Proof. unfold bind, ret. destruct (f a) as [l r]. reflexivity. Qed.

Lemma bind_print {B} (args : list pyval) (k : unit -> M B) :
  bind (print args) k = (Print args :: fst (k tt), snd (k tt)).
Proof. unfold bind, print. destruct (k tt) as [l r]. reflexivity. Qed.

Lemma mapM_ret {A B} (f : A -> M B) (g : A -> B) (l : list A) :
  (forall a, In a l -> f a = ret (g a)) -> mapM f l = ret (map g l).
Proof.
  induction l as [|a l IH]; intros H; simpl.
  - reflexivity.
  - rewrite (H a (or_introl eq_refl)), bind_ret_l.
    rewrite IH by (intros; apply H; now right).
    now rewrite bind_ret_l.
Qed.

Lemma py_nth_nat {A} (l : list A) (k : nat) (d : A) :
  (k < length l)%nat -> py_nth l (Z.of_nat k) = ret (nth k l d).
Proof.
  intros Hk. unfold py_nth.
  destruct (Z.ltb_spec (Z.of_nat k) 0) as [Hn|_]; [lia|].
  destruct (Z.leb_spec 0 (Z.of_nat k)) as [_|Hn]; [|lia].
  destruct (Z.ltb_spec (Z.of_nat k) (Z.of_nat (length l))) as [_|Hn]; [|lia].
  simpl. rewrite Nat2Z.id.
  rewrite (nth_error_nth' l d Hk). reflexivity.
Qed.

Lemma nth_pred_length_last {A} (l : list A) (d : A) :
  nth (length l - 1) l d = last l d.
Proof.
  induction l as [|x l IH]; [reflexivity|].
  destruct l as [|y l]; [reflexivity|].
  simpl in *. rewrite Nat.sub_0_r in IH. exact IH.
Qed.

Lemma py_nth_last {A} (l : list A) (d : A) :
  l <> [] -> py_nth l (-1) = ret (last l d).
Proof.
  intros Hl. unfold py_nth.
  assert (Hlen : (0 < length l)%nat) by (destruct l; [congruence | simpl; lia]).
  change (-1 <? 0) with true. cbv iota zeta.
  destruct (Z.leb_spec 0 (-1 + Z.of_nat (length l))) as [_|Hn]; [|lia].
  destruct (Z.ltb_spec (-1 + Z.of_nat (length l)) (Z.of_nat (length l)))
    as [_|Hn]; [|lia].
  cbv [andb].
  assert (Hk : Z.to_nat (-1 + Z.of_nat (length l)) = (length l - 1)%nat) by lia.
  rewrite Hk.
  assert (Hlt : (length l - 1 < length l)%nat) by lia.
  rewrite (nth_error_nth' l d Hlt).
  now rewrite nth_pred_length_last.
Qed.

Lemma bind_print_eq {B} (args : list pyval) (k : unit -> M B) l r :
  k tt = (l, r) -> bind (print args) k = (Print args :: l, r).
Proof. intros H. rewrite bind_print, H. reflexivity. Qed.

Lemma snd_bind_print {B} (args : list pyval) (k : unit -> M B) :
  snd (bind (print args) k) = snd (k tt).
Proof. rewrite bind_print. reflexivity. Qed.

(** ** Lists, slices and shapes *)

Lemma skipn_nth_cons {A} (a : nat) (l : list A) (d : A) :
  (a < length l)%nat -> skipn a l = nth a l d :: skipn (S a) l.
Proof.
  revert l. induction a as [|a IH]; intros [|x l] H; simpl in *; try lia.
  - reflexivity.
  - apply IH. lia.
Qed.

Lemma samples_firstn_skipn (c a : nat) (row : vec) :
  (a + c <= length row)%nat ->
  Spec.samples a c row = firstn c (skipn a row).
Proof.
  revert a. induction c as [|c IH]; intros a H.
  - reflexivity.
  - unfold Spec.samples in *. simpl.
    rewrite (skipn_nth_cons a row PrimFloat.zero) by lia. simpl.
    f_equal. apply IH. lia.
Qed.

Lemma removelast_samples (N : nat) (row : vec) :
  length row = N -> removelast row = Spec.samples 0 (N - 1) row.
Proof.
  intros H. rewrite samples_firstn_skipn by (simpl; lia). simpl.
  rewrite removelast_firstn_len, H. f_equal. lia.
Qed.

Lemma tl_samples (N : nat) (row : vec) :
  length row = N -> tl row = Spec.samples 1 (N - 1) row.
Proof.
  intros H. destruct row as [|x row]; [subst; reflexivity|].
  rewrite samples_firstn_skipn by (simpl in *; lia).
  rewrite firstn_all2; [reflexivity|].
  rewrite length_skipn. lia.
Qed.

Lemma length_zip_with {A B C} (f : A -> B -> C) (a : list A) (b : list B) :
  length (Np.zip_with f a b) = Nat.min (length a) (length b).
Proof.
  revert b. induction a as [|x a IH]; intros [|y b]; simpl; auto.
Qed.

Lemma rect_nth (n : nat) (m : matrix) (k : nat) :
  Np.rect n m -> (k < length m)%nat -> length (nth k m []) = n.
Proof.
  intros Hr Hk. unfold Np.rect in Hr. rewrite Forall_forall in Hr.
  apply Hr, nth_In, Hk.
Qed.

Lemma rect_ncols (n : nat) (m : matrix) :
  Np.rect n m -> m <> [] -> Np.ncols m = n.
Proof.
  intros Hr Hm. destruct m as [|r m]; [congruence|].
  inversion Hr; subst. reflexivity.
Qed.

Lemma length_transpose (m : matrix) : length (Np.transpose m) = Np.ncols m.
Proof. unfold Np.transpose. now rewrite length_map, length_seq. Qed.

Lemma rect_transpose (m : matrix) : Np.rect (length m) (Np.transpose m).
Proof.
  unfold Np.rect, Np.transpose. rewrite Forall_forall. intros r Hr.
  apply in_map_iff in Hr as (j & <- & _). unfold Np.col. apply length_map.
Qed.

Lemma vecmat_ok (y : vec) (b : matrix) :
  length y = length b -> Np.vecmat y b = ret (Spec.row_times y b).
Proof.
  intros H. unfold Np.vecmat. rewrite H, Nat.eqb_refl. reflexivity.
Qed.

Lemma bcast_row_same (f : float -> float -> float) (r s : vec) :
  length r = length s -> Np.bcast_row f r s = ret (Np.zip_with f r s).
Proof.
  intros H. unfold Np.bcast_row. rewrite H, Nat.eqb_refl. reflexivity.
Qed.

Lemma bcast_mul_ok (m : matrix) (s : vec) :
  Np.rect (length s) m -> Np.bcast_mul m s = ret (Spec.times_diag m s).
Proof.
  intros Hr. unfold Np.bcast_mul, Spec.times_diag. apply mapM_ret.
  intros r Hin. apply bcast_row_same.
  unfold Np.rect in Hr. rewrite Forall_forall in Hr. now apply Hr.
Qed.

Lemma matmul_ok (a b : matrix) :
  Np.rect (length b) a ->
  Np.matmul a b = ret (map (fun r => Spec.row_times r b) a).
Proof.
  intros Hr. unfold Np.matmul. apply mapM_ret.
  intros r Hin. apply vecmat_ok.
  unfold Np.rect in Hr. rewrite Forall_forall in Hr. now apply Hr.
Qed.

Lemma rect_times_diag (n : nat) (m : matrix) (s : vec) :
  Np.rect n m -> length s = n -> Np.rect n (Spec.times_diag m s).
Proof.
  intros Hr Hs. unfold Np.rect, Spec.times_diag in *.
  rewrite Forall_forall in *. intros r Hin.
  apply in_map_iff in Hin as (r0 & <- & Hin0).
  rewrite length_zip_with, (Hr r0 Hin0), Hs. apply Nat.min_id.
Qed.

Lemma first_columns_all (n k : nat) (m : matrix) :
  Np.rect k m -> (k <= n)%nat -> Spec.first_columns n m = m.
Proof.
  intros Hr Hk. unfold Spec.first_columns, Np.rect in *.
  rewrite Forall_forall in Hr.
  rewrite <- (map_id m) at 2. apply map_ext_in. intros r Hin.
  apply firstn_all2. rewrite (Hr r Hin). exact Hk.
Qed.

Lemma length_recip (s : vec) : length (Np.recip s) = length s.
Proof. apply length_map. Qed.

(** ** [solve] *)

Lemma X_block_removelast (N : nat) (traindata : matrix) :
  Np.rect N traindata ->
  map (@removelast float) traindata = Spec.X_block N traindata.
Proof.
  intros Hr. unfold Spec.X_block. apply map_ext_in. intros r Hin.
  apply removelast_samples.
  unfold Np.rect in Hr. rewrite Forall_forall in Hr. now apply Hr.
Qed.

(** What [solve] computes once the factors have the shapes of a thin SVD:
    the value of every intermediate array, in the order of the source. *)
Lemma solve_run (np : Numerics) (traindata : matrix) (i : Z) (rows N : nat)
  (u : matrix) (s : vec) (vh : matrix) :
  let K := Nat.min rows (N - 1) in
  length traindata = rows -> Np.rect N traindata ->
  (1 <= rows)%nat -> (2 <= N)%nat -> 0 <= i < Z.of_nat rows ->
  svd np (Spec.X_block N traindata) = inr (u, s, vh) ->
  length u = rows -> Np.rect K u -> length s = K ->
  length vh = K -> Np.rect (N - 1) vh ->
  let X := Spec.X_block N traindata in
  let Y := Spec.Y_block N traindata (Z.to_nat i) in
  let A := Spec.operator rows Y u s vh in
  solve np i traindata =
  ([Print [PyStr ("X:" ++ nl); Np.shape2 X; PyArr2 X];
    Print [PyStr ("Y:" ++ nl); Np.shape1 Y; PyArr1 Y];
    Print [PyStr "dask svd..."];
    Print [PyStr ("u:" ++ nl); Np.shape2 u; PyArr2 u];
    Print [PyStr ("s:" ++ nl); Np.shape1 s; PyArr1 s];
    Print [PyStr ("vh:" ++ nl); Np.shape2 vh; PyArr2 vh];
    Print [PyStr "dask svd close?";
           PyBool (allclose np X
                     (map (fun r => Spec.row_times r vh) (Spec.times_diag u s)))];
    Print [PyStr "s inv:"; PyArr1 (Np.recip s)];
    Print [PyStr "A rank:"; PyInt (matrix_rank np A)];
    Print [PyStr ("A:" ++ nl); Np.shape1 A; PyArr1 A]],
   Ret (PyArr1 A)).
Proof.
  intros K Hlen Hrect Hrows HN Hi Hsvd Hu Hur Hs Hvh Hvhr X Y A.
  assert (HK : (1 <= K)%nat) by (unfold K; lia).
  assert (HKN : (K <= N - 1)%nat) by (unfold K; lia).
  assert (HKr : (K <= rows)%nat) by (unfold K; lia).
  assert (Hfirst : firstn N vh = vh) by (apply firstn_all2; lia).
  assert (Hvr : Np.rect K (Np.transpose vh))
    by (rewrite <- Hvh; apply rect_transpose).
  assert (Hvh_ne : vh <> []) by (intros ->; simpl in Hvh; lia).
  assert (Hv_len : length (Np.transpose vh) = (N - 1)%nat)
    by (rewrite length_transpose; now apply rect_ncols).
  assert (HY : length Y = (N - 1)%nat)
    by (unfold Y, Spec.Y_block, Spec.samples; now rewrite length_map, length_seq).
  assert (Hvs_ne : Spec.times_diag (Np.transpose vh) (Np.recip s) <> []).
  { intros E. apply (f_equal (@length vec)) in E.
    unfold Spec.times_diag in E. rewrite length_map, Hv_len in E. simpl in E. lia. }
  assert (Hu_ne : u <> []) by (intros ->; simpl in Hu; lia).
  unfold solve.
  (* states = len(traindata[0]) *)
  change (py_nth traindata 0) with (py_nth traindata (Z.of_nat 0)).
  rewrite (py_nth_nat traindata 0 []) by lia. rewrite bind_ret_l.
  rewrite (rect_nth N traindata 0 Hrect) by lia.
  (* X = traindata[:, :-1]; Y = traindata[i, 1:] *)
  rewrite <- (Z2Nat.id i) at 1 by lia.
  rewrite (py_nth_nat traindata (Z.to_nat i) []) by lia. rewrite bind_ret_l.
  rewrite (tl_samples N) by (apply rect_nth; [assumption | lia]).
  rewrite (X_block_removelast N) by assumption.
  do 3 (apply bind_print_eq; cbv beta).
  rewrite Hsvd. simpl lift. rewrite bind_ret_l.
  do 3 (apply bind_print_eq; cbv beta).
  (* Xr = (u * s) @ vh[:states, :] *)
  rewrite (bcast_mul_ok u s) by (rewrite Hs; exact Hur). rewrite bind_ret_l.
  rewrite Hfirst.
  rewrite (matmul_ok (Spec.times_diag u s) vh)
    by (rewrite Hvh; apply rect_times_diag; assumption).
  rewrite bind_ret_l.
  do 2 (apply bind_print_eq; cbv beta).
  (* A = Y @ (v[:, :states] * (1/s)) @ u.T *)
  change (map (firstn N) (Np.transpose vh))
    with (Spec.first_columns N (Np.transpose vh)).
  rewrite (first_columns_all N K) by (assumption || lia).
  rewrite (bcast_mul_ok (Np.transpose vh) (Np.recip s))
    by (rewrite length_recip, Hs; exact Hvr).
  rewrite bind_ret_l.
  rewrite vecmat_ok.
  2:{ unfold Spec.times_diag. rewrite length_map, Hv_len. exact HY. }
  rewrite bind_ret_l.
  rewrite vecmat_ok.
  2:{ unfold Spec.row_times at 1. rewrite length_map, !length_transpose.
      rewrite (rect_ncols K u Hur Hu_ne).
      apply rect_ncols; [|assumption].
      apply rect_times_diag; [assumption | now rewrite length_recip]. }
  rewrite bind_ret_l.
  assert (HA : Spec.row_times
             (Spec.row_times
                (Spec.samples 1 (N - 1) (nth (Z.to_nat i) traindata []))
                (Spec.times_diag (Np.transpose vh) (Np.recip s)))
             (Np.transpose u) = A).
  { unfold A, Spec.operator. now rewrite (first_columns_all rows K). }
  rewrite HA.
  do 2 (apply bind_print_eq; cbv beta).
  reflexivity.
Qed.

Lemma length_operator (rows K : nat) (Y : vec) (u : matrix) (s : vec)
  (vh : matrix) :
  length u = rows -> Np.rect K u -> (1 <= rows)%nat -> (1 <= K)%nat ->
  length (Spec.operator rows Y u s vh) = rows.
Proof.
  intros Hu Hur Hrows HK.
  assert (Hu_ne : u <> []) by (intros ->; simpl in Hu; lia).
  unfold Spec.operator, Spec.row_times at 1.
  rewrite length_map, length_transpose.
  apply rect_ncols.
  - rewrite <- Hu. apply rect_transpose.
  - intros E. apply (f_equal (@length _)) in E.
    rewrite length_transpose, (rect_ncols K u Hur Hu_ne) in E. simpl in E. lia.
Qed.

(** C1. For a training matrix of [rows] rows and [N] samples and a valid
    target row [i], [solve] hands dask's SVD the block X = all rows over
    samples [0, N-2], takes Y = row [i] over samples [1, N-1], and, the
    factors U, S, V^T having the shapes of a thin SVD, returns
    A = Y . V . diag(1/S) . U^T with V cut to its first [rows] columns
    (the source slices at [len(traindata[0])], which keeps the same
    columns); A has [rows] entries. *)
Theorem solve_recovers_operator (np : Numerics) (traindata : matrix) (i : Z)
  (rows N : nat) (u : matrix) (s : vec) (vh : matrix) :
  length traindata = rows -> Np.rect N traindata ->
  (1 <= rows)%nat -> (2 <= N)%nat -> 0 <= i < Z.of_nat rows ->
  svd np (Spec.X_block N traindata) = inr (u, s, vh) ->
  length u = rows -> Np.rect (Nat.min rows (N - 1)) u ->
  length s = Nat.min rows (N - 1) ->
  length vh = Nat.min rows (N - 1) -> Np.rect (N - 1) vh ->
  snd (solve np i traindata)
  = Ret (PyArr1 (Spec.operator rows
                   (Spec.Y_block N traindata (Z.to_nat i)) u s vh))
  /\ length (Spec.operator rows
               (Spec.Y_block N traindata (Z.to_nat i)) u s vh) = rows.
Proof.
  intros Hlen Hrect Hrows HN Hi Hsvd Hu Hur Hs Hvh Hvhr. split.
  - rewrite (solve_run np traindata i rows N u s vh); auto.
  - apply (length_operator rows (Nat.min rows (N - 1))); auto. lia.
Qed.

Lemma solve_recovers_operator_witness :
  snd (solve Ref.numerics 0 [[3; 4; 10]]%float)
  = Ret (PyArr1 (Spec.operator 1
                   (Spec.Y_block 3 [[3; 4; 10]]%float (Z.to_nat 0))
                   [[1]]%float [Ref.norm2 [3; 4]%float]
                   [Ref.unit [3; 4]%float]))
  /\ length (Spec.operator 1
               (Spec.Y_block 3 [[3; 4; 10]]%float (Z.to_nat 0))
               [[1]]%float [Ref.norm2 [3; 4]%float]
               [Ref.unit [3; 4]%float]) = 1%nat.
Proof.
  apply (solve_recovers_operator Ref.numerics [[3; 4; 10]]%float 0 1 3).
  - reflexivity.
  - repeat constructor.
  - lia.
  - lia.
  - lia.
  - reflexivity.
  - reflexivity.
  - repeat constructor.
  - reflexivity.
  - reflexivity.
  - repeat constructor.
Defined.

(** ** Comparisons on float64

    [>] is a strict order in which NaN compares false with everything;
    read through the specification of binary64 in [SpecFloat]. *)

Lemma key_spec e m e' m' :
  (key e m e' m' = Lt <-> (e < e' \/ (e = e' /\ (m < m')%positive))) /\
  (key e m e' m' = Gt <-> (e' < e \/ (e = e' /\ (m' < m)%positive))) /\
  (key e m e' m' = Eq <-> (e = e' /\ m = m')).
Proof.
  unfold key. destruct (Z.compare_spec e e').
  - rewrite Pos.compare_lt_iff, Pos.compare_gt_iff, Pos.compare_eq_iff.
    repeat split; intros; try lia; intuition lia.
  - repeat split; intros; try discriminate; try lia;
      intuition (try lia; try discriminate).
  - repeat split; intros; try discriminate; try lia;
      intuition (try lia; try discriminate).
Qed.

Lemma SFcompare_key s1 m1 e1 s2 m2 e2 :
  SFcompare (S754_finite s1 m1 e1) (S754_finite s2 m2 e2) =
  Some (if s1 then if s2 then CompOpp (key e1 m1 e2 m2) else Lt
        else if s2 then Gt else key e1 m1 e2 m2).
Proof.
  unfold key. simpl. destruct s1, s2; auto; destruct (e1 ?= e2)%Z; auto.
Qed.

Lemma key_refl e m : key e m e m = Eq.
Proof. unfold key. now rewrite Z.compare_refl, Pos.compare_refl. Qed.

(** Opens the comparison of three binary64 values down to the finite
    case, where the order is the one of [key]. *)
Ltac sf_cases a b c :=
  unfold SFltb;
  destruct a as [?s|?s| |?s ?m ?e], b as [?s|?s| |?s ?m ?e],
           c as [?s|?s| |?s ?m ?e];
  rewrite ?SFcompare_key;
  try (simpl; repeat match goal with s : bool |- _ => destruct s end;
       simpl; congruence).

Ltac key_facts :=
  repeat match goal with H : _ <-> _ |- _ => destruct H end;
  intuition (try congruence; try lia).

Lemma SFltb_trans x y z :
  SFltb x y = true -> SFltb y z = true -> SFltb x z = true.
Proof.
  sf_cases x y z.
  destruct s, s0, s1; try congruence;
    destruct (key_spec e m e0 m0) as (A1 & A2 & A3);
    destruct (key_spec e0 m0 e1 m1) as (B1 & B2 & B3);
    destruct (key_spec e m e1 m1) as (C1 & C2 & C3);
    destruct (key e m e0 m0), (key e0 m0 e1 m1), (key e m e1 m1);
    simpl; try congruence; intros _ _; exfalso; key_facts.
Qed.

Lemma SFltb_irrefl x : SFltb x x = false.
Proof.
  unfold SFltb.
  destruct x as [s|s| |s m e]; rewrite ?SFcompare_key, ?key_refl;
    simpl; try destruct s; reflexivity.
Qed.

(** [b < c] and not [b < a], with [a] a number: then [a < c]. *)
Lemma SFltb_cotrans a b c :
  SFltb b c = true -> SFltb b a = false -> a <> S754_nan -> SFltb a c = true.
Proof.
  sf_cases a b c.
  destruct s, s0, s1; try congruence;
    destruct (key_spec e0 m0 e1 m1) as (A1 & A2 & A3);
    destruct (key_spec e0 m0 e m) as (B1 & B2 & B3);
    destruct (key_spec e m e1 m1) as (C1 & C2 & C3);
    destruct (key e0 m0 e1 m1), (key e0 m0 e m), (key e m e1 m1);
    simpl; try congruence; intros _ _ _; exfalso; key_facts.
Qed.

Lemma SFeqb_refl_nan x : SFeqb x x = false <-> x = S754_nan.
Proof.
  unfold SFeqb.
  destruct x as [s|s| |s m e]; rewrite ?SFcompare_key, ?key_refl;
    simpl; try destruct s; simpl; split; congruence.
Qed.

Lemma is_nan_spec x : PrimFloat.is_nan x = true <-> Prim2SF x = S754_nan.
Proof.
  unfold PrimFloat.is_nan.
  rewrite FloatAxioms.eqb_spec, negb_true_iff. apply SFeqb_refl_nan.
Qed.

Lemma is_nan_false_spec x :
  PrimFloat.is_nan x = false <-> Prim2SF x <> S754_nan.
Proof.
  rewrite <- is_nan_spec. destruct (PrimFloat.is_nan x); split; congruence.
Qed.

Lemma is_nan_abs x : PrimFloat.is_nan (Np.fabs x) = PrimFloat.is_nan x.
Proof.
  apply eq_true_iff_eq. unfold Np.fabs. rewrite !is_nan_spec, abs_spec.
  destruct (Prim2SF x); simpl; split; congruence.
Qed.

(** NaN is greater than nothing and nothing is greater than NaN. *)
Lemma fgt_nan_l x y : PrimFloat.is_nan x = true -> Np.fgt x y = false.
Proof.
  intros H. apply is_nan_spec in H. unfold Np.fgt.
  rewrite FloatAxioms.ltb_spec, H. unfold SFltb, SFcompare.
  destruct (Prim2SF y); reflexivity.
Qed.

Lemma fgt_nan_r x y : PrimFloat.is_nan y = true -> Np.fgt x y = false.
Proof.
  intros H. apply is_nan_spec in H. unfold Np.fgt.
  rewrite FloatAxioms.ltb_spec, H. reflexivity.
Qed.

Lemma fgt_not_nan x y :
  Np.fgt x y = true ->
  PrimFloat.is_nan x = false /\ PrimFloat.is_nan y = false.
Proof.
  intros H. split.
  - destruct (PrimFloat.is_nan x) eqn:E; [|reflexivity].
    rewrite (fgt_nan_l x y E) in H. discriminate.
  - destruct (PrimFloat.is_nan y) eqn:E; [|reflexivity].
    rewrite (fgt_nan_r x y E) in H. discriminate.
Qed.

Lemma fgt_irrefl x : Np.fgt x x = false.
Proof. unfold Np.fgt. rewrite FloatAxioms.ltb_spec. apply SFltb_irrefl. Qed.

Lemma fgt_trans x y z :
  Np.fgt x y = true -> Np.fgt y z = true -> Np.fgt x z = true.
Proof.
  unfold Np.fgt. rewrite !FloatAxioms.ltb_spec. intros H1 H2.
  exact (SFltb_trans _ _ _ H2 H1).
Qed.

(** [c > b], [a] a number that is not greater than [b]: then [c > a]. *)
Lemma fgt_cotrans a b c :
  Np.fgt c b = true -> Np.fgt a b = false -> PrimFloat.is_nan a = false ->
  Np.fgt c a = true.
Proof.
  unfold Np.fgt. rewrite !FloatAxioms.ltb_spec, is_nan_false_spec.
  apply SFltb_cotrans.
Qed.

Lemma fgt_asym x y : Np.fgt x y = true -> Np.fgt y x = false.
Proof.
  intros H. destruct (Np.fgt y x) eqn:E; [|reflexivity].
  rewrite <- (fgt_irrefl x). symmetry. exact (fgt_trans _ _ _ H E).
Qed.

(** ** The scan for the best correlation (lines 190-197) *)

Lemma at2_last (corr : matrix) (j : Z) :
  corr <> [] -> 0 <= j < Z.of_nat (length (last corr [])) ->
  Np.at2 corr (-1) j = ret (nth (Z.to_nat j) (last corr []) PrimFloat.zero).
Proof.
  intros Hc Hj. unfold Np.at2.
  rewrite (py_nth_last corr [] Hc), bind_ret_l.
  rewrite <- (Z2Nat.id j) at 1 by lia.
  apply py_nth_nat. lia.
Qed.

Lemma scan_scan_row (corr : matrix) (incl : pyset) (js : list Z)
  (mi : Z) (ma : float) :
  corr <> [] ->
  (forall j, In j js -> 0 <= j < Z.of_nat (length (last corr []))) ->
  scan corr incl js mi ma = ret (scan_row (last corr []) incl js mi ma).
Proof.
  intros Hc. revert mi ma.
  induction js as [|j js IH]; intros mi ma Hjs; simpl.
  - reflexivity.
  - assert (Hjs' : forall j0, In j0 js ->
                     0 <= j0 < Z.of_nat (length (last corr [])))
      by (intros; apply Hjs; now right).
    destruct (set_in j incl); [now apply IH|].
    rewrite (at2_last corr j Hc) by (apply Hjs; now left).
    rewrite bind_ret_l. fold (cabs (last corr []) j).
    destruct (Np.fgt (cabs (last corr []) j) ma); now apply IH.
Qed.

(** No candidate beats the running maximum: the scan changes nothing. *)
Lemma scan_row_none (row : vec) (incl : pyset) (js : list Z)
  (mi : Z) (ma : float) :
  (forall j, In j js ->
     set_in j incl = true \/ Np.fgt (cabs row j) ma = false) ->
  scan_row row incl js mi ma = (mi, ma).
Proof.
  induction js as [|j js IH]; intros H; simpl.
  - reflexivity.
  - assert (IH' := IH (fun j0 Hj0 => H j0 (or_intror Hj0))).
    destruct (H j (or_introl eq_refl)) as [Hin|Hgt].
    + now rewrite Hin.
    + destruct (set_in j incl); [assumption|]. now rewrite Hgt.
Qed.

(** A row whose correlation is NaN is never the one the scan settles on. *)
Lemma scan_row_skips_nan (row : vec) (incl : pyset) (js : list Z)
  (mi : Z) (ma : float) (j0 : Z) :
  PrimFloat.is_nan (cabs row j0) = true -> mi <> j0 ->
  fst (scan_row row incl js mi ma) <> j0.
Proof.
  intros Hnan. revert mi ma.
  induction js as [|j js IH]; intros mi ma Hmi; simpl.
  - exact Hmi.
  - destruct (set_in j incl); [now apply IH|].
    destruct (Np.fgt (cabs row j) ma) eqn:Hgt; [|now apply IH].
    apply IH. intros ->.
    rewrite (fgt_nan_l _ _ Hnan) in Hgt. discriminate.
Qed.

(** The invariant of the scan: what [max_index], [max_abs] are after
    [js], started from a running maximum that is a number. *)
Lemma scan_row_spec (row : vec) (incl : pyset) (js : list Z)
  (mi : Z) (ma : float) :
  PrimFloat.is_nan ma = false ->
  let m := fst (scan_row row incl js mi ma) in
  let a := snd (scan_row row incl js mi ma) in
  PrimFloat.is_nan a = false /\
  (forall j, In j js -> set_in j incl = false ->
             Np.fgt (cabs row j) a = false) /\
  ((m = mi /\ a = ma) \/
   (exists l1 l2,
      js = l1 ++ m :: l2 /\ set_in m incl = false /\ a = cabs row m /\
      Np.fgt a ma = true /\
      (forall j, In j l1 -> set_in j incl = false ->
                 PrimFloat.is_nan (cabs row j) = true \/
                 Np.fgt a (cabs row j) = true))).
Proof.
  revert mi ma. induction js as [|j js IH]; intros mi ma Hma; simpl.
  - split; [exact Hma|]. split; [intros j []|]. now left.
  - destruct (set_in j incl) eqn:Hin.
    + destruct (IH mi ma Hma) as (Ha & Hall & Hcase).
      split; [exact Ha|]. split.
      * intros j0 [<-|Hj0] Hn; [congruence | now apply Hall].
      * destruct Hcase as [Hsame|(l1 & l2 & Hjs & Hm & Hav & Hgt & Hl1)];
          [now left | right].
        exists (j :: l1), l2. rewrite Hjs at 1.
        split; [reflexivity|]. split; [exact Hm|]. split; [exact Hav|].
        split; [exact Hgt|].
        intros j0 [<-|Hj0] Hn; [congruence | now apply Hl1].
    + destruct (Np.fgt (cabs row j) ma) eqn:Hgt.
      * destruct (fgt_not_nan _ _ Hgt) as [Hc _].
        destruct (IH j (cabs row j) Hc) as (Ha & Hall & Hcase).
        split; [exact Ha|]. split.
        -- intros j0 [<-|Hj0] Hn; [|now apply Hall].
           destruct Hcase as [[_ ->]|(l1 & l2 & _ & _ & _ & Hgt' & _)].
           ++ apply fgt_irrefl.
           ++ now apply fgt_asym.
        -- right.
           destruct Hcase as [[Hm Hav]|(l1 & l2 & Hjs & Hm & Hav & Hgt' & Hl1)].
           ++ exists [], js. rewrite Hm, Hav.
              split; [reflexivity|]. split; [exact Hin|].
              split; [reflexivity|]. split; [exact Hgt|]. intros j0 [].
           ++ exists (j :: l1), l2. rewrite Hjs at 1.
              split; [reflexivity|]. split; [exact Hm|]. split; [exact Hav|].
              split; [exact (fgt_trans _ _ _ Hgt' Hgt)|].
              intros j0 [<-|Hj0] Hn; [now right | now apply Hl1].
      * destruct (IH mi ma Hma) as (Ha & Hall & Hcase).
        assert (Hj : Np.fgt (cabs row j)
                       (snd (scan_row row incl js mi ma)) = false
                     /\ (Np.fgt (snd (scan_row row incl js mi ma)) ma = true ->
                         PrimFloat.is_nan (cabs row j) = true \/
                         Np.fgt (snd (scan_row row incl js mi ma))
                           (cabs row j) = true)).
        { destruct (PrimFloat.is_nan (cabs row j)) eqn:Hnan.
          - split; [now apply fgt_nan_l | now left].
          - destruct Hcase as [[_ ->]|(l1 & l2 & _ & _ & _ & Hgt' & _)].
            + split; [exact Hgt|]. rewrite fgt_irrefl. discriminate.
            + assert (Hlt := fgt_cotrans _ _ _ Hgt' Hgt Hnan).
              split; [now apply fgt_asym | now right]. }
        destruct Hj as [Hj1 Hj2].
        split; [exact Ha|]. split.
        -- intros j0 [<-|Hj0] Hn; [exact Hj1 | now apply Hall].
        -- destruct Hcase as [Hsame|(l1 & l2 & Hjs & Hm & Hav & Hgt' & Hl1)];
             [now left | right].
           exists (j :: l1), l2. rewrite Hjs at 1.
           split; [reflexivity|]. split; [exact Hm|]. split; [exact Hav|].
           split; [exact Hgt'|].
           intros j0 [<-|Hj0] Hn; [now apply Hj2 | now apply Hl1].
Qed.

Lemma in_range (n : nat) (j : Z) : In j (range n) <-> 0 <= j < Z.of_nat n.
Proof.
  unfold range. rewrite in_map_iff. split.
  - intros (k & <- & Hk). apply in_seq in Hk. lia.
  - intros Hj. exists (Z.to_nat j). split; [lia|]. apply in_seq. lia.
Qed.

Lemma py_nth_item {A} (l : list A) (d : A) (k : Z) :
  -1 <= k < Z.of_nat (length l) -> l <> [] -> py_nth l k = ret (item l d k).
Proof.
  intros Hk Hl. unfold item. destruct (Z.ltb_spec k 0).
  - replace k with (-1) by lia. now apply py_nth_last.
  - rewrite <- (Z2Nat.id k) at 1 by lia. apply py_nth_nat. lia.
Qed.

Lemma vstack_ok (m : matrix) (row : vec) :
  Np.rect (length row) m -> Np.vstack m row = ret (m ++ [row]).
Proof.
  intros Hr. unfold Np.vstack.
  replace (forallb _ m) with true; [reflexivity|].
  symmetry. apply forallb_forall. intros r Hin. apply Nat.eqb_eq.
  unfold Np.rect in Hr. rewrite Forall_forall in Hr. now apply Hr.
Qed.

Lemma chosen_bounds (train_states : list string) (corr : matrix)
  (incl : pyset) :
  -1 <= chosen train_states corr incl < Z.of_nat (length train_states)
  \/ train_states = [] /\ chosen train_states corr incl = -1.
Proof.
  unfold chosen.
  destruct (scan_row_spec (last corr []) incl (range (length train_states))
              (-1) PrimFloat.zero eq_refl) as (_ & _ & Hcase).
  destruct train_states as [|t ts]; [now right|left].
  destruct Hcase as [[-> _]|(l1 & l2 & Hjs & _)].
  - simpl. lia.
  - assert (Hin : In (fst (scan_row (last corr []) incl
                             (range (length (t :: ts))) (-1) PrimFloat.zero))
                     (range (length (t :: ts))))
      by (rewrite Hjs at 2; apply in_elt).
    apply in_range in Hin. lia.
Qed.

(** An iteration's selecting half, run: it prints the correlation row as
    it is and the chosen index with the name it designates, and grows the
    included set by that index. *)
Lemma select_step_run (np : Numerics) (train_states : list string)
  (traindata : matrix) (st : sel_state) (corr : matrix) :
  Np.rect (length (error st)) traindata ->
  corrcoef np (traindata ++ [error st]) = inr corr ->
  corr <> [] ->
  (length train_states <= length (last corr []))%nat ->
  train_states <> [] ->
  let m := chosen train_states corr (incl st) in
  select_step np train_states traindata st =
  ([Print [PyArr1 (last corr [])];
    Print [PyStr "max correlation parameter:"; PyInt m;
           PyStr (item train_states "" m)]],
   Ret (corr, m, set_add m (incl st))).
Proof.
  intros Hr Hc Hne Hlen Hts m. unfold select_step.
  rewrite (vstack_ok _ _ Hr), bind_ret_l.
  rewrite Hc. simpl lift. rewrite bind_ret_l.
  rewrite (py_nth_last corr [] Hne), bind_ret_l.
  apply bind_print_eq; cbv beta.
  rewrite (scan_scan_row corr (incl st) _ _ _ Hne)
    by (intros j Hj; apply in_range in Hj; lia).
  rewrite bind_ret_l.
  destruct (scan_row (last corr []) (incl st) (range (length train_states))
              (-1) PrimFloat.zero) as [m' a] eqn:E.
  assert (Hm : m = m') by (unfold m, chosen; now rewrite E).
  subst m'.
  rewrite (py_nth_item train_states "" m); [|  |exact Hts].
  - rewrite bind_ret_l. apply bind_print_eq; cbv beta. reflexivity.
  - destruct (chosen_bounds train_states corr (incl st)) as [H|[H _]];
      [exact H | contradiction].
Qed.

(** ** Python sets and [sorted] *)

Lemma set_in_iff (x : Z) (s : pyset) : set_in x s = true <-> In x s.
Proof.
  unfold set_in. rewrite existsb_exists. split.
  - intros (y & Hy & E). apply Z.eqb_eq in E. now subst.
  - intros H. exists x. split; [exact H | apply Z.eqb_refl].
Qed.

Lemma in_set_add (x y : Z) (s : pyset) :
  In x (set_add y s) <-> x = y \/ In x s.
Proof.
  unfold set_add. destruct (set_in y s) eqn:E.
  - apply set_in_iff in E. split; [now right|]. intros [->|H]; assumption.
  - rewrite in_app_iff. simpl. intuition.
Qed.

Lemma in_insert_sorted (x y : Z) (l : list Z) :
  In y (insert_sorted x l) <-> y = x \/ In y l.
Proof.
  induction l as [|z l IH]; simpl.
  - intuition.
  - destruct (x <=? z); simpl; [intuition|]. rewrite IH. intuition.
Qed.

Lemma in_sorted (y : Z) (s : pyset) : In y (sorted s) <-> In y s.
Proof.
  unfold sorted. induction s as [|x s IH]; simpl.
  - reflexivity.
  - rewrite in_insert_sorted, IH. intuition.
Qed.

(** [sorted] puts a least element first. *)
Lemma sorted_head_least (s : pyset) (y : Z) (rest : list Z) :
  sorted s = y :: rest -> forall z, In z s -> y <= z.
Proof.
  revert y rest. induction s as [|x s IH]; intros y rest E z Hz.
  - destruct Hz.
  - change (sorted (x :: s)) with (insert_sorted x (sorted s)) in E.
    destruct (sorted s) as [|y' r'] eqn:Es.
    + simpl in E. injection E as <- _.
      destruct Hz as [->|Hz]; [lia|].
      apply in_sorted in Hz. rewrite Es in Hz. destruct Hz.
    + specialize (IH y' r' eq_refl). simpl in E.
      destruct (Z.leb_spec x y') as [Hle|Hlt]; injection E as <- _.
      * destruct Hz as [->|Hz]; [lia|]. specialize (IH z Hz). lia.
      * destruct Hz as [->|Hz]; [lia|]. now apply IH.
Qed.

Lemma sorted_least_first (s : pyset) (lo : Z) :
  In lo s -> (forall z, In z s -> lo <= z) ->
  exists rest, sorted s = lo :: rest /\
               forall z, In z s -> z <> lo -> In z rest.
Proof.
  intros Hlo Hall.
  destruct (sorted s) as [|y rest] eqn:E.
  - apply in_sorted in Hlo. rewrite E in Hlo. destruct Hlo.
  - assert (Hy : In y s) by (apply in_sorted; rewrite E; now left).
    assert (y = lo).
    { apply Z.le_antisymm; [|now apply Hall].
      now apply (sorted_head_least s y rest E). }
    subst y. exists rest. split; [reflexivity|].
    intros z Hz Hne. apply in_sorted in Hz. rewrite E in Hz.
    destruct Hz as [<-|Hz]; [congruence | exact Hz].
Qed.

Lemma take_rows_items (m : matrix) (rows : list Z) :
  m <> [] -> Forall (fun k => -1 <= k < Z.of_nat (length m)) rows ->
  Np.take_rows m rows = ret (map (item m []) rows).
Proof.
  intros Hm Hrows. unfold Np.take_rows. apply mapM_ret.
  intros k Hk. rewrite Forall_forall in Hrows.
  now apply py_nth_item; [apply Hrows|].
Qed.

Lemma index_from_in (l : list Z) (x k : Z) :
  In x l -> exists p, index_from Z.eqb l x k = ret p.
Proof.
  revert k. induction l as [|a l IH]; intros k Hin; [destruct Hin|].
  simpl. destruct (Z.eqb_spec a x) as [->|Hne].
  - now exists k.
  - destruct Hin as [->|Hin]; [congruence | now apply IH].
Qed.

(** ** The selector's iteration (lines 181-204) *)

(** C2 (amended). The loop for target row [i] starts from the included
    set [{i}] and the negated target row as error; an iteration appends
    the error row to the training matrix, takes the correlation matrix of
    all rows plus the error row, and, provided some not-yet-included row
    has a strictly positive absolute correlation to the error row, adds
    to the included set the first not-yet-included row, in scan order, of
    the largest absolute correlation. *)
Theorem select_step_adds_first_max (np : Numerics) (train_states : list string)
  (traindata : matrix) (st : sel_state) (corr : matrix)
  (i : Z) (target : vec) (corr0 : matrix) :
  Np.rect (length (error st)) traindata ->
  corrcoef np (traindata ++ [error st]) = inr corr ->
  corr <> [] ->
  (length train_states <= length (last corr []))%nat ->
  (exists j, In j (range (length train_states)) /\
             set_in j (incl st) = false /\
             Np.fgt (cabs (last corr []) j) PrimFloat.zero = true) ->
  (incl (initial_state i target corr0) = [i] /\
   error (initial_state i target corr0) = map Np.fneg target) /\
  exists m,
    snd (select_step np train_states traindata st)
    = Ret (corr, m, set_add m (incl st)) /\
    first_max_candidate (last corr []) (incl st)
      (range (length train_states)) m.
Proof.
  intros Hr Hc Hne Hlen (j & Hj & Hjn & Hjgt).
  split; [split; reflexivity|].
  assert (Hts : train_states <> []).
  { intros ->. simpl in Hj. destruct Hj. }
  exists (chosen train_states corr (incl st)). split.
  - now rewrite (select_step_run np train_states traindata st corr).
  - unfold chosen.
    destruct (scan_row_spec (last corr []) (incl st)
                (range (length train_states)) (-1) PrimFloat.zero eq_refl)
      as (_ & Hall & Hcase).
    destruct Hcase as [[_ Ha]|(l1 & l2 & Hjs & Hm & Hav & Hgt & Hl1)].
    + specialize (Hall j Hj Hjn). rewrite Ha in Hall. congruence.
    + exists l1, l2. rewrite <- Hav.
      split; [exact Hjs|]. split; [exact Hm|]. split; [exact Hgt|].
      split; [exact Hall | exact Hl1].
Qed.

Lemma select_step_adds_first_max_witness :
  (incl (initial_state 0 [1; 2; 3]%float []) = [0] /\
   error (initial_state 0 [1; 2; 3]%float []) = map Np.fneg [1; 2; 3]%float) /\
  exists m,
    snd (select_step Ref.numerics ["p"; "a"; "b"] Data.ramp_mixed
           (Data.start Data.ramp_mixed))
    = Ret (Data.corr1 Data.ramp_mixed, m,
           set_add m (incl (Data.start Data.ramp_mixed))) /\
    first_max_candidate (last (Data.corr1 Data.ramp_mixed) [])
      (incl (Data.start Data.ramp_mixed)) (range (length ["p"; "a"; "b"])) m.
Proof.
  apply (select_step_adds_first_max Ref.numerics ["p"; "a"; "b"]
           Data.ramp_mixed (Data.start Data.ramp_mixed)
           (Data.corr1 Data.ramp_mixed) 0 [1; 2; 3]%float []).
  - repeat constructor.
  - reflexivity.
  - vm_compute. discriminate.
  - vm_compute. lia.
  - exists 2. split; [vm_compute; auto|]. split; reflexivity.
Defined.

(** C2, as stated, fails where no not-yet-included row has a positive
    correlation: rows 1 and 2 are both candidates, tied at correlation 0,
    and the iteration adds the index -1 instead of row 1. *)
Lemma select_step_tie_at_zero_adds_sentinel :
  snd (select_step Ref.numerics ["p"; "a"; "b"] Data.ramp_flat
         (Data.start Data.ramp_flat))
  = Ret (Data.corr1 Data.ramp_flat, -1, [0; -1])
  /\ map (cabs (last (Data.corr1 Data.ramp_flat) [])) [1; 2]
     = [0; 0]%float
  /\ set_in 1 [0; -1] = false /\ set_in 2 [0; -1] = false.
Proof. vm_compute. repeat split. Qed.

(** C6 (amended). With a zero-variance row in the training matrix the
    selecting half of an iteration still completes, and the comparison
    scan never sets [max_index] to a row whose correlation to the error
    row is NaN; NaN is not handled otherwise: the correlation row is
    printed as it is, NaN entries included. *)
Theorem nan_row_never_wins_scan (np : Numerics) (train_states : list string)
  (traindata : matrix) (st : sel_state) (corr : matrix) :
  Np.rect (length (error st)) traindata ->
  corrcoef np (traindata ++ [error st]) = inr corr ->
  corr <> [] ->
  (length train_states <= length (last corr []))%nat ->
  train_states <> [] ->
  exists m log,
    select_step np train_states traindata st
    = (log, Ret (corr, m, set_add m (incl st))) /\
    (forall j, 0 <= j ->
       PrimFloat.is_nan (nth (Z.to_nat j) (last corr []) PrimFloat.zero) = true ->
       m <> j) /\
    In (Print [PyArr1 (last corr [])]) log.
Proof.
  intros Hr Hc Hne Hlen Hts.
  eexists. eexists. split; [|split].
  - apply (select_step_run np train_states traindata st corr); assumption.
  - intros j Hj Hnan. unfold chosen. apply scan_row_skips_nan; [|lia].
    unfold cabs. now rewrite is_nan_abs.
  - now left.
Qed.

Lemma nan_row_never_wins_scan_witness :
  exists m log,
    select_step Ref.numerics ["p"; "c"] Data.ramp_const
      (Data.start Data.ramp_const)
    = (log, Ret (Data.corr1 Data.ramp_const, m,
                 set_add m (incl (Data.start Data.ramp_const)))) /\
    (forall j, 0 <= j ->
       PrimFloat.is_nan (nth (Z.to_nat j) (last (Data.corr1 Data.ramp_const) [])
                           PrimFloat.zero) = true ->
       m <> j) /\
    In (Print [PyArr1 (last (Data.corr1 Data.ramp_const) [])]) log.
Proof.
  apply (nan_row_never_wins_scan Ref.numerics ["p"; "c"] Data.ramp_const
           (Data.start Data.ramp_const) (Data.corr1 Data.ramp_const)).
  - repeat constructor.
  - reflexivity.
  - vm_compute. discriminate.
  - vm_compute. lia.
  - discriminate.
Defined.

(** C6, as stated, fails on a ramp [p] and a constant channel [c]: the
    correlation row is printed with its NaN, the iteration names [c] as
    the best-correlated parameter (through the index -1) and fits on
    [c]'s row; the ranking pass, run on the same correlations, prints
    NaN as [c]'s score. *)
Lemma constant_row_is_selected_and_nan_is_printed :
  select_step Ref.numerics ["p"; "c"] Data.ramp_const
    (Data.start Data.ramp_const)
  = ([Print [PyArr1 [-1; nan; 1]%float];
      Print [PyStr "max correlation parameter:"; PyInt (-1); PyStr "c"]],
     Ret (Data.corr1 Data.ramp_const, -1, [0; -1]))
  /\ Np.take_rows Data.ramp_const (sorted [0; -1])
     = ret [[5; 5; 5]; [1; 2; 3]]%float
  /\ fst (second_pass 5 ["p"; "c"] (Data.corr_of Data.ramp_const) 0)
     = [PrintNoNl [PyStr "p: "]; PrintNoNl [PyFmt3 nan; PyStr "c, "];
        Print [PyStr ""]].
Proof. vm_compute. repeat split. Qed.

(** C10 (amended). When no not-yet-included row has a strictly positive,
    non-NaN absolute correlation to the error row (in particular once
    every row is included), [max_index] keeps its initial -1 and -1 joins
    the included set; [sorted] puts it first, so the fit is run on a
    matrix whose first row is the last training row, without an
    exception; that row comes a second time when the last row, index
    [n - 1], was already included. *)
Theorem sentinel_joins_included_rows (np : Numerics)
  (train_states : list string) (traindata : matrix) (i : Z)
  (st : sel_state) (corr : matrix) :
  length traindata = length train_states ->
  Np.rect (length (error st)) traindata ->
  corrcoef np (traindata ++ [error st]) = inr corr ->
  corr <> [] ->
  (length train_states <= length (last corr []))%nat ->
  train_states <> [] ->
  Forall (fun k => -1 <= k < Z.of_nat (length train_states)) (incl st) ->
  set_in i (incl st) = true ->
  (forall j, In j (range (length train_states)) ->
     set_in j (incl st) = true \/
     Np.fgt (cabs (last corr []) j) PrimFloat.zero = false) ->
  exists log rest param_index,
    select_step np train_states traindata st
    = (log, Ret (corr, -1, set_add (-1) (incl st))) /\
    sorted (set_add (-1) (incl st)) = -1 :: rest /\
    index_of Z.eqb (sorted (set_add (-1) (incl st))) i = ret param_index /\
    Np.take_rows traindata (sorted (set_add (-1) (incl st)))
    = ret (last traindata [] :: map (item traindata []) rest) /\
    (set_in (Z.of_nat (length train_states) - 1) (incl st) = true ->
     In (last traindata [] ) (map (item traindata []) rest)).
Proof.
  intros Hlen Hr Hc Hne Hcl Hts Hincl Hi Hnone.
  assert (Hch : chosen train_states corr (incl st) = -1).
  { unfold chosen. now rewrite scan_row_none. }
  assert (Htd : traindata <> []).
  { intros ->. destruct train_states; [congruence | discriminate]. }
  assert (Hall : forall z, In z (set_add (-1) (incl st)) ->
                   -1 <= z < Z.of_nat (length train_states)).
  { intros z Hz. apply in_set_add in Hz as [->|Hz].
    - assert (0 < length train_states)%nat
        by (destruct train_states; [congruence | simpl; lia]).
      lia.
    - rewrite Forall_forall in Hincl. now apply Hincl. }
  destruct (sorted_least_first (set_add (-1) (incl st)) (-1)) as (rest & Es & Hrest).
  { apply in_set_add. now left. }
  { intros z Hz. apply Hall in Hz. lia. }
  destruct (index_from_in (sorted (set_add (-1) (incl st))) i 0) as (p & Hp).
  { apply in_sorted, in_set_add. right. now apply set_in_iff. }
  eexists. exists rest, p. split; [|split; [|split; [|split]]].
  - rewrite (select_step_run np train_states traindata st corr) by assumption.
    rewrite Hch. reflexivity.
  - exact Es.
  - exact Hp.
  - rewrite take_rows_items; [now rewrite Es | exact Htd |].
    rewrite Forall_forall. intros k Hk.
    apply (proj1 (in_sorted _ _)) in Hk.
    rewrite Hlen. now apply Hall.
  - intros Hn. apply set_in_iff in Hn. apply in_map_iff.
    exists (Z.of_nat (length train_states) - 1). split.
    + unfold item.
      destruct (Z.ltb_spec (Z.of_nat (length train_states) - 1) 0) as [Hneg|_];
        [reflexivity|].
      rewrite <- Hlen.
      replace (Z.to_nat (Z.of_nat (length traindata) - 1))
        with (length traindata - 1)%nat by lia.
      apply nth_pred_length_last.
    + apply Hrest.
      * apply in_set_add. now right.
      * assert (0 < length train_states)%nat
          by (destruct train_states; [congruence | simpl; lia]).
        lia.
Qed.

Lemma sentinel_joins_included_rows_witness :
  exists log rest param_index,
    select_step Ref.numerics ["p"] Data.single (Data.start Data.single)
    = (log, Ret (Data.corr1 Data.single, -1,
                 set_add (-1) (incl (Data.start Data.single)))) /\
    sorted (set_add (-1) (incl (Data.start Data.single))) = -1 :: rest /\
    index_of Z.eqb (sorted (set_add (-1) (incl (Data.start Data.single)))) 0
    = ret param_index /\
    Np.take_rows Data.single
      (sorted (set_add (-1) (incl (Data.start Data.single))))
    = ret (last Data.single [] :: map (item Data.single []) rest) /\
    (set_in (Z.of_nat (length ["p"]) - 1) (incl (Data.start Data.single)) = true ->
     In (last Data.single []) (map (item Data.single []) rest)).
Proof.
  apply (sentinel_joins_included_rows Ref.numerics ["p"] Data.single 0
           (Data.start Data.single) (Data.corr1 Data.single)).
  - reflexivity.
  - repeat constructor.
  - reflexivity.
  - vm_compute. discriminate.
  - vm_compute. lia.
  - discriminate.
  - repeat constructor; lia.
  - reflexivity.
  - intros j Hj. left. vm_compute in Hj. destruct Hj as [<-|[]]. reflexivity.
Defined.

(** C10, as stated, fails on a ramp [p] and a constant channel [c]: no
    remaining row has a positive, non-NaN correlation, -1 joins the
    included set, and the fit is run on the rows [c], [p]: the last
    training row comes once, nothing is doubled. *)
Lemma sentinel_without_duplicate_row :
  Np.fgt (cabs (last (Data.corr1 Data.ramp_const) []) 1) PrimFloat.zero = false
  /\ snd (select_step Ref.numerics ["p"; "c"] Data.ramp_const
            (Data.start Data.ramp_const))
     = Ret (Data.corr1 Data.ramp_const, -1, [0; -1])
  /\ Np.take_rows Data.ramp_const (sorted [0; -1])
     = ret [[5; 5; 5]; [1; 2; 3]]%float
  /\ forallb (PrimFloat.eqb 5) [1; 2; 3]%float = false.
Proof. vm_compute. repeat split. Qed.

(** ** Effects: what a computation may emit and how it may end *)

Lemma fst_bind {A B} (m : M A) (f : A -> M B) :
  fst (bind m f)
  = fst m ++ match snd m with Ret a => fst (f a) | _ => [] end.
Proof.
  destruct m as [l [a|e|]]; simpl; rewrite ?app_nil_r; auto.
  now destruct (f a).
Qed.

Lemma snd_bind {A B} (m : M A) (f : A -> M B) :
  snd (bind m f)
  = match snd m with
    | Ret a => snd (f a)
    | Raise e => Raise e
    | Running => Running
    end.
Proof. destruct m as [l [a|e|]]; simpl; auto. now destruct (f a). Qed.

Lemma emits_only_bind {A B} P (m : M A) (f : A -> M B) :
  emits_only P m -> (forall a, emits_only P (f a)) ->
  emits_only P (bind m f).
Proof.
  unfold emits_only. intros Hm Hf. rewrite fst_bind, forallb_app, Hm.
  destruct (snd m); simpl; auto.
Qed.

Lemma emits_only_weaken {A} (P Q : event -> bool) (m : M A) :
  (forall e, P e = true -> Q e = true) -> emits_only P m -> emits_only Q m.
Proof.
  unfold emits_only. rewrite !forallb_forall. auto.
Qed.

Lemma halts_bind {A B} (m : M A) (f : A -> M B) :
  halts m -> (forall a, halts (f a)) -> halts (bind m f).
Proof.
  unfold halts. intros Hm Hf. rewrite snd_bind.
  destruct (snd m); [apply Hf | discriminate | congruence].
Qed.

Lemma pure_bind {A B} (m : M A) (f : A -> M B) :
  pure m -> (forall a, pure (f a)) -> pure (bind m f).
Proof.
  intros [Hl Hh] Hf. split.
  - rewrite fst_bind, Hl. destruct (snd m); auto. apply Hf.
  - apply halts_bind; [exact Hh | intros a; apply Hf].
Qed.

Lemma pure_emits {A} P (m : M A) : pure m -> emits_only P m.
Proof. intros [Hl _]. unfold emits_only. now rewrite Hl. Qed.

Lemma pure_halts {A} (m : M A) : pure m -> halts m.
Proof. now intros [_ H]. Qed.

Lemma pure_ret {A} (a : A) : pure (ret a).
Proof. split; [reflexivity | discriminate]. Qed.

Lemma pure_raise {A} (e : exn) : pure (@raise A e).
Proof. split; [reflexivity | discriminate]. Qed.

Lemma pure_lift {A} (r : exn + A) : pure (lift r).
Proof. destruct r; [apply pure_raise | apply pure_ret]. Qed.

Lemma pure_mapM {A B} (f : A -> M B) (l : list A) :
  (forall a, pure (f a)) -> pure (mapM f l).
Proof.
  intros Hf. induction l as [|a l IH]; simpl.
  - apply pure_ret.
  - apply pure_bind; [apply Hf|]. intros b.
    apply pure_bind; [exact IH|]. intros bs. apply pure_ret.
Qed.

Lemma pure_py_nth {A} (l : list A) (i : Z) : pure (py_nth l i).
Proof.
  unfold py_nth. destruct (_ && _); [|apply pure_raise].
  destruct (nth_error l _); [apply pure_ret | apply pure_raise].
Qed.

Lemma pure_index_from {A} (eqb : A -> A -> bool) (l : list A) (x : A) (k : Z) :
  pure (index_from eqb l x k).
Proof.
  revert k. induction l as [|a l IH]; intros k; simpl.
  - apply pure_raise.
  - destruct (eqb a x); [apply pure_ret | apply IH].
Qed.

Lemma pure_index_of {A} (eqb : A -> A -> bool) (l : list A) (x : A) :
  pure (index_of eqb l x).
Proof. apply pure_index_from. Qed.

Lemma pure_vecmat (y : vec) (b : matrix) : pure (Np.vecmat y b).
Proof.
  unfold Np.vecmat. destruct (Nat.eqb _ _); [apply pure_ret | apply pure_raise].
Qed.

Lemma pure_bcast_row f (r s : vec) : pure (Np.bcast_row f r s).
Proof.
  unfold Np.bcast_row. destruct (Nat.eqb _ _); [apply pure_ret|].
  destruct r as [|x [|x' r]], s as [|y [|y' s]];
    first [apply pure_ret | apply pure_raise].
Qed.

Lemma pure_matmul (a b : matrix) : pure (Np.matmul a b).
Proof. apply pure_mapM. intros r. apply pure_vecmat. Qed.

Lemma pure_bcast_mul (m : matrix) (s : vec) : pure (Np.bcast_mul m s).
Proof. apply pure_mapM. intros r. apply pure_bcast_row. Qed.

Lemma pure_bcast_sub (a b : vec) : pure (Np.bcast_sub a b).
Proof. apply pure_bcast_row. Qed.

Lemma pure_vstack (m : matrix) (row : vec) : pure (Np.vstack m row).
Proof.
  unfold Np.vstack. destruct (forallb _ _); [apply pure_ret | apply pure_raise].
Qed.

Lemma pure_take_rows (m : matrix) (rows : list Z) : pure (Np.take_rows m rows).
Proof. apply pure_mapM. intros k. apply pure_py_nth. Qed.

Lemma pure_at2 (m : matrix) (r c : Z) : pure (Np.at2 m r c).
Proof.
  apply pure_bind; [apply pure_py_nth|]. intros row. apply pure_py_nth.
Qed.

Lemma pure_py_matvec (A : pyval) (m : matrix) : pure (py_matvec A m).
Proof.
  destruct A; simpl; first [apply pure_vecmat | apply pure_raise].
Qed.

Lemma pure_scan (corr : matrix) (incl : pyset) (js : list Z)
  (mi : Z) (ma : float) : pure (scan corr incl js mi ma).
Proof.
  revert mi ma. induction js as [|j js IH]; intros mi ma; simpl.
  - apply pure_ret.
  - destruct (set_in j incl); [apply IH|].
    apply pure_bind; [apply pure_at2|]. intros c.
    destruct (Np.fgt _ _); apply IH.
Qed.

Lemma pure_max_corr_with (corr : matrix) (j : Z) (ks : list Z) (mc : float) :
  pure (max_corr_with corr j ks mc).
Proof.
  revert mc. induction ks as [|k ks IH]; intros mc; simpl.
  - apply pure_ret.
  - apply pure_bind; [apply pure_at2|]. intros x.
    destruct (Np.fgt _ _); apply IH.
Qed.

Lemma pure_score (corr : matrix) (i : Z) (ranked : list Z) (j : Z) :
  pure (score corr i ranked j).
Proof.
  apply pure_bind; [apply pure_max_corr_with|]. intros mc.
  apply pure_bind; [apply pure_at2|]. intros c. apply pure_ret.
Qed.

Lemma pure_rescore (corr : matrix) (i : Z) (ranked : list Z)
  (rem : list (Z * float)) : pure (rescore corr i ranked rem).
Proof.
  apply pure_mapM. intros jg.
  apply pure_bind; [apply pure_score | intros g; apply pure_ret].
Qed.

Create HintDb effects.
#[export] Hint Resolve pure_ret pure_raise pure_lift pure_py_nth pure_index_of
  pure_vecmat pure_matmul pure_bcast_mul pure_bcast_sub pure_vstack
  pure_take_rows pure_at2 pure_py_matvec pure_scan pure_score : effects.

Lemma emits_only_print P (args : list pyval) :
  P (Print args) = true -> emits_only P (print args).
Proof. intros H. unfold emits_only. simpl. now rewrite H. Qed.

Lemma halts_print (args : list pyval) : halts (print args).
Proof. discriminate. Qed.

(** Walks a computation along its binds, leaving what the hints do not
    settle. *)
Ltac walk :=
  repeat first
    [ apply emits_only_bind; [|intros ?]
    | apply halts_bind; [|intros ?]
    | apply pure_emits; solve [auto with effects]
    | apply pure_halts; solve [auto with effects]
    | apply emits_only_print; reflexivity
    | apply halts_print
    | match goal with
      | |- context [match ?x with (_, _) => _ end] => destruct x
      end ].

Lemma solve_prints_only (np : Numerics) (i : Z) (traindata : matrix) :
  emits_only is_print (solve np i traindata).
Proof. unfold solve. walk. Qed.

Lemma solve_halts (np : Numerics) (i : Z) (traindata : matrix) :
  halts (solve np i traindata).
Proof. unfold solve. walk. Qed.

Lemma select_step_prints_only (np : Numerics) (train_states : list string)
  (traindata : matrix) (st : sel_state) :
  emits_only is_print (select_step np train_states traindata st).
Proof. unfold select_step. walk. Qed.

Lemma select_step_halts (np : Numerics) (train_states : list string)
  (traindata : matrix) (st : sel_state) :
  halts (select_step np train_states traindata st).
Proof. unfold select_step. walk. Qed.

Lemma count_plots_app (l l' : list event) :
  count_plots (l ++ l') = (count_plots l + count_plots l')%nat.
Proof. unfold count_plots. now rewrite filter_app, length_app. Qed.

Lemma count_plots_none {A} (m : M A) :
  emits_only not_plot m -> count_plots (fst m) = 0%nat.
Proof.
  unfold emits_only, count_plots. intros H.
  induction (fst m) as [|e l IH]; [reflexivity|].
  simpl in *. apply andb_prop in H as [He Hl].
  unfold not_plot in He. apply negb_true_iff in He. rewrite He. now apply IH.
Qed.

Lemma one_plot_after {A B} (m : M A) (f : A -> M B) :
  emits_only not_plot m -> halts m -> (forall a, one_plot (f a)) ->
  one_plot (bind m f).
Proof.
  intros Hm Hh Hf. unfold one_plot.
  rewrite fst_bind, snd_bind, count_plots_app, (count_plots_none m Hm).
  unfold halts in Hh. destruct (snd m) as [a|e|]; simpl.
  - apply Hf.
  - change (count_plots []) with 0%nat. lia.
  - now apply Hh.
Qed.

Lemma one_plot_before {A B} (m : M A) (f : A -> M B) :
  one_plot m -> (forall a, emits_only not_plot (f a) /\ halts (f a)) ->
  one_plot (bind m f).
Proof.
  intros Hm Hf. unfold one_plot in *.
  rewrite fst_bind, snd_bind, count_plots_app.
  destruct (snd m) as [a|e|]; simpl;
    [|change (count_plots []) with 0%nat; lia|exact Hm].
  destruct (Hf a) as [Hn Hh]. rewrite (count_plots_none _ Hn), Hm.
  unfold halts in Hh. destruct (snd (f a)); simpl; [lia | lia | now apply Hh].
Qed.

Lemma one_plot_plot (original estimated : vec) : one_plot (plot original estimated).
Proof. reflexivity. Qed.

Lemma prints_are_not_plots {A} (m : M A) :
  emits_only is_print m -> emits_only not_plot m.
Proof. apply emits_only_weaken. now intros []. Qed.

Lemma fit_step_one_plot (np : Numerics) (traindata : matrix) (i : Z)
  (corr : matrix) (incl' : pyset) :
  one_plot (fit_step np traindata i corr incl').
Proof.
  unfold fit_step.
  apply one_plot_after; [walk | walk | intros param_index].
  apply one_plot_after; [walk | walk | intros sub].
  apply one_plot_after; [walk | walk | intros _].
  apply one_plot_after;
    [apply prints_are_not_plots, solve_prints_only | apply solve_halts
    | intros A].
  apply one_plot_after; [walk | walk | intros est].
  apply one_plot_after; [walk | walk | intros target].
  apply one_plot_before; [apply one_plot_plot | intros _].
  split; walk.
Qed.

Lemma loop_body_one_plot (np : Numerics) (train_states : list string)
  (traindata : matrix) (i : Z) (st : sel_state) :
  one_plot (loop_body np train_states traindata i st).
Proof.
  unfold loop_body.
  apply one_plot_after;
    [apply prints_are_not_plots, select_step_prints_only
    | apply select_step_halts | intros [[corr m] incl']].
  apply fit_step_one_plot.
Qed.

(** A [while True] loop does not return. *)
Lemma while_true_never_returns {S} (fuel : nat) (body : S -> M S) (s : S) :
  never_returns (while fuel (fun _ => true) body s).
Proof.
  revert s. induction fuel as [|fuel IH]; intros s a; simpl.
  - discriminate.
  - rewrite snd_bind. destruct (snd (body s)) as [s'| |];
      [apply IH | discriminate | discriminate].
Qed.

(** C4. The selector's [while True] loop has no exit: on every input and
    from every state (whatever rows are already included, whatever the
    residual error), and for every number of iterations allowed, it does
    not return; unless an exception ends it, it has completed all the
    iterations allowed, one plot shown per iteration. *)
Theorem primary_loop_never_stops (np : Numerics) (train_states : list string)
  (traindata : matrix) (i : Z) (fuel : nat) (st : sel_state) :
  match while fuel (fun _ => true) (loop_body np train_states traindata i) st
  with
  | (_, Ret _) => False
  | (log, Running) => count_plots log = fuel
  | (log, Raise _) => (count_plots log <= fuel)%nat
  end.
Proof.
  revert st. induction fuel as [|fuel IH]; intros st.
  - reflexivity.
  - specialize (loop_body_one_plot np train_states traindata i st) as Hb.
    cbn [while]. unfold one_plot in Hb.
    destruct (loop_body np train_states traindata i st) as [l [st'| e |]];
      simpl in Hb |- *; [| lia | contradiction].
    specialize (IH st').
    destruct (while fuel (fun _ => true)
                (loop_body np train_states traindata i) st') as [l' [s''|e|]];
      rewrite ?count_plots_app; [contradiction | lia | lia].
Qed.

(** ** What [solve] returns and reports *)

Lemma post_bind {A B} (m : M A) (f : A -> M B) (Q : list event -> B -> Prop) :
  (forall l l' b, Q l' b -> Q (l ++ l') b) ->
  (forall a, post (f a) Q) -> post (bind m f) Q.
Proof.
  intros Hmono Hf b Hb. rewrite snd_bind in Hb. rewrite fst_bind.
  destruct (snd m) as [a|e|]; try discriminate.
  apply Hmono. now apply Hf.
Qed.

Lemma solve_post (np : Numerics) (i : Z) (traindata : matrix) :
  post (solve np i traindata) (operator_with_rank_printed np).
Proof.
  assert (Hmono : forall l l' b, operator_with_rank_printed np l' b ->
                                 operator_with_rank_printed np (l ++ l') b).
  { intros l l' b (A & -> & Hin). exists A. split; [reflexivity|].
    apply in_or_app. now right. }
  unfold solve.
  repeat lazymatch goal with
    | |- post (bind (print (PyStr "A rank:" :: _)) _) _ => fail
    | |- post (bind _ _) _ => apply post_bind; [exact Hmono | intros ?]
    | |- context [match ?x with (_, _) => _ end] => destruct x
    end.
  intros v Hv. simpl in Hv. injection Hv as <-.
  eexists. split; [reflexivity|]. now left.
Qed.

(** C7 (amended). [solve] returns the operator A alone, a 1-D array;
    the numerical rank of A is printed, not returned; printing its
    diagnostics is the only side effect of [solve]. *)
Theorem solve_returns_operator_and_prints_rank (np : Numerics) (i : Z)
  (traindata : matrix) :
  emits_only is_print (solve np i traindata) /\
  forall v, snd (solve np i traindata) = Ret v ->
    exists A, v = PyArr1 A /\
      In (Print [PyStr "A rank:"; PyInt (matrix_rank np A)])
         (fst (solve np i traindata)).
Proof.
  split; [apply solve_prints_only | apply solve_post].
Qed.

(** C7, as stated, fails: on a one-channel matrix [solve] returns the
    array [A] and no pair, after ten [print] calls, the rank among them. *)
Lemma solve_returns_no_pair :
  snd (solve Ref.numerics 0 [[3; 4; 10]]%float)
  = Ret (PyArr1 [2.0800000000000001]%float)
  /\ is_pair (PyArr1 [2.0800000000000001]%float) = false
  /\ In (Print [PyStr "A rank:"; PyInt 1])
        (fst (solve Ref.numerics 0 [[3; 4; 10]]%float))
  /\ length (fst (solve Ref.numerics 0 [[3; 4; 10]]%float)) = 10%nat.
Proof.
  vm_compute. split; [reflexivity|]. split; [reflexivity|].
  split; [|reflexivity]. do 8 right. now left.
Qed.

(** C5 (amended). When a singular value of X is exactly zero, [solve]
    does not fail: the reciprocal is evaluated as the float division
    1 / 0 = +infinity, it is printed with the other reciprocals, and
    [solve] returns the operator computed from it; no degenerate-fit
    error is raised. *)
Theorem solve_zero_singular_value_returns (np : Numerics) (traindata : matrix)
  (i : Z) (rows N : nat) (u : matrix) (s : vec) (vh : matrix) :
  length traindata = rows -> Np.rect N traindata ->
  (1 <= rows)%nat -> (2 <= N)%nat -> 0 <= i < Z.of_nat rows ->
  svd np (Spec.X_block N traindata) = inr (u, s, vh) ->
  length u = rows -> Np.rect (Nat.min rows (N - 1)) u ->
  length s = Nat.min rows (N - 1) ->
  length vh = Nat.min rows (N - 1) -> Np.rect (N - 1) vh ->
  In PrimFloat.zero s ->
  In PrimFloat.infinity (Np.recip s) /\
  In (Print [PyStr "s inv:"; PyArr1 (Np.recip s)])
     (fst (solve np i traindata)) /\
  snd (solve np i traindata)
  = Ret (PyArr1 (Spec.operator rows
                   (Spec.Y_block N traindata (Z.to_nat i)) u s vh)).
Proof.
  intros Hlen Hrect Hrows HN Hi Hsvd Hu Hur Hs Hvh Hvhr Hzero.
  rewrite (solve_run np traindata i rows N u s vh) by assumption.
  split; [|split; [|reflexivity]].
  - unfold Np.recip.
    change PrimFloat.infinity with (Np.fdiv PrimFloat.one PrimFloat.zero).
    now apply in_map.
  - cbn [fst]. do 7 right. now left.
Qed.

Lemma solve_zero_singular_value_returns_witness :
  In PrimFloat.infinity (Np.recip [0]%float) /\
  In (Print [PyStr "s inv:"; PyArr1 (Np.recip [0]%float)])
     (fst (solve Ref.numerics 0 [[0; 1]]%float)) /\
  snd (solve Ref.numerics 0 [[0; 1]]%float)
  = Ret (PyArr1 (Spec.operator 1
                   (Spec.Y_block 2 [[0; 1]]%float (Z.to_nat 0))
                   [[1]]%float [0]%float [[1]]%float)).
Proof.
  apply (solve_zero_singular_value_returns Ref.numerics [[0; 1]]%float 0 1 2).
  - reflexivity.
  - repeat constructor.
  - lia.
  - lia.
  - lia.
  - reflexivity.
  - reflexivity.
  - repeat constructor.
  - reflexivity.
  - reflexivity.
  - repeat constructor.
  - now left.
Defined.

(** C5, as stated, fails: the matrix X = [[0]] has the singular value 0,
    and [solve] returns the operator [[inf]] instead of raising. *)
Lemma solve_zero_singular_value_no_error :
  svd Ref.numerics [[0]]%float = inr ([[1]], [0], [[1]])%float
  /\ snd (solve Ref.numerics 0 [[0; 1]]%float)
     = Ret (PyArr1 [PrimFloat.infinity]).
Proof. vm_compute. split; reflexivity. Qed.

(** ** The whole selector: what it emits *)

Lemma emits_only_plot P (a b : vec) :
  P (Plot (PyArr1 a) (PyArr1 b)) = true -> emits_only P (plot a b).
Proof. intros H. unfold emits_only. simpl. now rewrite H. Qed.

Lemma emits_only_print_no_nl P (args : list pyval) :
  P (PrintNoNl args) = true -> emits_only P (print_no_nl args).
Proof. intros H. unfold emits_only. simpl. now rewrite H. Qed.

Lemma emits_only_mapM {A B} P (f : A -> M B) (l : list A) :
  (forall a, emits_only P (f a)) -> emits_only P (mapM f l).
Proof.
  intros Hf. induction l as [|a l IH]; simpl; [reflexivity|].
  apply emits_only_bind; [apply Hf|]. intros b.
  apply emits_only_bind; [exact IH|]. intros bs. reflexivity.
Qed.

Lemma emits_only_for_each {A} P (l : list A) (body : A -> M unit) :
  (forall a, emits_only P (body a)) -> emits_only P (for_each l body).
Proof.
  intros Hb. induction l as [|a l IH]; simpl; [reflexivity|].
  apply emits_only_bind; [apply Hb | intros _; exact IH].
Qed.

Lemma emits_only_while {S} P (fuel : nat) (cond : S -> bool)
  (body : S -> M S) (s : S) :
  (forall s, emits_only P (body s)) -> emits_only P (while fuel cond body s).
Proof.
  intros Hb. revert s. induction fuel as [|fuel IH]; intros s; simpl.
  - reflexivity.
  - destruct (cond s); [|reflexivity].
    apply emits_only_bind; [apply Hb | intros s'; apply IH].
Qed.

Lemma loop_body_events (np : Numerics) (train_states : list string)
  (traindata : matrix) (i : Z) (st : sel_state) :
  emits_only loop_event (loop_body np train_states traindata i st).
Proof.
  unfold loop_body.
  apply emits_only_bind.
  - apply (emits_only_weaken is_print); [now intros [] |].
    apply select_step_prints_only.
  - intros [[corr m] incl']. unfold fit_step.
    apply emits_only_bind; [walk | intros param_index].
    apply emits_only_bind; [walk | intros sub].
    apply emits_only_bind; [walk | intros _].
    apply emits_only_bind.
    { apply (emits_only_weaken is_print); [now intros [] |].
      apply solve_prints_only. }
    intros A. walk. now apply emits_only_plot.
Qed.

Lemma rank_body_events (train_states : list string) (corr : matrix) (i : Z)
  (row : vec) (st : rank_state) :
  emits_only not_write (rank_body train_states corr i row st).
Proof.
  unfold rank_body. apply emits_only_bind.
  - apply pure_emits, pure_rescore.
  - intros rem'. destruct (sorted_by_score rem') as [|[j g] l].
    + now apply pure_emits, pure_raise.
    + walk. now apply emits_only_print_no_nl.
Qed.

Lemma second_pass_events (fuel : nat) (train_states : list string)
  (corr : matrix) (i : Z) :
  emits_only not_write (second_pass fuel train_states corr i).
Proof.
  unfold second_pass. walk.
  - now apply emits_only_print_no_nl.
  - apply emits_only_while. intros s. apply rank_body_events.
Qed.

(** [correlation_report_3] writes no file. *)
Lemma correlation_report_3_writes_nothing (np : Numerics) (fuel : nat)
  (train_states : list string) (traindata : matrix)
  (fit_states : list string) :
  emits_only not_write
    (correlation_report_3 np fuel train_states traindata fit_states).
Proof.
  unfold correlation_report_3.
  do 4 (apply emits_only_bind; [walk | intros ?]).
  apply emits_only_for_each. intros s.
  do 3 (apply emits_only_bind; [walk | intros ?]).
  apply emits_only_bind; [|intros st; apply second_pass_events].
  apply emits_only_while. intros st.
  apply (emits_only_weaken loop_event); [now intros [] |].
  apply loop_body_events.
Qed.

(** ** The top level: the loop over the flight conditions *)

Section TopLevel.

Variable np : Numerics.
Variable fuel : nat.
Variable vehicle0 : string.
Variables train_states0 output_states0 : list string.

Lemma eval_condition_out (i : Z) (cond : flight_condition) (g : globals) :
  forallb not_write
    (out (eval_condition np fuel vehicle0 train_states0 output_states0
            i cond g)) = true.
Proof.
  unfold eval_condition.
  destruct (py_nth (cond_list _) i) as [l [e|x|]]; try reflexivity.
  specialize (correlation_report_3_writes_nothing np fuel train_states0
                (Np.transpose (traindata_list e)) output_states0) as H.
  unfold emits_only in H.
  destruct (correlation_report_3 _ _ _ _ _) as [log r]. exact H.
Qed.

Lemma eval_condition_glob (i : Z) (cond : flight_condition) (g : globals) :
  root_dict (glob (eval_condition np fuel vehicle0 train_states0
                     output_states0 i cond g)) = root_dict g
  /\ condition_dict (glob (eval_condition np fuel vehicle0 train_states0
                             output_states0 i cond g))
     = [("condition", cond_val cond)].
Proof.
  unfold eval_condition.
  destruct (py_nth (cond_list _) i) as [l [e|x|]]; try (split; reflexivity).
  destruct (correlation_report_3 _ _ _ _ _) as [log r]. split; reflexivity.
Qed.

Lemma eval_conditions_out (conds : list (Z * flight_condition)) (g : globals) :
  forallb not_write
    (out (eval_conditions np fuel vehicle0 train_states0 output_states0
            conds g)) = true.
Proof.
  revert g. induction conds as [|[i cond] rest IH]; intros g; simpl.
  - reflexivity.
  - specialize (eval_condition_out i cond g) as H.
    destruct (eval_condition _ _ _ _ _ i cond g) as [[log g'] [u|x|]];
      try exact H.
    specialize (IH g').
    destruct (eval_conditions _ _ _ _ _ rest g') as [[log' g''] r].
    unfold out in *. simpl in *. now rewrite forallb_app, H, IH.
Qed.

Lemma eval_conditions_glob (conds : list (Z * flight_condition)) (g : globals) :
  root_dict (glob (eval_conditions np fuel vehicle0 train_states0
                     output_states0 conds g)) = root_dict g
  /\ (condition_dict (glob (eval_conditions np fuel vehicle0 train_states0
                              output_states0 conds g)) = condition_dict g
      \/ exists ic, In ic conds /\
           condition_dict (glob (eval_conditions np fuel vehicle0
                                   train_states0 output_states0 conds g))
           = [("condition", cond_val (snd ic))]).
Proof.
  revert g. induction conds as [|[i cond] rest IH]; intros g; simpl.
  - split; [reflexivity | now left].
  - destruct (eval_condition_glob i cond g) as [Hr Hc].
    destruct (eval_condition _ _ _ _ _ i cond g) as [[log g'] [u|x|]];
      unfold glob in *; simpl in *;
      try (split; [exact Hr | right; exists (i, cond); split; [now left | exact Hc]]).
    destruct (IH g') as [Hr' Hc'].
    destruct (eval_conditions _ _ _ _ _ rest g') as [[log' g''] r].
    simpl in *. split; [congruence|]. right.
    destruct Hc' as [Hsame|(ic & Hin & Hic)].
    + exists (i, cond). split; [now left | simpl; congruence].
    + exists ic. split; [now right | exact Hic].
Qed.

(** The loop over conditions stops at the first one that does not
    return: what the earlier ones printed is kept, the later ones are not
    run. *)
Lemma eval_conditions_stops (conds1 conds2 : list (Z * flight_condition))
  (i : Z) (cond : flight_condition) (g : globals) :
  let r1 := eval_conditions np fuel vehicle0 train_states0 output_states0
              conds1 g in
  let r2 := eval_condition np fuel vehicle0 train_states0 output_states0
              i cond (glob r1) in
  res r1 = Ret tt -> (forall u, res r2 <> Ret u) ->
  eval_conditions np fuel vehicle0 train_states0 output_states0
    (conds1 ++ (i, cond) :: conds2) g
  = (out r1 ++ out r2, glob r2, res r2).
Proof.
  revert g. induction conds1 as [|[i1 c1] conds1 IH]; intros g r1 r2 H1 H2.
  - subst r1 r2. simpl in *. unfold glob, out, res in *. simpl in *.
    destruct (eval_condition _ _ _ _ _ i cond g) as [[log g'] [u|x|]];
      simpl in *; try reflexivity.
    now destruct (H2 u).
  - subst r1 r2. simpl in *.
    destruct (eval_condition _ _ _ _ _ i1 c1 g) as [[log g'] [u|x|]];
      simpl in *; try discriminate.
    specialize (IH g').
    destruct (eval_conditions _ _ _ _ _ conds1 g') as [[log1 g1] r1] eqn:E1.
    unfold glob, out, res in *. simpl in *.
    rewrite (IH H1 H2). now rewrite app_assoc.
Qed.

End TopLevel.

(** C3 (amended). The script creates [root_dict] with the keys [dt],
    [rows], [cols] and [conditions], the last an empty list; for each
    condition it reaches it builds a record that holds the condition
    predicate alone and puts it nowhere: whatever the run, and however it
    ends, the [conditions] list of [root_dict] is still empty and no file
    has been written. *)
Theorem root_dict_is_never_filled_nor_written (np : Numerics) (fuel : nat)
  (cfg : config) (cl : list cond_entry) :
  forallb not_write (out (main np fuel cfg cl)) = true /\
  (root_dict (glob (main np fuel cfg cl)) = [] \/
   root_dict (glob (main np fuel cfg cl))
   = [("dt", PyFloat (dt cfg));
      ("rows", PyInt (Z.of_nat (length (output_states cfg))));
      ("cols", PyInt (Z.of_nat (length (state_list cfg))));
      ("conditions", PyList [])]) /\
  holds_condition_only (conditions cfg) (glob (main np fuel cfg cl)).
Proof.
  unfold main.
  assert (Hrep : emits_only not_write (conditions_report (conditions cfg) cl)).
  { unfold conditions_report.
    apply emits_only_bind; [walk | intros _].
    apply emits_only_for_each. intros ic. walk. }
  unfold emits_only in Hrep.
  destruct (conditions_report (conditions cfg) cl) as [log [u|x|]];
    simpl in Hrep;
    try (split; [exact Hrep | split; [now left | now left]]).
  set (g1 := {| root_dict := _; condition_dict := []; cond_list := cl |}).
  specialize (eval_conditions_out np fuel (vehicle cfg) (train_states cfg)
                (output_states cfg) (enumerate (conditions cfg)) g1) as Ho.
  destruct (eval_conditions_glob np fuel (vehicle cfg) (train_states cfg)
              (output_states cfg) (enumerate (conditions cfg)) g1) as [Hr Hc].
  destruct (eval_conditions _ _ _ _ _ _ g1) as [[log' g'] r].
  unfold out, glob in *. simpl in *.
  split; [now rewrite forallb_app, Hrep, Ho|].
  split; [right; exact Hr|].
  destruct Hc as [Hsame|(ic & Hin & Hic)]; [now left | right].
  exists (snd ic). split; [|exact Hic].
  destruct ic as [i c]. unfold enumerate in Hin.
  now apply in_combine_r in Hin.
Qed.

(** C3, as stated, fails. With the script's two conditions and [p] to
    predict, a run allowed two fits is still inside the first condition,
    with nothing in [conditions] and no file written; and with nothing
    to predict the run completes, both conditions evaluated, [conditions]
    still empty and no file written. *)
Lemma conditions_stay_empty_and_nothing_is_written :
  (res (main Ref.numerics 2 Run.cfg [Run.entry; Run.entry]) = Running
   /\ count_plots (out (main Ref.numerics 2 Run.cfg [Run.entry; Run.entry]))
      = 2%nat
   /\ existsb is_write
        (out (main Ref.numerics 2 Run.cfg [Run.entry; Run.entry])) = false
   /\ root_dict (glob (main Ref.numerics 2 Run.cfg [Run.entry; Run.entry]))
      = [("dt", PyFloat 0.02); ("rows", PyInt 1); ("cols", PyInt 2);
         ("conditions", PyList [])])
  /\
  (res (main Ref.numerics 2 Run.cfg_no_output [Run.entry; Run.entry]) = Ret tt
   /\ Run.reports_started
        (out (main Ref.numerics 2 Run.cfg_no_output [Run.entry; Run.entry]))
      = 2%nat
   /\ existsb is_write
        (out (main Ref.numerics 2 Run.cfg_no_output [Run.entry; Run.entry]))
      = false
   /\ root_dict
        (glob (main Ref.numerics 2 Run.cfg_no_output [Run.entry; Run.entry]))
      = [("dt", PyFloat 0.02); ("rows", PyInt 0); ("cols", PyInt 2);
         ("conditions", PyList [])]).
Proof. vm_compute. repeat split. Qed.

(** C9 (amended). An exception raised while one flight condition is
    processed (a failing SVD or correlation among them) is not caught: it
    ends the loop over the conditions and the run with it, no later
    condition is processed; what was printed up to the failure stays in
    the output. *)
Theorem failure_in_a_condition_ends_the_run (np : Numerics) (fuel : nat)
  (vehicle0 : string) (train_states0 output_states0 : list string)
  (conds1 conds2 : list (Z * flight_condition)) (i : Z)
  (cond : flight_condition) (g : globals) (e : exn) :
  res (eval_conditions np fuel vehicle0 train_states0 output_states0 conds1 g)
  = Ret tt ->
  res (eval_condition np fuel vehicle0 train_states0 output_states0 i cond
         (glob (eval_conditions np fuel vehicle0 train_states0 output_states0
                  conds1 g)))
  = Raise e ->
  eval_conditions np fuel vehicle0 train_states0 output_states0
    (conds1 ++ (i, cond) :: conds2) g
  = (out (eval_conditions np fuel vehicle0 train_states0 output_states0
            conds1 g)
     ++ out (eval_condition np fuel vehicle0 train_states0 output_states0
               i cond
               (glob (eval_conditions np fuel vehicle0 train_states0
                        output_states0 conds1 g))),
     glob (eval_condition np fuel vehicle0 train_states0 output_states0
             i cond
             (glob (eval_conditions np fuel vehicle0 train_states0
                      output_states0 conds1 g))),
     Raise e).
Proof.
  intros H1 H2.
  rewrite (eval_conditions_stops np fuel vehicle0 train_states0
             output_states0 conds1 conds2 i cond g H1).
  - now rewrite H2.
  - intros u. rewrite H2. discriminate.
Qed.

Lemma failure_in_a_condition_ends_the_run_witness :
  eval_conditions Run.svd_fails 5 "wing" ["p"; "q"] ["p"]
    ([] ++ (0, Run.flaps 0) :: [(1, Run.flaps 0.5)])
    (Run.start_globals Run.cfg [Run.entry; Run.entry])
  = (out (eval_conditions Run.svd_fails 5 "wing" ["p"; "q"] ["p"] []
            (Run.start_globals Run.cfg [Run.entry; Run.entry]))
     ++ out (eval_condition Run.svd_fails 5 "wing" ["p"; "q"] ["p"]
               0 (Run.flaps 0)
               (glob (eval_conditions Run.svd_fails 5 "wing" ["p"; "q"] ["p"]
                        [] (Run.start_globals Run.cfg [Run.entry; Run.entry])))),
     glob (eval_condition Run.svd_fails 5 "wing" ["p"; "q"] ["p"]
             0 (Run.flaps 0)
             (glob (eval_conditions Run.svd_fails 5 "wing" ["p"; "q"] ["p"]
                      [] (Run.start_globals Run.cfg [Run.entry; Run.entry])))),
     Raise LinAlgError).
Proof.
  apply (failure_in_a_condition_ends_the_run Run.svd_fails 5 "wing"
           ["p"; "q"] ["p"] [] [(1, Run.flaps 0.5)] 0 (Run.flaps 0)
           (Run.start_globals Run.cfg [Run.entry; Run.entry]) LinAlgError).
  - reflexivity.
  - reflexivity.
Defined.

(** C9, as stated, fails: with an SVD that does not converge the run on
    two conditions ends with that exception inside the first condition;
    the second condition is never started (one report begun, not two). *)
Lemma svd_failure_skips_later_conditions :
  length (conditions Run.cfg) = 2%nat
  /\ res (main Run.svd_fails 5 Run.cfg [Run.entry; Run.entry])
     = Raise LinAlgError
  /\ Run.reports_started
       (out (main Run.svd_fails 5 Run.cfg [Run.entry; Run.entry])) = 1%nat
  /\ existsb (fun ev => match ev with
                        | Print [PyStr s] => String.eqb s "dask svd..."
                        | _ => false
                        end)
       (out (main Run.svd_fails 5 Run.cfg [Run.entry; Run.entry])) = true.
Proof. vm_compute. repeat split. Qed.

(** ** The ranking pass (lines 217-241) *)

Lemma never_returns_bind_l {A B} (m : M A) (f : A -> M B) :
  never_returns m -> never_returns (bind m f).
Proof.
  intros Hm b. rewrite snd_bind. specialize (Hm).
  destruct (snd m) as [a|e|] eqn:E; [|discriminate|discriminate].
  now destruct (Hm a).
Qed.

Lemma never_returns_bind_r {A B} (m : M A) (f : A -> M B) :
  (forall a, never_returns (f a)) -> never_returns (bind m f).
Proof.
  intros Hf b. rewrite snd_bind.
  destruct (snd m) as [a|e|]; [apply Hf | discriminate | discriminate].
Qed.

Lemma emits_only_bind_never {A B} P (m : M A) (f : A -> M B) :
  emits_only P m -> never_returns m -> emits_only P (bind m f).
Proof.
  unfold emits_only. intros Hm Hn. rewrite fst_bind, forallb_app, Hm.
  destruct (snd m) as [a|e|] eqn:E; [|reflexivity|reflexivity].
  now destruct (Hn a).
Qed.

(** The ranking pass prints nothing in any run of the selector: it is
    never reached. *)
Lemma correlation_report_3_never_ranks (np : Numerics) (fuel : nat)
  (train_states : list string) (traindata : matrix)
  (fit_states : list string) :
  emits_only not_ranking
    (correlation_report_3 np fuel train_states traindata fit_states).
Proof.
  unfold correlation_report_3.
  do 4 (apply emits_only_bind; [walk | intros ?]).
  apply emits_only_for_each. intros s.
  do 3 (apply emits_only_bind; [walk | intros ?]).
  apply emits_only_bind_never; [|apply while_true_never_returns].
  apply emits_only_while. intros st.
  apply (emits_only_weaken loop_event); [now intros [] |].
  apply loop_body_events.
Qed.

Lemma correlation_report_3_never_returns (np : Numerics) (fuel : nat)
  (train_states : list string) (traindata : matrix)
  (fit_states : list string) :
  fit_states <> [] ->
  never_returns (correlation_report_3 np fuel train_states traindata fit_states).
Proof.
  intros Hfs. destruct fit_states as [|s rest]; [congruence|].
  unfold correlation_report_3.
  do 4 (apply never_returns_bind_r; intros ?).
  cbn [for_each]. apply never_returns_bind_l.
  do 3 (apply never_returns_bind_r; intros ?).
  apply never_returns_bind_l, while_true_never_returns.
Qed.

(** A loop whose body ends and lowers a measure that is 0 only when the
    condition is false ends within that many rounds. *)
Lemma while_halts {S} (mu : S -> nat) (cond : S -> bool) (body : S -> M S) :
  (forall s, halts (body s)) ->
  (forall s s', cond s = true -> snd (body s) = Ret s' -> (mu s' < mu s)%nat) ->
  forall fuel s, (mu s < fuel)%nat -> halts (while fuel cond body s).
Proof.
  intros Hh Hdec. induction fuel as [|fuel IH]; intros s Hmu; [lia|].
  cbn [while]. destruct (cond s) eqn:Ec; [|discriminate].
  unfold halts. rewrite snd_bind.
  specialize (Hh s). unfold halts in Hh.
  destruct (snd (body s)) as [s'| |] eqn:Eb; [|discriminate|congruence].
  apply IH. specialize (Hdec s s' Ec Eb). lia.
Qed.

Lemma mapM_length {A B} (f : A -> M B) (l : list A) (l' : list B) :
  snd (mapM f l) = Ret l' -> length l' = length l.
Proof.
  revert l'. induction l as [|a l IH]; intros l' H; simpl in H.
  - injection H as <-. reflexivity.
  - rewrite snd_bind in H. destruct (snd (f a)) as [b| |]; try discriminate.
    rewrite snd_bind in H.
    destruct (snd (mapM f l)) as [bs| |]; try discriminate.
    simpl in H. injection H as <-. simpl. f_equal. now apply IH.
Qed.

Lemma in_insert_by_score (x y : Z * float) (l : list (Z * float)) :
  In y (insert_by_score x l) <-> y = x \/ In y l.
Proof.
  induction l as [|z l IH]; simpl.
  - intuition.
  - destruct (Np.fgt (snd z) (snd x)); simpl; [rewrite IH|]; intuition.
Qed.

Lemma in_sorted_by_score (y : Z * float) (l : list (Z * float)) :
  In y (sorted_by_score l) <-> In y l.
Proof.
  unfold sorted_by_score. induction l as [|x l IH]; simpl.
  - reflexivity.
  - rewrite in_insert_by_score, IH. intuition.
Qed.

Lemma dict_del_shorter {V} (k : Z) (v : V) (d : list (Z * V)) :
  In (k, v) d -> (length (dict_del k d) < length d)%nat.
Proof.
  unfold dict_del. induction d as [|[k' v'] d IH]; intros Hin; [destruct Hin|].
  simpl. destruct (Z.eqb_spec k' k) as [->|Hne]; simpl.
  - specialize (filter_length_le (fun kv : Z * V => negb (fst kv =? k)) d).
    lia.
  - destruct Hin as [E|Hin]; [congruence|]. specialize (IH Hin). lia.
Qed.

Lemma halts_print_no_nl (args : list pyval) : halts (print_no_nl args).
Proof. discriminate. Qed.

Lemma rank_body_halts (train_states : list string) (corr : matrix) (i : Z)
  (row : vec) (st : rank_state) :
  halts (rank_body train_states corr i row st).
Proof.
  unfold rank_body. apply halts_bind.
  - apply pure_halts, pure_rescore.
  - intros rem'. destruct (sorted_by_score rem') as [|[j g] l].
    + discriminate.
    + walk. apply halts_print_no_nl.
Qed.

Lemma rank_body_shrinks (train_states : list string) (corr : matrix) (i : Z)
  (row : vec) (st st' : rank_state) :
  snd (rank_body train_states corr i row st) = Ret st' ->
  (length (rk_rem st') < length (rk_rem st))%nat.
Proof.
  unfold rank_body. rewrite snd_bind.
  destruct (snd (rescore corr i (rk_incl st) (rk_rem st))) as [rem'| |] eqn:E;
    try discriminate.
  rewrite <- (mapM_length _ _ _ E).
  destruct (sorted_by_score rem') as [|[j g] l] eqn:Es; [discriminate|].
  rewrite snd_bind.
  destruct (snd (py_nth row j)) as [r| |]; try discriminate.
  rewrite snd_bind.
  destruct (snd (py_nth train_states j)) as [name| |]; try discriminate.
  simpl. intros H. injection H as <-. simpl.
  apply (dict_del_shorter j g). apply in_sorted_by_score.
  rewrite Es. now left.
Qed.

Lemma second_pass_halts (fuel : nat) (train_states : list string)
  (corr : matrix) (i : Z) :
  (forall r, In r corr -> (length r < fuel)%nat) ->
  halts (second_pass fuel train_states corr i).
Proof.
  intros Hfuel. unfold second_pass.
  apply halts_bind; [walk | intros name].
  apply halts_bind; [apply halts_print_no_nl | intros _].
  unfold halts. rewrite snd_bind.
  destruct (py_nth corr i) as [l [row| |]] eqn:Er; simpl;
    [|discriminate|].
  - apply halts_bind; [|intros st; apply halts_print].
    apply (while_halts (fun st => length (rk_rem st))).
    + apply rank_body_halts.
    + intros s s' _. apply rank_body_shrinks.
    + cbn [rk_rem]. rewrite length_map.
      assert (Hin : In row corr).
      { unfold py_nth in Er. destruct (_ && _); [|discriminate].
        destruct (nth_error corr _) eqn:En; [|discriminate].
        injection Er as _ <-. now apply nth_error_In in En. }
      specialize (Hfuel row Hin).
      specialize (filter_length_le (fun j => negb (i =? j))
                    (range (length row))).
      unfold range at 2. rewrite length_map, length_seq. lia.
  - specialize (pure_py_nth corr i) as [_ Hh]. rewrite Er in Hh.
    exfalso. now apply Hh.
Qed.

Lemma pure_returns {A} (m : M A) (a : A) : pure m -> snd m = Ret a -> m = ret a.
Proof.
  intros [Hl _] Hr. destruct m as [l r]. simpl in *. now subst.
Qed.

Lemma sorted_head_first_best (l : list (Z * float)) (j : Z) (g : float)
  (t : list (Z * float)) :
  (forall x, In x l -> PrimFloat.is_nan (snd x) = false) ->
  sorted_by_score l = (j, g) :: t -> first_best l j g.
Proof.
  revert j g t. induction l as [|x l IH]; intros j g t Hnan Es.
  - discriminate.
  - change (sorted_by_score (x :: l)) with (insert_by_score x (sorted_by_score l))
      in Es.
    destruct (sorted_by_score l) as [|[j' g'] t'] eqn:El.
    + simpl in Es. injection Es as E _. subst x.
      assert (l = []).
      { destruct l as [|y l]; [reflexivity|].
        assert (Hy : In y (sorted_by_score (y :: l)))
          by (apply in_sorted_by_score; now left).
        rewrite El in Hy. destruct Hy. }
      subst l. exists [], []. split; [reflexivity|]. split; intros y [].
    + assert (Hnan' : forall y, In y l -> PrimFloat.is_nan (snd y) = false)
        by (intros y Hy; apply Hnan; now right).
      destruct (IH j' g' t' Hnan' eq_refl) as (l1 & l2 & Hl & H1 & H2).
      assert (Hg' : PrimFloat.is_nan g' = false).
      { apply (Hnan' (j', g')). rewrite Hl. apply in_elt. }
      simpl in Es. destruct (Np.fgt g' (snd x)) eqn:Egt;
        inversion Es; subst; clear Es.
      * exists (x :: l1), l2.
        split; [reflexivity|]. split; [|exact H2].
        intros y [<-|Hy]; [exact Egt | now apply H1].
      * exists [], (l1 ++ (j', g') :: l2).
        split; [reflexivity|]. split; [intros y []|].
        intros y Hy. simpl in Egt.
        destruct (Np.fgt (snd y) g) eqn:Ey; [|reflexivity].
        apply in_app_or in Hy as [Hy|[<-|Hy]].
        -- specialize (H1 y Hy).
           rewrite (fgt_trans _ _ _ H1 Ey) in Egt. discriminate.
        -- simpl in Ey. congruence.
        -- specialize (H2 y Hy).
           rewrite (fgt_cotrans _ _ _ Ey Egt Hg') in H2. discriminate.
Qed.

Lemma max_corr_with_spec (corr : matrix) (j : Z) (ks : list Z)
  (mc m : float) :
  PrimFloat.is_nan mc = false ->
  snd (max_corr_with corr j ks mc) = Ret m ->
  PrimFloat.is_nan m = false /\
  Np.fgt mc m = false /\
  (m = mc \/
   exists k c, In k ks /\ Np.at2 corr j k = ret c /\ m = Np.fabs c) /\
  (forall k c, In k ks -> Np.at2 corr j k = ret c ->
               Np.fgt (Np.fabs c) m = false).
Proof.
  revert mc. induction ks as [|k ks IH]; intros mc Hmc H; simpl in H.
  - injection H as <-. split; [exact Hmc|]. split; [apply fgt_irrefl|].
    split; [now left | intros k c []].
  - rewrite snd_bind in H.
    destruct (snd (Np.at2 corr j k)) as [x| |] eqn:Ex; try discriminate.
    apply (pure_returns _ _ (pure_at2 corr j k)) in Ex.
    destruct (Np.fgt (Np.fabs x) mc) eqn:Egt.
    + destruct (fgt_not_nan _ _ Egt) as [Hx _].
      destruct (IH (Np.fabs x) Hx H) as (Hm & Hle & Hcase & Hall).
      split; [exact Hm|]. split; [|split].
      * destruct (Np.fgt mc m) eqn:E; [|reflexivity].
        rewrite (fgt_trans _ _ _ Egt E) in Hle. discriminate.
      * right. destruct Hcase as [->|(k' & c & Hk' & Hc & ->)].
        -- exists k, x. split; [now left | now split].
        -- exists k', c. split; [now right | now split].
      * intros k' c [<-|Hk'] Hc; [|now apply (Hall k' c)].
        rewrite Ex in Hc. injection Hc as <-. exact Hle.
    + destruct (IH mc Hmc H) as (Hm & Hle & Hcase & Hall).
      split; [exact Hm|]. split; [exact Hle|]. split.
      * destruct Hcase as [->|(k' & c & Hk' & Hc & ->)]; [now left | right].
        exists k', c. split; [now right | now split].
      * intros k' c [<-|Hk'] Hc; [|now apply (Hall k' c)].
        rewrite Ex in Hc. injection Hc as <-.
        destruct (Np.fgt (Np.fabs x) m) eqn:E; [|reflexivity].
        rewrite (fgt_cotrans _ _ _ E Hle Hmc) in Egt. discriminate.
Qed.

Lemma score_scored (corr : matrix) (i : Z) (ranked : list Z) (j : Z)
  (g : float) :
  snd (score corr i ranked j) = Ret g -> scored corr i ranked j g.
Proof.
  unfold score. rewrite snd_bind.
  destruct (snd (max_corr_with corr j ranked PrimFloat.zero)) as [mc| |] eqn:Em;
    try discriminate.
  rewrite snd_bind.
  destruct (snd (Np.at2 corr i j)) as [cij| |] eqn:Ec; try discriminate.
  simpl. intros H. injection H as <-.
  apply (pure_returns _ _ (pure_at2 corr i j)) in Ec.
  destruct (max_corr_with_spec corr j ranked PrimFloat.zero mc eq_refl Em)
    as (_ & _ & Hcase & Hall).
  exists cij, mc. split; [exact Ec|]. split; [reflexivity|].
  split; [exact Hcase | exact Hall].
Qed.

Lemma rescore_scored (corr : matrix) (i : Z) (ranked : list Z)
  (rem rem' : list (Z * float)) :
  snd (rescore corr i ranked rem) = Ret rem' ->
  map fst rem' = map fst rem /\
  forall j g, In (j, g) rem' -> scored corr i ranked j g.
Proof.
  unfold rescore. revert rem'.
  induction rem as [|[j0 g0] rem IH]; intros rem' H; simpl in H.
  - injection H as <-. split; [reflexivity | intros j g []].
  - rewrite !snd_bind in H.
    destruct (snd (score corr i ranked j0)) as [g1| |] eqn:Es;
      try discriminate.
    simpl in H. rewrite snd_bind in H.
    destruct (snd (mapM _ rem)) as [rest| |] eqn:Er; try discriminate.
    simpl in H. injection H as <-.
    destruct (IH rest eq_refl) as [Hk Hs]. split.
    + simpl. now rewrite Hk.
    + intros j g [E|Hin]; [|now apply Hs].
      injection E as <- <-. now apply score_scored.
Qed.

(** One round of the ranking loop, when it completes: every score is
    recomputed, the first entry of the best score is printed with its
    correlation to the target, leaves the pool and joins the ranked
    rows. *)
Lemma rank_body_spec (train_states : list string) (corr : matrix) (i : Z)
  (row : vec) (st st' : rank_state) (log : list event) :
  rank_body train_states corr i row st = (log, Ret st') ->
  exists rem' j g r name,
    rescore corr i (rk_incl st) (rk_rem st) = ret rem' /\
    map fst rem' = map fst (rk_rem st) /\
    (forall j' g', In (j', g') rem' -> scored corr i (rk_incl st) j' g') /\
    In (j, g) rem' /\
    ((forall x, In x rem' -> PrimFloat.is_nan (snd x) = false) ->
     first_best rem' j g) /\
    py_nth row j = ret r /\ py_nth train_states j = ret name /\
    log = [PrintNoNl [PyFmt3 r; PyStr (name ++ ", ")]] /\
    st' = {| rk_incl := rk_incl st ++ [j]; rk_rem := dict_del j rem' |}.
Proof.
  unfold rank_body. intros H.
  destruct (rescore corr i (rk_incl st) (rk_rem st)) as [l0 [rem'| |]] eqn:Er;
    try discriminate.
  assert (Hr : rescore corr i (rk_incl st) (rk_rem st) = ret rem').
  { apply pure_returns; [apply pure_rescore | now rewrite Er]. }
  assert (Hs : snd (rescore corr i (rk_incl st) (rk_rem st)) = Ret rem')
    by now rewrite Er.
  destruct (rescore_scored _ _ _ _ _ Hs) as [Hk Hsc].
  rewrite Hr in Er. injection Er as <-.
  cbn [bind app] in H.
  destruct (sorted_by_score rem') as [|[j g] t] eqn:Es; [discriminate|].
  destruct (py_nth row j) as [l1 [r| |]] eqn:E1; try discriminate.
  apply (f_equal snd) in E1 as E1'. simpl in E1'.
  apply (pure_returns _ _ (pure_py_nth row j)) in E1'.
  rewrite E1' in E1. injection E1 as <-. cbn [bind app] in H.
  destruct (py_nth train_states j) as [l2 [name| |]] eqn:E2; try discriminate.
  apply (f_equal snd) in E2 as E2'. simpl in E2'.
  apply (pure_returns _ _ (pure_py_nth train_states j)) in E2'.
  rewrite E2' in E2. injection E2 as <-. simpl in H.
  injection H as <- <-.
  exists rem', j, g, r, name.
  split; [reflexivity|]. split; [exact Hk|]. split; [exact Hsc|].
  split; [apply in_sorted_by_score; rewrite Es; now left|].
  split; [intros Hnan; now apply (sorted_head_first_best rem' j g t)|].
  split; [exact E1'|]. split; [exact E2'|]. split; reflexivity.
Qed.

Lemma while_returns_when_false {S} (fuel : nat) (cond : S -> bool)
  (body : S -> M S) (s s' : S) :
  snd (while fuel cond body s) = Ret s' -> cond s' = false.
Proof.
  revert s. induction fuel as [|fuel IH]; intros s; simpl; [discriminate|].
  destruct (cond s) eqn:Ec.
  - rewrite snd_bind. destruct (snd (body s)) as [s1| |]; try discriminate.
    apply IH.
  - simpl. intros H. injection H as <-. exact Ec.
Qed.

(** C8 (amended). The ranking pass stands after the [while True] loop,
    which never exits: in no run of the selector does it print anything,
    and the selector does not return. As written, the pass ends (each
    round takes one row out of the pool, and the loop stops on the empty
    pool); a round recomputes for each pooled row the score "absolute
    correlation to the target less the largest absolute correlation to a
    row ranked so far", prints the first row of the best score and moves
    it from the pool to the ranked rows. *)
Theorem ranking_pass_never_runs (np : Numerics) (fuel : nat)
  (train_states : list string) (traindata : matrix)
  (fit_states : list string) (corr : matrix) (i : Z) (row : vec)
  (st st' : rank_state) (log : list event) :
  fit_states <> [] ->
  (forall r, In r corr -> (length r < fuel)%nat) ->
  rank_body train_states corr i row st = (log, Ret st') ->
  (emits_only not_ranking
     (correlation_report_3 np fuel train_states traindata fit_states) /\
   never_returns
     (correlation_report_3 np fuel train_states traindata fit_states)) /\
  (halts (second_pass fuel train_states corr i) /\
   forall st0 stf,
     snd (while fuel (fun s => negb (is_empty (rk_rem s)))
            (rank_body train_states corr i row) st0) = Ret stf ->
     rk_rem stf = []) /\
  exists rem' j g r name,
    rescore corr i (rk_incl st) (rk_rem st) = ret rem' /\
    map fst rem' = map fst (rk_rem st) /\
    (forall j' g', In (j', g') rem' -> scored corr i (rk_incl st) j' g') /\
    In (j, g) rem' /\
    ((forall x, In x rem' -> PrimFloat.is_nan (snd x) = false) ->
     first_best rem' j g) /\
    py_nth row j = ret r /\ py_nth train_states j = ret name /\
    log = [PrintNoNl [PyFmt3 r; PyStr (name ++ ", ")]] /\
    st' = {| rk_incl := rk_incl st ++ [j]; rk_rem := dict_del j rem' |}.
Proof.
  intros Hfs Hfuel Hround. split; [split|split; [split|]].
  - apply correlation_report_3_never_ranks.
  - now apply correlation_report_3_never_returns.
  - now apply second_pass_halts.
  - intros st0 stf H. apply while_returns_when_false in H.
    apply negb_false_iff in H. now destruct (rk_rem stf).
  - now apply rank_body_spec.
Qed.

Lemma ranking_pass_never_runs_witness :
  (emits_only not_ranking
     (correlation_report_3 Ref.numerics 5 ["p"; "a"; "b"] Data.ramp_mixed ["p"]) /\
   never_returns
     (correlation_report_3 Ref.numerics 5 ["p"; "a"; "b"] Data.ramp_mixed ["p"])) /\
  (halts (second_pass 5 ["p"; "a"; "b"] (Data.corr_of Data.ramp_mixed) 0) /\
   forall st0 stf,
     snd (while 5 (fun s => negb (is_empty (rk_rem s)))
            (rank_body ["p"; "a"; "b"] (Data.corr_of Data.ramp_mixed) 0
               (nth 0 (Data.corr_of Data.ramp_mixed) [])) st0) = Ret stf ->
     rk_rem stf = []) /\
  exists rem' j g r name,
    rescore (Data.corr_of Data.ramp_mixed) 0 (rk_incl Rank.start)
      (rk_rem Rank.start) = ret rem' /\
    map fst rem' = map fst (rk_rem Rank.start) /\
    (forall j' g', In (j', g') rem' ->
       scored (Data.corr_of Data.ramp_mixed) 0 (rk_incl Rank.start) j' g') /\
    In (j, g) rem' /\
    ((forall x, In x rem' -> PrimFloat.is_nan (snd x) = false) ->
     first_best rem' j g) /\
    py_nth (nth 0 (Data.corr_of Data.ramp_mixed) []) j = ret r /\
    py_nth ["p"; "a"; "b"] j = ret name /\
    fst (rank_body ["p"; "a"; "b"] (Data.corr_of Data.ramp_mixed) 0
           (nth 0 (Data.corr_of Data.ramp_mixed) []) Rank.start)
    = [PrintNoNl [PyFmt3 r; PyStr (name ++ ", ")]] /\
    Rank.returned Rank.start
      (rank_body ["p"; "a"; "b"] (Data.corr_of Data.ramp_mixed) 0
         (nth 0 (Data.corr_of Data.ramp_mixed) []) Rank.start)
    = {| rk_incl := rk_incl Rank.start ++ [j]; rk_rem := dict_del j rem' |}.
Proof.
  apply (ranking_pass_never_runs Ref.numerics 5 ["p"; "a"; "b"]
           Data.ramp_mixed ["p"] (Data.corr_of Data.ramp_mixed) 0
           (nth 0 (Data.corr_of Data.ramp_mixed) []) Rank.start).
  - discriminate.
  - vm_compute. intros r [<-|[<-|[<-|[]]]]; simpl; lia.
  - vm_compute. reflexivity.
Defined.

(** C8, as stated, fails. On two channels over two samples the selector,
    allowed three fits for target [p], is still in its loop and has
    printed no ranking; and the pass, run by itself on correlations in
    which channel [a] goes against the target, ranks [a] (correlation
    -0.8) before [b] (correlation 0.5): it scores absolute values. *)
Lemma no_ranking_is_printed_and_scores_are_absolute :
  (snd (correlation_report_3 Ref.numerics 3 ["p"; "q"]
          [[3; 6]; [1; 5]]%float ["p"]) = Running
   /\ count_plots (fst (correlation_report_3 Ref.numerics 3 ["p"; "q"]
                          [[3; 6]; [1; 5]]%float ["p"])) = 3%nat
   /\ existsb is_ranking
        (fst (correlation_report_3 Ref.numerics 3 ["p"; "q"]
                [[3; 6]; [1; 5]]%float ["p"])) = false)
  /\ second_pass 5 ["p"; "a"; "b"] Rank.opposed 0
     = ([PrintNoNl [PyStr "p: "];
         PrintNoNl [PyFmt3 (-0.8); PyStr "a, "];
         PrintNoNl [PyFmt3 0.5; PyStr "b, "];
         Print [PyStr ""]], Ret tt).
Proof. vm_compute. repeat split. Qed.

(** ** The included set along the loop *)

Lemma scan_bounds (corr : matrix) (incl : pyset) (js : list Z)
  (mi : Z) (ma : float) (m : Z) (a : float) :
  snd (scan corr incl js mi ma) = Ret (m, a) -> m = mi \/ In m js.
Proof.
  revert mi ma. induction js as [|j js IH]; intros mi ma H; simpl in H.
  - injection H as <- _. now left.
  - destruct (set_in j incl).
    + destruct (IH _ _ H); [now left | right; now right].
    + rewrite snd_bind in H.
      destruct (snd (Np.at2 corr (-1) j)) as [c| |]; try discriminate.
      destruct (Np.fgt (Np.fabs c) ma).
      * destruct (IH _ _ H) as [->|Hin]; right; [now left | now right].
      * destruct (IH _ _ H); [now left | right; now right].
Qed.

Lemma py_nth_returns {A} (l : list A) (k : Z) (a : A) :
  snd (py_nth l k) = Ret a ->
  - Z.of_nat (length l) <= k < Z.of_nat (length l).
Proof.
  unfold py_nth.
  destruct ((0 <=? (if k <? 0 then k + Z.of_nat (length l) else k))
            && ((if k <? 0 then k + Z.of_nat (length l) else k)
                <? Z.of_nat (length l))) eqn:E; [|discriminate].
  intros _. apply andb_prop in E as [E1 E2].
  apply Z.leb_le in E1. apply Z.ltb_lt in E2.
  destruct (Z.ltb_spec k 0); lia.
Qed.

Lemma select_step_returns (np : Numerics) (train_states : list string)
  (traindata : matrix) (st : sel_state) (corr : matrix) (m : Z)
  (incl' : pyset) :
  snd (select_step np train_states traindata st) = Ret (corr, m, incl') ->
  incl' = set_add m (incl st) /\
  -1 <= m < Z.of_nat (length train_states).
Proof.
  unfold select_step. rewrite snd_bind.
  destruct (snd (Np.vstack traindata (error st))) as [tde| |];
    try discriminate.
  rewrite snd_bind.
  destruct (snd (lift (corrcoef np tde))) as [c| |]; try discriminate.
  rewrite snd_bind.
  destruct (snd (py_nth c (-1))) as [last_row| |]; try discriminate.
  rewrite snd_bind_print, snd_bind.
  destruct (snd (scan c (incl st) (range (length train_states)) (-1)
                   PrimFloat.zero)) as [[m' a]| |] eqn:Es; try discriminate.
  rewrite snd_bind.
  destruct (snd (py_nth train_states m')) as [name| |] eqn:En;
    try discriminate.
  rewrite snd_bind_print. simpl. intros H. injection H as _ <- <-.
  split; [reflexivity|].
  apply py_nth_returns in En.
  destruct (scan_bounds _ _ _ _ _ _ _ Es) as [->|Hin]; [lia|].
  apply in_range in Hin. lia.
Qed.

Lemma fit_step_returns (np : Numerics) (traindata : matrix) (i : Z)
  (corr : matrix) (incl' : pyset) (st' : sel_state) :
  snd (fit_step np traindata i corr incl') = Ret st' -> incl st' = incl'.
Proof.
  unfold fit_step. rewrite snd_bind.
  destruct (snd (index_of Z.eqb (sorted incl') i)); try discriminate.
  rewrite snd_bind.
  destruct (snd (Np.take_rows traindata (sorted incl'))) as [sub| |];
    try discriminate.
  rewrite snd_bind_print, snd_bind.
  destruct (snd (solve np _ sub)) as [A| |]; try discriminate.
  rewrite snd_bind.
  destruct (snd (py_matvec A sub)) as [est| |]; try discriminate.
  rewrite snd_bind.
  destruct (snd (py_nth traindata i)) as [target| |]; try discriminate.
  rewrite snd_bind. cbn [plot snd]. rewrite snd_bind.
  destruct (snd (Np.bcast_sub target est)) as [error'| |]; try discriminate.
  rewrite snd_bind_print. simpl. intros H. now injection H as <-.
Qed.

(** X1. An iteration that completes keeps the included set within the
    row indices and the sentinel -1, keeps the target row in it, and only
    adds to it. *)
Theorem loop_body_keeps_included_set (np : Numerics)
  (train_states : list string) (traindata : matrix) (i : Z)
  (st st' : sel_state) :
  snd (loop_body np train_states traindata i st) = Ret st' ->
  Forall (fun k => -1 <= k < Z.of_nat (length train_states)) (incl st) ->
  set_in i (incl st) = true ->
  Forall (fun k => -1 <= k < Z.of_nat (length train_states)) (incl st') /\
  set_in i (incl st') = true /\
  (forall k, In k (incl st) -> In k (incl st')).
Proof.
  unfold loop_body. rewrite snd_bind. intros H Hall Hi.
  destruct (snd (select_step np train_states traindata st))
    as [[[corr m] incl']| |] eqn:Es; try discriminate.
  apply select_step_returns in Es as [-> Hm].
  apply fit_step_returns in H. rewrite H.
  split; [|split].
  - rewrite Forall_forall in *. intros k Hk.
    apply in_set_add in Hk as [->|Hk]; [exact Hm | now apply Hall].
  - apply set_in_iff, in_set_add. right. now apply set_in_iff.
  - intros k Hk. apply in_set_add. now right.
Qed.

Lemma loop_body_keeps_included_set_witness :
  Forall (fun k => -1 <= k < Z.of_nat (length ["p"]))
    (incl (Rank.returned (Data.start Data.single)
             (loop_body Ref.numerics ["p"] Data.single 0
                (Data.start Data.single)))) /\
  set_in 0 (incl (Rank.returned (Data.start Data.single)
                    (loop_body Ref.numerics ["p"] Data.single 0
                       (Data.start Data.single)))) = true /\
  (forall k, In k (incl (Data.start Data.single)) ->
     In k (incl (Rank.returned (Data.start Data.single)
                   (loop_body Ref.numerics ["p"] Data.single 0
                      (Data.start Data.single))))).
Proof.
  apply (loop_body_keeps_included_set Ref.numerics ["p"] Data.single 0
           (Data.start Data.single)).
  - vm_compute. reflexivity.
  - repeat constructor; lia.
  - reflexivity.
Defined.

(** On a single channel every row is included from the start; three
    iterations allowed, three fits made, and the loop is still running. *)
Example primary_loop_three_fits :
  snd (while 3 (fun _ => true)
         (loop_body Ref.numerics ["p"] Data.single 0) (Data.start Data.single))
  = Running
  /\ count_plots
       (fst (while 3 (fun _ => true)
               (loop_body Ref.numerics ["p"] Data.single 0)
               (Data.start Data.single))) = 3%nat.
Proof. vm_compute. split; reflexivity. Qed.


(** ** The fitting half of an iteration (lines 201-215) *)

Lemma index_from_position (l : list Z) (x k p : Z) :
  snd (index_from Z.eqb l x k) = Ret p ->
  k <= p /\ nth_error l (Z.to_nat (p - k)) = Some x.
Proof.
  revert k. induction l as [|a l IH]; intros k H; simpl in H.
  - discriminate.
  - destruct (Z.eqb_spec a x) as [->|Hne].
    + injection H as <-. split; [lia|]. now rewrite Z.sub_diag.
    + destruct (IH _ H) as [Hk Hn]. split; [lia|].
      replace (Z.to_nat (p - k)) with (S (Z.to_nat (p - (k + 1)))) by lia.
      exact Hn.
Qed.

(** X2. When the fitting half of an iteration completes, [solve] was run
    on the included rows in increasing index order, with as target index
    the position of row [i] among them, and the new error row is the
    target row minus the estimate [A @ traindata[includes, :]]. *)
Theorem fit_step_refits_included_rows (np : Numerics) (traindata : matrix)
  (i : Z) (corr : matrix) (incl' : pyset) (st' : sel_state) :
  snd (fit_step np traindata i corr incl') = Ret st' ->
  exists param_index sub A est target,
    nth_error (sorted incl') (Z.to_nat param_index) = Some i /\
    Np.take_rows traindata (sorted incl') = ret sub /\
    snd (solve np param_index sub) = Ret (PyArr1 A) /\
    Np.vecmat A sub = ret est /\
    py_nth traindata i = ret target /\
    Np.bcast_sub target est = ret (error st') /\
    incl st' = incl' /\
    In (Plot (PyArr1 target) (PyArr1 est))
       (fst (fit_step np traindata i corr incl')).
Proof.
  unfold fit_step. rewrite fst_bind, snd_bind.
  destruct (snd (index_of Z.eqb (sorted incl') i)) as [p| |] eqn:Ep;
    try discriminate.
  rewrite fst_bind, snd_bind.
  destruct (snd (Np.take_rows traindata (sorted incl'))) as [sub| |] eqn:Es;
    try discriminate.
  rewrite fst_bind, snd_bind. cbn [print snd fst].
  rewrite fst_bind, snd_bind.
  destruct (snd (solve np p sub)) as [v| |] eqn:Ev; try discriminate.
  rewrite fst_bind, snd_bind.
  destruct (snd (py_matvec v sub)) as [est| |] eqn:Ee; try discriminate.
  rewrite fst_bind, snd_bind.
  destruct (snd (py_nth traindata i)) as [target| |] eqn:Et; try discriminate.
  rewrite fst_bind, snd_bind. cbn [plot snd fst].
  rewrite fst_bind, snd_bind.
  destruct (snd (Np.bcast_sub target est)) as [error'| |] eqn:Eb;
    try discriminate.
  rewrite snd_bind_print. simpl. intros H. injection H as <-.
  destruct v as [ | | | | | |A| | | | ]; try discriminate.
  apply index_from_position in Ep as [_ Hp]. rewrite Z.sub_0_r in Hp.
  exists p, sub, A, est, target.
  split; [exact Hp|].
  split; [apply pure_returns; [apply pure_take_rows | exact Es]|].
  split; [exact Ev|].
  split; [apply pure_returns; [apply pure_vecmat | exact Ee]|].
  split; [apply pure_returns; [apply pure_py_nth | exact Et]|].
  split; [apply pure_returns; [apply pure_bcast_sub | exact Eb]|].
  split; [reflexivity|].
  do 2 (apply in_or_app; right). right.
  do 3 (apply in_or_app; right). now left.
Qed.

Lemma fit_step_refits_included_rows_witness :
  exists param_index sub A est target,
    nth_error (sorted [0; -1]) (Z.to_nat param_index) = Some 0 /\
    Np.take_rows Data.single (sorted [0; -1]) = ret sub /\
    snd (solve Ref.numerics param_index sub) = Ret (PyArr1 A) /\
    Np.vecmat A sub = ret est /\
    py_nth Data.single 0 = ret target /\
    Np.bcast_sub target est
    = ret (error (Rank.returned (Data.start Data.single)
                    (fit_step Ref.numerics Data.single 0 [] [0; -1]))) /\
    incl (Rank.returned (Data.start Data.single)
            (fit_step Ref.numerics Data.single 0 [] [0; -1])) = [0; -1] /\
    In (Plot (PyArr1 target) (PyArr1 est))
       (fst (fit_step Ref.numerics Data.single 0 [] [0; -1])).
Proof.
  apply (fit_step_refits_included_rows Ref.numerics Data.single 0 [] [0; -1]).
  vm_compute. reflexivity.
Defined.

(** ** The ranking pass ranks every row of its pool *)

Lemma dict_del_absent {V} (j : Z) (d : list (Z * V)) :
  ~ In j (map fst d) -> dict_del j d = d.
Proof.
  unfold dict_del. induction d as [|[k v] d IH]; intros Hj; [reflexivity|].
  simpl in *. destruct (Z.eqb_spec k j) as [->|Hne].
  - destruct Hj. now left.
  - simpl. f_equal. apply IH. intros H. apply Hj. now right.
Qed.

Lemma dict_del_subset {V} (j k : Z) (d : list (Z * V)) :
  In k (map fst (dict_del j d)) -> In k (map fst d).
Proof.
  unfold dict_del. rewrite !in_map_iff. intros ([k' v] & <- & Hin).
  apply filter_In in Hin as [Hin _]. now exists (k', v).
Qed.

Lemma dict_del_keys {V} (j : Z) (g : V) (d : list (Z * V)) :
  NoDup (map fst d) -> In (j, g) d ->
  Permutation (map fst d) (j :: map fst (dict_del j d)) /\
  NoDup (map fst (dict_del j d)).
Proof.
  induction d as [|[k v] d IH]; intros Hnd Hin; [destruct Hin|].
  simpl in Hnd. inversion Hnd as [|? ? Hk Hnd']; subst.
  unfold dict_del. simpl. destruct (Z.eqb_spec k j) as [->|Hne]; simpl.
  - fold (dict_del j d). rewrite (dict_del_absent j d Hk).
    split; [apply Permutation_refl | exact Hnd'].
  - fold (dict_del j d).
    destruct Hin as [E|Hin]; [congruence|].
    destruct (IH Hnd' Hin) as [Hp Hn]. split.
    + apply perm_trans with (k :: j :: map fst (dict_del j d));
        [now apply perm_skip | apply perm_swap].
    + constructor; [|exact Hn]. intros H. apply Hk.
      now apply (dict_del_subset j).
Qed.

(** X3. As written, the ranking loop, when it returns, has emptied its
    pool and ranked every row of it once: the ranked rows are a
    rearrangement of the rows ranked before and the rows of the pool. *)
Theorem ranking_loop_ranks_the_pool (fuel : nat) (train_states : list string)
  (corr : matrix) (i : Z) (row : vec) (st0 stf : rank_state) :
  snd (while fuel (fun s => negb (is_empty (rk_rem s)))
         (rank_body train_states corr i row) st0) = Ret stf ->
  NoDup (map fst (rk_rem st0)) ->
  rk_rem stf = [] /\
  Permutation (rk_incl stf) (rk_incl st0 ++ map fst (rk_rem st0)).
Proof.
  revert st0. induction fuel as [|fuel IH]; intros st0 H Hnd; simpl in H.
  - discriminate.
  - destruct (is_empty (rk_rem st0)) eqn:Ee; simpl in H.
    + injection H as <-. destruct (rk_rem st0); [|discriminate].
      split; [reflexivity|]. simpl. rewrite app_nil_r. apply Permutation_refl.
    + rewrite snd_bind in H.
      destruct (rank_body train_states corr i row st0) as [log [st1| |]] eqn:Eb;
        try discriminate.
      simpl in H.
      destruct (rank_body_spec _ _ _ _ _ _ _ Eb)
        as (rem' & j & g & r & name & _ & Hk & _ & Hin & _ & _ & _ & _ & ->).
      rewrite <- Hk in Hnd.
      destruct (dict_del_keys j g rem' Hnd Hin) as [Hp Hn].
      destruct (IH _ H Hn) as [He Hperm]. split; [exact He|].
      cbn [rk_incl rk_rem] in Hperm.
      apply (perm_trans Hperm). rewrite <- app_assoc. simpl.
      apply Permutation_app_head. rewrite <- Hk. now apply Permutation_sym.
Qed.

Lemma ranking_loop_ranks_the_pool_witness :
  rk_rem (Rank.returned Rank.start
            (while 5 (fun s => negb (is_empty (rk_rem s)))
               (rank_body ["p"; "a"; "b"] (Data.corr_of Data.ramp_mixed) 0
                  (nth 0 (Data.corr_of Data.ramp_mixed) [])) Rank.start)) = []
  /\
  Permutation
    (rk_incl (Rank.returned Rank.start
                (while 5 (fun s => negb (is_empty (rk_rem s)))
                   (rank_body ["p"; "a"; "b"] (Data.corr_of Data.ramp_mixed) 0
                      (nth 0 (Data.corr_of Data.ramp_mixed) [])) Rank.start)))
    (rk_incl Rank.start ++ map fst (rk_rem Rank.start)).
Proof.
  apply (ranking_loop_ranks_the_pool 5 ["p"; "a"; "b"]
           (Data.corr_of Data.ramp_mixed) 0
           (nth 0 (Data.corr_of Data.ramp_mixed) []) Rank.start).
  - vm_compute. reflexivity.
  - repeat constructor; simpl; intuition discriminate.
Defined.

(** ** Error and frame behaviour of [solve] (lines 116-157) *)

Lemma py_nth_out_of_range {A} (l : list A) (k : Z) :
  k < - Z.of_nat (length l) \/ Z.of_nat (length l) <= k ->
  py_nth l k = raise IndexError.
Proof.
  intros Hk. unfold py_nth.
  destruct (Z.ltb_spec k 0).
  - destruct (Z.leb_spec 0 (k + Z.of_nat (length l))); [lia | reflexivity].
  - destruct (Z.ltb_spec k (Z.of_nat (length l))); [lia|].
    now rewrite andb_false_r.
Qed.

Lemma py_nth_cases {A} (l : list A) (k : Z) :
  (exists a, py_nth l k = ret a /\ In a l) \/ py_nth l k = raise IndexError.
Proof.
  unfold py_nth. destruct (_ && _); [|now right].
  destruct (nth_error l _) as [a|] eqn:E; [left | now right].
  exists a. split; [reflexivity | now apply nth_error_In in E].
Qed.

Lemma py_nth_map {A B} (f : A -> B) (l : list A) (k : Z) :
  py_nth (map f l) k = (a <- py_nth l k ;; ret (f a)).
Proof.
  unfold py_nth. rewrite length_map. destruct (_ && _); [|reflexivity].
  rewrite nth_error_map. now destruct (nth_error l _).
Qed.

(** X4. A target index outside [-M, M) for a matrix of M rows (any index
    for a matrix without rows) makes [solve] raise [IndexError] before it
    prints anything. *)
Theorem solve_index_out_of_range (np : Numerics) (i : Z) (traindata : matrix) :
  i < - Z.of_nat (length traindata) \/ Z.of_nat (length traindata) <= i ->
  solve np i traindata = ([], Raise IndexError).
Proof.
  intros Hi. unfold solve.
  destruct (py_nth_cases traindata 0) as [(row0 & -> & _)| ->]; [|reflexivity].
  rewrite bind_ret_l. now rewrite (py_nth_out_of_range traindata i Hi).
Qed.

Lemma solve_index_out_of_range_witness :
  solve Ref.numerics 2 Data.ramp_const = ([], Raise IndexError).
Proof.
  apply (solve_index_out_of_range Ref.numerics 2 Data.ramp_const).
  right. simpl. lia.
Defined.

Lemma snd_bind_ext {A B} (m1 m2 : M A) (f g : A -> M B) :
  snd m1 = snd m2 -> (forall a, snd (f a) = snd (g a)) ->
  snd (bind m1 f) = snd (bind m2 g).
Proof.
  intros Hm Hfg. rewrite !snd_bind, Hm.
  destruct (snd m2); [apply Hfg | reflexivity | reflexivity].
Qed.

(** X5. What [solve] returns or raises depends on the numeric library
    through the SVD of X alone: the outcome of the sanity check
    ["dask svd close?"] and the rank are printed and acted on nowhere. *)
Theorem solve_outcome_depends_on_svd_only (np1 np2 : Numerics) (i : Z)
  (traindata : matrix) :
  svd np1 (map (@removelast float) traindata)
  = svd np2 (map (@removelast float) traindata) ->
  snd (solve np1 i traindata) = snd (solve np2 i traindata).
Proof.
  intros Hsvd. unfold solve.
  do 5 (apply snd_bind_ext; [reflexivity | intros ?]).
  apply snd_bind_ext; [now rewrite Hsvd | intros [[u s] vh]].
  do 12 (apply snd_bind_ext; [reflexivity | intros ?]).
  reflexivity.
Qed.

Lemma solve_outcome_depends_on_svd_only_witness :
  snd (solve Ref.numerics 0 Data.single)
  = snd (solve (Build_Numerics Ref.svd Ref.corrcoef (fun _ _ => false)
                  (fun _ => 0) Ref.std) 0 Data.single).
Proof.
  apply (solve_outcome_depends_on_svd_only Ref.numerics
           (Build_Numerics Ref.svd Ref.corrcoef (fun _ _ => false)
              (fun _ => 0) Ref.std) 0 Data.single).
  reflexivity.
Defined.

(** X6. [solve] reads its matrix through the two lagged blocks only: X,
    every row without its last sample, and Y, the target row without its
    first sample. Two matrices of one shape that agree on both give the
    same output and the same result; the last sample of a row other than
    the target is never read. *)
Theorem solve_reads_lagged_blocks_only (np : Numerics) (i : Z)
  (traindata1 traindata2 : matrix) :
  map (@removelast float) traindata1 = map (@removelast float) traindata2 ->
  map (@length float) traindata1 = map (@length float) traindata2 ->
  (forall r1 r2, py_nth traindata1 i = ret r1 -> py_nth traindata2 i = ret r2 ->
                 tl r1 = tl r2) ->
  solve np i traindata1 = solve np i traindata2.
Proof.
  intros HX Hshape HY.
  assert (Hlen : forall k, (a <- py_nth traindata1 k ;; ret (length a))
                           = (a <- py_nth traindata2 k ;; ret (length a))).
  { intros k. now rewrite <- !py_nth_map, Hshape. }
  unfold solve.
  specialize (Hlen 0) as H0.
  destruct (py_nth_cases traindata1 0) as [(a1 & E1 & _)|E1];
    destruct (py_nth_cases traindata2 0) as [(a2 & E2 & _)|E2];
    rewrite E1, E2 in H0 |- *; rewrite ?bind_ret_l in H0; try discriminate;
    [|reflexivity].
  rewrite !bind_ret_l. injection H0 as H0. rewrite H0, HX.
  specialize (Hlen i) as Hi.
  destruct (py_nth_cases traindata1 i) as [(r1 & F1 & _)|F1];
    destruct (py_nth_cases traindata2 i) as [(r2 & F2 & _)|F2];
    rewrite F1, F2 in Hi |- *; rewrite ?bind_ret_l in Hi; try discriminate;
    [|reflexivity].
  rewrite !bind_ret_l. now rewrite (HY r1 r2 F1 F2).
Qed.

Lemma solve_reads_lagged_blocks_only_witness :
  solve Ref.numerics 0 [[1; 2; 3]; [4; 5; 6]]%float
  = solve Ref.numerics 0 [[1; 2; 3]; [4; 5; 9]]%float.
Proof.
  apply (solve_reads_lagged_blocks_only Ref.numerics 0
           [[1; 2; 3]; [4; 5; 6]]%float [[1; 2; 3]; [4; 5; 9]]%float).
  - reflexivity.
  - reflexivity.
  - intros r1 r2 H1 H2. vm_compute in H1, H2.
    injection H1 as <-. injection H2 as <-. reflexivity.
Defined.

(** ** The loop over the fit states (lines 162-181) *)

Lemma index_from_absent (l : list string) (x : string) (k : Z) :
  ~ In x l -> index_from String.eqb l x k = raise ValueError.
Proof.
  revert k. induction l as [|a l IH]; intros k Hx; simpl; [reflexivity|].
  destruct (String.eqb_spec a x) as [->|_].
  - destruct Hx. now left.
  - apply IH. intros H. apply Hx. now right.
Qed.

(** X7. A state to fit that is not among the training states makes
    [correlation_report_3] raise [ValueError] at [train_states.index(s)],
    once the header, the state names and the correlation matrix are
    printed and before any fit. *)
Theorem correlation_report_3_unknown_fit_state (np : Numerics) (fuel : nat)
  (train_states : list string) (traindata : matrix) (s : string)
  (rest : list string) (c : matrix) :
  corrcoef np traindata = inr c -> ~ In s train_states ->
  correlation_report_3 np fuel train_states traindata (s :: rest)
  = ([Print [PyStr "test pearson correlation coefficients:"];
      Print [PyList (map PyStr train_states)];
      Print [PyArr2 c]], Raise ValueError).
Proof.
  intros Hc Hs. unfold correlation_report_3.
  do 2 (apply bind_print_eq; cbv beta).
  rewrite Hc. simpl lift. rewrite bind_ret_l.
  apply bind_print_eq; cbv beta.
  cbn [for_each]. unfold index_of.
  now rewrite (index_from_absent train_states s 0 Hs).
Qed.

Lemma correlation_report_3_unknown_fit_state_witness :
  correlation_report_3 Ref.numerics 3 ["p"] Data.single ["q"]
  = ([Print [PyStr "test pearson correlation coefficients:"];
      Print [PyList (map PyStr ["p"])];
      Print [PyArr2 (Data.corr_of Data.single)]], Raise ValueError).
Proof.
  apply (correlation_report_3_unknown_fit_state Ref.numerics 3 ["p"]
           Data.single "q" [] (Data.corr_of Data.single)).
  - vm_compute. reflexivity.
  - intros [H|[]]. discriminate.
Defined.

(** X8. [correlation_report_3] returns exactly when there is no state to
    fit and the correlation of the training rows could be computed: with
    a state to fit it ends by an exception or not at all. *)
Theorem correlation_report_3_returns_iff (np : Numerics) (fuel : nat)
  (train_states : list string) (traindata : matrix)
  (fit_states : list string) :
  snd (correlation_report_3 np fuel train_states traindata fit_states) = Ret tt
  <-> fit_states = [] /\ exists c, corrcoef np traindata = inr c.
Proof.
  split.
  - intros H. destruct fit_states as [|s rest].
    + split; [reflexivity|]. unfold correlation_report_3 in H.
      rewrite !snd_bind_print, snd_bind in H.
      destruct (corrcoef np traindata) as [e|c]; [discriminate | now exists c].
    + assert (Hne : s :: rest <> []) by discriminate.
      now destruct (correlation_report_3_never_returns np fuel train_states
                      traindata (s :: rest) Hne tt).
  - intros [-> [c Hc]]. unfold correlation_report_3.
    rewrite !snd_bind_print, snd_bind, Hc. reflexivity.
Qed.

Lemma bind_never_returns {A B} (m : M A) (f g : A -> M B) :
  never_returns m -> bind m f = bind m g.
Proof.
  intros Hn. destruct m as [l [a| |]]; try reflexivity.
  now destruct (Hn a).
Qed.

Lemma bind_ext {A B} (m : M A) (f g : A -> M B) :
  (forall a, f a = g a) -> bind m f = bind m g.
Proof.
  intros H. destruct m as [l [a| |]]; try reflexivity.
  simpl. now rewrite H.
Qed.

(** X9. Only the first state to fit is ever processed: its loop has no
    exit, so the output and the outcome of [correlation_report_3] are
    those of the report on that state alone, whatever states follow. *)
Theorem correlation_report_3_fits_first_state_only (np : Numerics)
  (fuel : nat) (train_states : list string) (traindata : matrix)
  (s : string) (rest : list string) :
  correlation_report_3 np fuel train_states traindata (s :: rest)
  = correlation_report_3 np fuel train_states traindata [s].
Proof.
  unfold correlation_report_3.
  do 4 (apply bind_ext; intros ?).
  cbn [for_each]. apply bind_never_returns.
  do 3 (apply never_returns_bind_r; intros ?).
  apply never_returns_bind_l, while_true_never_returns.
Qed.

(** ** Invariants of the selector's loop (lines 181-215) *)

Lemma take_rows_returns (m : matrix) (rows : list Z) (sub : matrix) :
  snd (Np.take_rows m rows) = Ret sub ->
  length sub = length rows /\ Forall (fun r => In r m) sub.
Proof.
  unfold Np.take_rows. revert sub.
  induction rows as [|k rows IH]; intros sub H; simpl in H.
  - injection H as <-. split; [reflexivity | constructor].
  - rewrite snd_bind in H.
    destruct (py_nth_cases m k) as [(r & E & Hin)|E]; rewrite E in H;
      [|discriminate].
    simpl in H. rewrite snd_bind in H.
    destruct (snd (mapM (py_nth m) rows)) as [sub'| |]; try discriminate.
    simpl in H. injection H as <-.
    destruct (IH sub' eq_refl) as [Hl Hall].
    split; [simpl; now rewrite Hl | now constructor].
Qed.

Lemma fit_step_parts (np : Numerics) (traindata : matrix) (i : Z)
  (corr : matrix) (incl' : pyset) (st' : sel_state) :
  snd (fit_step np traindata i corr incl') = Ret st' ->
  exists p sub A est target,
    snd (index_of Z.eqb (sorted incl') i) = Ret p /\
    snd (Np.take_rows traindata (sorted incl')) = Ret sub /\
    snd (py_matvec A sub) = Ret est /\
    snd (py_nth traindata i) = Ret target /\
    snd (Np.bcast_sub target est) = Ret (error st').
Proof.
  unfold fit_step. rewrite snd_bind.
  destruct (snd (index_of Z.eqb (sorted incl') i)) as [p| |]; try discriminate.
  rewrite snd_bind.
  destruct (snd (Np.take_rows traindata (sorted incl'))) as [sub| |];
    try discriminate.
  rewrite snd_bind_print, snd_bind.
  destruct (snd (solve np p sub)) as [A| |]; try discriminate.
  rewrite snd_bind.
  destruct (snd (py_matvec A sub)) as [est| |] eqn:Ee; try discriminate.
  rewrite snd_bind.
  destruct (snd (py_nth traindata i)) as [target| |] eqn:Et; try discriminate.
  rewrite snd_bind. cbn [plot snd]. rewrite snd_bind.
  destruct (snd (Np.bcast_sub target est)) as [error'| |] eqn:Eb;
    try discriminate.
  rewrite snd_bind_print. simpl. intros H. injection H as <-.
  now exists p, sub, A, est, target.
Qed.

Lemma loop_body_error_length (np : Numerics) (train_states : list string)
  (traindata : matrix) (i : Z) (st st' : sel_state) (N : nat) :
  Np.rect N traindata ->
  snd (loop_body np train_states traindata i st) = Ret st' ->
  length (error st') = N.
Proof.
  intros Hr H. unfold loop_body in H. rewrite snd_bind in H.
  destruct (snd (select_step np train_states traindata st))
    as [[[corr m] incl']| |]; try discriminate.
  apply fit_step_parts in H
    as (p & sub & A & est & target & Hp & Hs & He & Ht & Hb).
  apply take_rows_returns in Hs as [Hl Hall].
  assert (Hne : sub <> []).
  { intros ->. unfold index_of in Hp.
    destruct (sorted incl'); [discriminate Hp | discriminate Hl]. }
  assert (Hsub : Np.rect N sub).
  { unfold Np.rect in *. rewrite Forall_forall in *.
    intros r Hin. apply Hr. now apply Hall. }
  assert (Hest : length est = N).
  { destruct A as [ | | | | | |a| | | | ]; try discriminate He.
    simpl in He. unfold Np.vecmat in He.
    destruct (Nat.eqb (length a) (length sub)); [|discriminate].
    injection He as <-.
    now rewrite length_map, length_transpose, (rect_ncols N sub Hsub Hne). }
  assert (Htg : length target = N).
  { destruct (py_nth_cases traindata i) as [(r & E & Hin)|E];
      rewrite E in Ht; [|discriminate].
    injection Ht as <-. unfold Np.rect in Hr.
    rewrite Forall_forall in Hr. now apply Hr. }
  unfold Np.bcast_sub in Hb.
  rewrite bcast_row_same in Hb by congruence.
  injection Hb as <-. rewrite length_zip_with. lia.
Qed.

(** X10. On a rectangular training matrix of N samples per row, the
    error row an iteration leaves has N entries again: the next
    iteration's [vstack] of the matrix and the error row is well shaped. *)
Theorem loop_body_keeps_error_row_shape (np : Numerics)
  (train_states : list string) (traindata : matrix) (i : Z)
  (st st' : sel_state) (N : nat) :
  Np.rect N traindata ->
  snd (loop_body np train_states traindata i st) = Ret st' ->
  length (error st') = N /\
  Np.vstack traindata (error st') = ret (traindata ++ [error st']).
Proof.
  intros Hr H.
  specialize (loop_body_error_length np train_states traindata i st st' N
                Hr H) as Hlen.
  split; [exact Hlen|]. apply vstack_ok. now rewrite Hlen.
Qed.

Lemma loop_body_keeps_error_row_shape_witness :
  length (error (Rank.returned (Data.start Data.single)
                   (loop_body Ref.numerics ["p"] Data.single 0
                      (Data.start Data.single)))) = 2%nat /\
  Np.vstack Data.single
    (error (Rank.returned (Data.start Data.single)
              (loop_body Ref.numerics ["p"] Data.single 0
                 (Data.start Data.single))))
  = ret (Data.single
         ++ [error (Rank.returned (Data.start Data.single)
                      (loop_body Ref.numerics ["p"] Data.single 0
                         (Data.start Data.single)))]).
Proof.
  apply (loop_body_keeps_error_row_shape Ref.numerics ["p"] Data.single 0
           (Data.start Data.single)).
  - repeat constructor.
  - vm_compute. reflexivity.
Defined.

Lemma scan_picks_candidate (corr : matrix) (incl : pyset) (js : list Z)
  (mi : Z) (ma : float) (m : Z) (a : float) :
  snd (scan corr incl js mi ma) = Ret (m, a) ->
  m = mi \/ In m js /\ set_in m incl = false.
Proof.
  revert mi ma. induction js as [|j js IH]; intros mi ma H; simpl in H.
  - injection H as <- _. now left.
  - destruct (set_in j incl) eqn:Ej.
    + destruct (IH _ _ H) as [->|[Hin Hm]]; [now left | right].
      split; [now right | exact Hm].
    + rewrite snd_bind in H.
      destruct (snd (Np.at2 corr (-1) j)) as [c| |]; try discriminate.
      destruct (Np.fgt (Np.fabs c) ma).
      * destruct (IH _ _ H) as [->|[Hin Hm]]; right;
          (split; [(now left) || (now right) | assumption]).
      * destruct (IH _ _ H) as [->|[Hin Hm]]; [now left | right].
        split; [now right | exact Hm].
Qed.

Lemma select_step_choice (np : Numerics) (train_states : list string)
  (traindata : matrix) (st : sel_state) (corr : matrix) (m : Z)
  (incl' : pyset) :
  snd (select_step np train_states traindata st) = Ret (corr, m, incl') ->
  m = -1 /\ incl' = set_add (-1) (incl st) \/
  0 <= m < Z.of_nat (length train_states) /\ set_in m (incl st) = false /\
  incl' = incl st ++ [m].
Proof.
  unfold select_step. rewrite snd_bind.
  destruct (snd (Np.vstack traindata (error st))) as [tde| |];
    try discriminate.
  rewrite snd_bind.
  destruct (snd (lift (corrcoef np tde))) as [c| |]; try discriminate.
  rewrite snd_bind.
  destruct (snd (py_nth c (-1))) as [last_row| |]; try discriminate.
  rewrite snd_bind_print, snd_bind.
  destruct (snd (scan c (incl st) (range (length train_states)) (-1)
                   PrimFloat.zero)) as [[m' a]| |] eqn:Es; try discriminate.
  rewrite snd_bind.
  destruct (snd (py_nth train_states m')) as [name| |]; try discriminate.
  rewrite snd_bind_print. simpl. intros H. injection H as _ <- <-.
  destruct (scan_picks_candidate _ _ _ _ _ _ _ Es) as [->|[Hin Hm]].
  - now left.
  - right. apply in_range in Hin. split; [exact Hin|]. split; [exact Hm|].
    unfold set_add. now rewrite Hm.
Qed.



(** X12. Once every row index is in the included set the selection has
    nothing left to choose: a completed iteration adds the sentinel -1
    and no row, and when -1 is in the set already the set is left as it
    was, while the loop goes on fitting. *)
Theorem loop_body_saturated (np : Numerics) (train_states : list string)
  (traindata : matrix) (i : Z) (st st' : sel_state) :
  (forall j, In j (range (length train_states)) ->
             set_in j (incl st) = true) ->
  snd (loop_body np train_states traindata i st) = Ret st' ->
  incl st' = set_add (-1) (incl st) /\
  (set_in (-1) (incl st) = true -> incl st' = incl st).
Proof.
  intros Hall H. unfold loop_body in H. rewrite snd_bind in H.
  destruct (snd (select_step np train_states traindata st))
    as [[[corr m] incl']| |] eqn:Es; try discriminate.
  apply fit_step_returns in H.
  assert (Hi : incl' = set_add (-1) (incl st)).
  { destruct (select_step_choice _ _ _ _ _ _ _ Es) as [[_ ->]|(Hm & Hn & _)];
      [reflexivity|].
    rewrite (Hall m) in Hn by now apply in_range.
    discriminate. }
  rewrite H, Hi. split; [reflexivity|].
  intros Hs. unfold set_add. now rewrite Hs.
Qed.

Lemma loop_body_saturated_witness :
  incl (Rank.returned (Data.start Data.single)
          (loop_body Ref.numerics ["p"] Data.single 0
             (Data.start Data.single)))
  = set_add (-1) (incl (Data.start Data.single)) /\
  (set_in (-1) (incl (Data.start Data.single)) = true ->
   incl (Rank.returned (Data.start Data.single)
           (loop_body Ref.numerics ["p"] Data.single 0
              (Data.start Data.single)))
   = incl (Data.start Data.single)).
Proof.
  apply (loop_body_saturated Ref.numerics ["p"] Data.single 0
           (Data.start Data.single)).
  - intros j [<-|[]]. reflexivity.
  - vm_compute. reflexivity.
Defined.

(** ** The conditions report (lines 102-106) *)

Lemma py_nth_of_nat {A} (l : list A) (k : nat) :
  py_nth l (Z.of_nat k)
  = match nth_error l k with Some a => ret a | None => raise IndexError end.
Proof.
  destruct (nth_error l k) as [a|] eqn:E.
  - assert (Hk : (k < length l)%nat) by (apply nth_error_Some; congruence).
    rewrite (py_nth_nat l k a Hk). f_equal.
    now apply nth_error_nth.
  - apply py_nth_out_of_range. apply nth_error_None in E. lia.
Qed.

Lemma py_nth_head {A} (l : list A) :
  py_nth l 0 = match l with a :: _ => ret a | [] => raise IndexError end.
Proof. change 0 with (Z.of_nat 0). rewrite py_nth_of_nat. now destruct l. Qed.

Lemma report_line (cl : list cond_entry) (c : flight_condition) (a : nat) :
  let m := print [PyInt (Z.of_nat a); cond_val c] ;;
           e <- py_nth cl (Z.of_nat a) ;;
           v0 <- py_nth (traindata_list e) 0 ;;
           print [PyStr "  Number of states:"; PyInt (Z.of_nat (length v0))] ;;
           print [PyStr "  Input state vectors:";
                  PyInt (Z.of_nat (length (traindata_list e)))] in
  if reportable cl a
  then snd m = Ret tt /\ length (fst m) = 3%nat
  else snd m = Raise IndexError.
Proof.
  cbv zeta. rewrite bind_print, py_nth_of_nat. unfold reportable.
  destruct (nth_error cl a) as [e|]; [|reflexivity].
  rewrite bind_ret_l, py_nth_head.
  destruct (traindata_list e) as [|v0 tl0]; [reflexivity|].
  rewrite bind_ret_l. split; reflexivity.
Qed.

Lemma report_lines (cl : list cond_entry) (conds : list flight_condition)
  (a : nat) :
  let m := for_each (combine (map Z.of_nat (seq a (length conds))) conds)
             (fun ic =>
                print [PyInt (fst ic); cond_val (snd ic)] ;;
                e <- py_nth cl (fst ic) ;;
                v0 <- py_nth (traindata_list e) 0 ;;
                print [PyStr "  Number of states:"; PyInt (Z.of_nat (length v0))] ;;
                print [PyStr "  Input state vectors:";
                       PyInt (Z.of_nat (length (traindata_list e)))]) in
  snd m = (if forallb (reportable cl) (seq a (length conds))
           then Ret tt else Raise IndexError) /\
  (forallb (reportable cl) (seq a (length conds)) = true ->
   length (fst m) = (3 * length conds)%nat).
Proof.
  revert a. induction conds as [|c conds IH]; intros a; cbv zeta.
  - split; reflexivity.
  - cbn [length seq map combine for_each forallb fst snd].
    specialize (report_line cl c a) as Hline. cbv zeta in Hline.
    destruct (IH (S a)) as [Hs Hl]. cbv zeta in Hs, Hl.
    rewrite snd_bind, fst_bind.
    destruct (reportable cl a).
    + destruct Hline as [-> Hlen]. cbn [andb].
      split; [exact Hs|]. intros Hall.
      rewrite length_app, Hlen, (Hl Hall). lia.
    + rewrite Hline. split; [reflexivity | discriminate].
Qed.

(** X13. The conditions report ends normally exactly when every
    configured condition has an entry in [cond_list] that holds at least
    one state vector, and it has then printed its heading and three lines
    per condition; otherwise it raises [IndexError] at the first condition
    without such an entry. *)
Theorem conditions_report_outcome (conds : list flight_condition)
  (cl : list cond_entry) :
  snd (conditions_report conds cl)
  = (if forallb (reportable cl) (seq 0 (length conds))
     then Ret tt else Raise IndexError) /\
  (forallb (reportable cl) (seq 0 (length conds)) = true ->
   length (fst (conditions_report conds cl)) = S (3 * length conds)).
Proof.
  unfold conditions_report, enumerate, range.
  rewrite snd_bind_print, bind_print. cbn [fst].
  destruct (report_lines cl conds 0) as [Hs Hl]. cbv zeta in Hs, Hl.
  split; [exact Hs|]. intros Hall. cbn [length]. f_equal. exact (Hl Hall).
Qed.

(** ** The run as a whole (lines 102-114 and 243-253) *)

Lemma eval_condition_returns (np : Numerics) (fuel : nat) (vehicle0 : string)
  (train_states0 output_states0 : list string) (i : Z)
  (cond : flight_condition) (g : globals) (u : unit) :
  res (eval_condition np fuel vehicle0 train_states0 output_states0 i cond g)
  = Ret u ->
  output_states0 = [].
Proof.
  unfold eval_condition, res.
  destruct (py_nth (cond_list _) i) as [l [e| |]]; try discriminate.
  destruct (correlation_report_3 np fuel train_states0
              (Np.transpose (traindata_list e)) output_states0)
    as [log r] eqn:E.
  simpl. intros ->. destruct u.
  apply (f_equal snd) in E. simpl in E.
  now apply correlation_report_3_returns_iff in E as [-> _].
Qed.

(** X14. The script ends normally only when it has no work to do: no
    flight condition is configured, or no state is to be predicted. With
    a condition and an output state a run ends by an exception or goes on
    fitting inside the first condition. *)
Theorem main_returns_only_without_work (np : Numerics) (fuel : nat)
  (cfg : config) (cl : list cond_entry) (u : unit) :
  res (main np fuel cfg cl) = Ret u ->
  conditions cfg = [] \/ output_states cfg = [].
Proof.
  unfold main.
  destruct (conditions_report (conditions cfg) cl) as [log [u0|x|]];
    try discriminate.
  intros H. destruct (conditions cfg) as [|c rest]; [now left | right].
  unfold enumerate, range in H. cbn [length seq map combine eval_conditions] in H.
  destruct (eval_condition np fuel (vehicle cfg) (train_states cfg)
              (output_states cfg) (Z.of_nat 0) c _) as [[l g] [u1|x|]] eqn:E;
    try (destruct (eval_conditions _ _ _ _ _ _ _) as [[? ?] ?]; discriminate);
    try discriminate.
  apply (f_equal res) in E. unfold res at 2 in E. simpl in E.
  now apply eval_condition_returns in E.
Qed.

Lemma main_returns_only_without_work_witness :
  conditions Run.cfg_no_output = [] \/ output_states Run.cfg_no_output = [].
Proof.
  apply (main_returns_only_without_work Ref.numerics 2 Run.cfg_no_output
           [Run.entry; Run.entry] tt).
  vm_compute. reflexivity.
Defined.

Lemma store_sysid_lookup (cl : list cond_entry) (i : Z) (v : string) (k : nat) :
  0 <= i ->
  nth_error (store_sysid cl i v) k
  = if Nat.eqb k (Z.to_nat i)
    then option_map (fun e => with_sysid e v) (nth_error cl k)
    else nth_error cl k.
Proof.
  revert i k. induction cl as [|e cl IH]; intros i k Hi; simpl.
  - destruct (Nat.eqb k (Z.to_nat i)); now destruct k.
  - destruct (Z.eqb_spec i 0) as [->|Hne].
    + destruct k; reflexivity.
    + replace (Z.to_nat i) with (S (Z.to_nat (i - 1))) by lia.
      destruct k as [|k]; [reflexivity|].
      cbn [nth_error Nat.eqb]. apply IH. lia.
Qed.

Lemma store_sysid_keeps_data (cl : list cond_entry) (i : Z) (v : string) :
  map traindata_list (store_sysid cl i v) = map traindata_list cl /\
  map coeff (store_sysid cl i v) = map coeff cl.
Proof.
  revert i. induction cl as [|e cl IH]; intros i; simpl; [now split|].
  destruct (i =? 0); simpl; [now split|].
  destruct (IH (i - 1)) as [-> ->]. now split.
Qed.

Lemma eval_condition_cond_list (np : Numerics) (fuel : nat) (vehicle0 : string)
  (train_states0 output_states0 : list string) (i : Z)
  (cond : flight_condition) (g : globals) :
  cond_list (glob (eval_condition np fuel vehicle0 train_states0
                     output_states0 i cond g))
  = match snd (py_nth (cond_list g) i) with
    | Ret _ => store_sysid (cond_list g) i vehicle0
    | _ => cond_list g
    end.
Proof.
  unfold eval_condition, glob. cbn [cond_list].
  destruct (py_nth (cond_list g) i) as [l [e| |]]; try reflexivity.
  now destruct (correlation_report_3 _ _ _ _ _).
Qed.

(** X15. Evaluating condition [i], [i] an index of [cond_list], stores
    the system-identification object in entry [i] before the report
    starts: however the report ends, entry [i] holds it, with its
    training data and coefficients as they were, and every other entry is
    untouched. *)
Theorem eval_condition_stores_sysid (np : Numerics) (fuel : nat)
  (vehicle0 : string) (train_states0 output_states0 : list string) (i : Z)
  (cond : flight_condition) (g : globals) (e : cond_entry) :
  0 <= i ->
  nth_error (cond_list g) (Z.to_nat i) = Some e ->
  nth_error (cond_list (glob (eval_condition np fuel vehicle0 train_states0
                                output_states0 i cond g))) (Z.to_nat i)
  = Some (with_sysid e vehicle0) /\
  forall k, k <> Z.to_nat i ->
    nth_error (cond_list (glob (eval_condition np fuel vehicle0 train_states0
                                  output_states0 i cond g))) k
    = nth_error (cond_list g) k.
Proof.
  intros Hi He.
  assert (Hp : snd (py_nth (cond_list g) i) = Ret e).
  { rewrite <- (Z2Nat.id i Hi). now rewrite py_nth_of_nat, He. }
  rewrite eval_condition_cond_list, Hp.
  split.
  - rewrite store_sysid_lookup by exact Hi. now rewrite Nat.eqb_refl, He.
  - intros k Hk. rewrite store_sysid_lookup by exact Hi.
    now destruct (Nat.eqb_spec k (Z.to_nat i)).
Qed.

Lemma eval_condition_stores_sysid_witness :
  nth_error (cond_list (glob (eval_condition Ref.numerics 2 "wing"
                                ["p"; "q"] ["p"] 1 (Run.flaps 0.5)
                                (Run.start_globals Run.cfg
                                   [Run.entry; Run.entry])))) (Z.to_nat 1)
  = Some (with_sysid Run.entry "wing") /\
  forall k, k <> Z.to_nat 1 ->
    nth_error (cond_list (glob (eval_condition Ref.numerics 2 "wing"
                                  ["p"; "q"] ["p"] 1 (Run.flaps 0.5)
                                  (Run.start_globals Run.cfg
                                     [Run.entry; Run.entry])))) k
    = nth_error (cond_list (Run.start_globals Run.cfg [Run.entry; Run.entry])) k.
Proof.
  apply (eval_condition_stores_sysid Ref.numerics 2 "wing" ["p"; "q"] ["p"] 1
           (Run.flaps 0.5) (Run.start_globals Run.cfg [Run.entry; Run.entry])
           Run.entry).
  - lia.
  - reflexivity.
Defined.

Lemma eval_conditions_keeps_data (np : Numerics) (fuel : nat)
  (vehicle0 : string) (train_states0 output_states0 : list string)
  (conds : list (Z * flight_condition)) (g : globals) :
  map traindata_list
    (cond_list (glob (eval_conditions np fuel vehicle0 train_states0
                        output_states0 conds g)))
  = map traindata_list (cond_list g) /\
  map coeff
    (cond_list (glob (eval_conditions np fuel vehicle0 train_states0
                        output_states0 conds g)))
  = map coeff (cond_list g).
Proof.
  revert g. induction conds as [|[i cond] conds IH]; intros g; [now split|].
  cbn [eval_conditions].
  assert (Hc : map traindata_list
                 (cond_list (glob (eval_condition np fuel vehicle0
                                     train_states0 output_states0 i cond g)))
               = map traindata_list (cond_list g) /\
               map coeff
                 (cond_list (glob (eval_condition np fuel vehicle0
                                     train_states0 output_states0 i cond g)))
               = map coeff (cond_list g)).
  { rewrite eval_condition_cond_list.
    destruct (snd (py_nth (cond_list g) i)); try (now split).
    apply store_sysid_keeps_data. }
  destruct (eval_condition np fuel vehicle0 train_states0 output_states0
              i cond g) as [[log g'] [u|x|]]; unfold glob in Hc |- *;
    cbn [fst snd] in Hc |- *; try exact Hc.
  specialize (IH g').
  destruct (eval_conditions np fuel vehicle0 train_states0 output_states0
              conds g') as [[log' g''] r].
  unfold glob in IH. cbn [fst snd] in IH |- *.
  destruct IH as [-> ->]. exact Hc.
Qed.

(** X16. A run never changes the training data: whatever it does and
    however it ends, every entry of [cond_list] holds the state vectors
    and the coefficients it held at the start. *)
Theorem main_keeps_training_data (np : Numerics) (fuel : nat) (cfg : config)
  (cl : list cond_entry) :
  map traindata_list (cond_list (glob (main np fuel cfg cl)))
  = map traindata_list cl /\
  map coeff (cond_list (glob (main np fuel cfg cl))) = map coeff cl.
Proof.
  unfold main.
  destruct (conditions_report (conditions cfg) cl) as [log [u|x|]];
    try (now split).
  set (g1 := {| root_dict := _; condition_dict := []; cond_list := cl |}).
  specialize (eval_conditions_keeps_data np fuel (vehicle cfg)
                (train_states cfg) (output_states cfg)
                (enumerate (conditions cfg)) g1) as H.
  destruct (eval_conditions _ _ _ _ _ _ g1) as [[log' g'] r].
  exact H.
Qed.

(** ** The ranking pass on a square correlation matrix (lines 217-241) *)

Lemma py_nth_in_range {A} (l : list A) (k : Z) :
  0 <= k < Z.of_nat (length l) -> exists a, py_nth l k = ret a /\ In a l.
Proof.
  intros Hk. rewrite <- (Z2Nat.id k) by lia. rewrite py_nth_of_nat.
  destruct (nth_error l (Z.to_nat k)) as [a|] eqn:E.
  - exists a. split; [reflexivity | now apply nth_error_In in E].
  - apply nth_error_None in E. lia.
Qed.

Section RankingRuns.

Variable corr : matrix.
Variable n : nat.
Hypothesis corr_rows : length corr = n.
Hypothesis corr_square : Np.rect n corr.

Lemma at2_in_range (r c : Z) :
  0 <= r < Z.of_nat n -> 0 <= c < Z.of_nat n ->
  exists x, Np.at2 corr r c = ret x.
Proof.
  intros Hr Hc. unfold Np.at2.
  destruct (py_nth_in_range corr r) as (row & -> & Hin); [now rewrite corr_rows|].
  rewrite bind_ret_l.
  assert (Hl : length row = n).
  { pose proof corr_square as Hsq. unfold Np.rect in Hsq.
    rewrite Forall_forall in Hsq. now apply Hsq. }
  destruct (py_nth_in_range row c) as (x & -> & _); [now rewrite Hl|].
  now exists x.
Qed.

Lemma max_corr_with_in_range (j : Z) (ks : list Z) (mc : float) :
  0 <= j < Z.of_nat n -> Forall (fun k => 0 <= k < Z.of_nat n) ks ->
  exists m, max_corr_with corr j ks mc = ret m.
Proof.
  intros Hj Hks. revert mc. induction Hks as [|k ks Hk _ IH]; intros mc; simpl.
  - now exists mc.
  - destruct (at2_in_range j k Hj Hk) as (x & ->). rewrite bind_ret_l.
    destruct (Np.fgt (Np.fabs x) mc); apply IH.
Qed.

Lemma rescore_in_range (i : Z) (ranked : list Z) (rem : list (Z * float)) :
  0 <= i < Z.of_nat n ->
  Forall (fun k => 0 <= k < Z.of_nat n) ranked ->
  Forall (fun k => 0 <= k < Z.of_nat n) (map fst rem) ->
  exists rem', rescore corr i ranked rem = ret rem'.
Proof.
  intros Hi Hr Hrem. unfold rescore.
  induction rem as [|[j g] rem IH]; simpl; [now exists []|].
  simpl in Hrem. apply Forall_cons_iff in Hrem as [Hj Hrem'].
  unfold score at 1.
  destruct (max_corr_with_in_range j ranked PrimFloat.zero Hj Hr) as (m & ->).
  rewrite bind_ret_l.
  destruct (at2_in_range i j Hi Hj) as (x & ->). rewrite !bind_ret_l.
  destruct (IH Hrem') as (rem' & ->). rewrite bind_ret_l.
  now eexists.
Qed.

Variable train_states : list string.
Variable i : Z.
Hypothesis i_in_range : 0 <= i < Z.of_nat n.
Variable row : vec.
Hypothesis row_length : length row = n.

(** A round on a non-empty pool: the chosen row is printed and moved when
    it has a name, and [train_states[j]] raises when it has none. *)
Lemma rank_body_cases (st : rank_state) :
  rank_inv n st -> rk_rem st <> [] ->
  exists rem' j g,
    map fst rem' = map fst (rk_rem st) /\ In (j, g) rem' /\
    (0 <= j < Z.of_nat (length train_states) /\
     (exists ev,
        rank_body train_states corr i row st
        = ([ev], Ret {| rk_incl := rk_incl st ++ [j];
                        rk_rem := dict_del j rem' |}) /\
        is_ranking ev = true)
     \/
     Z.of_nat (length train_states) <= j /\
     rank_body train_states corr i row st = ([], Raise IndexError)).
Proof.
  intros (Hnd & Hincl & Hrem) Hne.
  destruct (rescore_in_range i (rk_incl st) (rk_rem st) i_in_range Hincl Hrem)
    as (rem' & Er).
  assert (Hk : map fst rem' = map fst (rk_rem st)).
  { apply (rescore_scored corr i (rk_incl st)). now rewrite Er. }
  unfold rank_body. rewrite Er, bind_ret_l.
  destruct (sorted_by_score rem') as [|[j g] t] eqn:Es.
  - destruct (rk_rem st) as [|x rem]; [congruence|].
    destruct rem' as [|y rem']; [discriminate Hk|].
    assert (Hy : In y (sorted_by_score (y :: rem')))
      by (apply in_sorted_by_score; now left).
    rewrite Es in Hy. destruct Hy.
  - assert (Hin : In (j, g) rem')
      by (apply in_sorted_by_score; rewrite Es; now left).
    assert (Hj : 0 <= j < Z.of_nat n).
    { rewrite Forall_forall in Hrem. apply Hrem. rewrite <- Hk.
      apply in_map_iff. now exists (j, g). }
    exists rem', j, g. split; [exact Hk|]. split; [exact Hin|].
    destruct (py_nth_in_range row j) as (r & -> & _);
      [now rewrite row_length|].
    rewrite bind_ret_l.
    destruct (Z.lt_ge_cases j (Z.of_nat (length train_states))) as [Hlt|Hge].
    + left. split; [lia|].
      destruct (py_nth_in_range train_states j) as (name & -> & _); [lia|].
      rewrite bind_ret_l. eexists. split; reflexivity.
    + right. split; [exact Hge|].
      now rewrite py_nth_out_of_range by (right; exact Hge).
Qed.

Lemma rank_inv_step (st : rank_state) (rem' : list (Z * float)) (j : Z)
  (g : float) :
  rank_inv n st -> map fst rem' = map fst (rk_rem st) -> In (j, g) rem' ->
  rank_inv n {| rk_incl := rk_incl st ++ [j]; rk_rem := dict_del j rem' |} /\
  length (rk_rem st) = S (length (dict_del j rem')) /\
  (forall k, k <> j -> In k (map fst (rk_rem st)) ->
             In k (map fst (dict_del j rem'))).
Proof.
  intros (Hnd & Hincl & Hrem) Hk Hin.
  rewrite <- Hk in Hnd, Hrem.
  destruct (dict_del_keys j g rem' Hnd Hin) as [Hp Hn].
  split; [split; [exact Hn | split]|split]; cbn [rk_incl rk_rem].
  - apply Forall_app. split; [exact Hincl|]. constructor; [|constructor].
    rewrite Forall_forall in Hrem. apply Hrem.
    apply in_map_iff. now exists (j, g).
  - rewrite Forall_forall in *. intros k Hin'. apply Hrem.
    now apply (dict_del_subset j).
  - apply Permutation_length in Hp. simpl in Hp.
    rewrite !length_map in Hp. rewrite <- Hp.
    now rewrite <- (length_map fst rem'), Hk, length_map.
  - intros k Hkj Hkin. rewrite <- Hk in Hkin.
    apply (Permutation_in _ Hp) in Hkin. destruct Hkin; [congruence | assumption].
Qed.

(** With a row without a name in the pool the loop ends by the
    [IndexError] of [train_states[j]]: that row has to be chosen before the
    pool is empty. *)
Lemma ranking_loop_unnamed (fuel : nat) (st : rank_state) (m : Z) :
  rank_inv n st -> In m (map fst (rk_rem st)) ->
  Z.of_nat (length train_states) <= m ->
  (length (rk_rem st) < fuel)%nat ->
  exists entries,
    while fuel (fun s => negb (is_empty (rk_rem s)))
      (rank_body train_states corr i row) st = (entries, Raise IndexError) /\
    forallb is_ranking entries = true.
Proof.
  revert st. induction fuel as [|fuel IH]; intros st Hinv Hm Hge Hf; [lia|].
  cbn [while].
  assert (Hne : rk_rem st <> []) by (intros E; rewrite E in Hm; destruct Hm).
  destruct (rk_rem st) as [|x rem] eqn:Erem; [congruence|].
  cbn [is_empty negb]. rewrite <- Erem in Hm, Hf.
  destruct (rank_body_cases st Hinv)
    as (rem' & j & g & Hk & Hin & [[Hj (ev & Hb & Hev)]|[Hj Hb]]);
    [now rewrite Erem | |].
  - destruct (rank_inv_step st rem' j g Hinv Hk Hin) as (Hinv' & Hl & Hkeep).
    destruct (IH _ Hinv') as (entries & Hw & Hall).
    + apply Hkeep; [lia | exact Hm].
    + exact Hge.
    + cbn [rk_rem]. lia.
    + exists (ev :: entries). rewrite Hb. unfold bind. rewrite Hw.
      split; [reflexivity|]. simpl. now rewrite Hev, Hall.
  - exists []. rewrite Hb. split; reflexivity.
Qed.

Hypothesis names : (n <= length train_states)%nat.

Lemma rank_body_in_range (st : rank_state) :
  rank_inv n st -> rk_rem st <> [] ->
  exists ev st',
    rank_body train_states corr i row st = ([ev], Ret st') /\
    is_ranking ev = true /\ rank_inv n st' /\
    length (rk_rem st) = S (length (rk_rem st')).
Proof.
  intros Hinv Hne.
  destruct (rank_body_cases st Hinv Hne)
    as (rem' & j & g & Hk & Hin & [[Hj (ev & Hb & Hev)]|[Hj Hb]]).
  - destruct (rank_inv_step st rem' j g Hinv Hk Hin) as (Hinv' & Hl & _).
    exists ev. eexists. split; [exact Hb|]. split; [exact Hev|].
    split; [exact Hinv' | exact Hl].
  - exfalso. destruct Hinv as (_ & _ & Hrem).
    rewrite Forall_forall in Hrem.
    assert (0 <= j < Z.of_nat n).
    { apply Hrem. rewrite <- Hk. apply in_map_iff. now exists (j, g). }
    lia.
Qed.

Lemma ranking_loop_in_range (fuel : nat) (st : rank_state) :
  rank_inv n st -> (length (rk_rem st) < fuel)%nat ->
  exists entries stf,
    while fuel (fun s => negb (is_empty (rk_rem s)))
      (rank_body train_states corr i row) st = (entries, Ret stf) /\
    length entries = length (rk_rem st) /\
    forallb is_ranking entries = true.
Proof.
  revert st. induction fuel as [|fuel IH]; intros st Hinv Hf; [lia|].
  cbn [while]. destruct (rk_rem st) as [|x rem] eqn:Erem.
  - exists [], st. repeat split.
  - cbn [is_empty negb].
    destruct (rank_body_in_range st Hinv) as (ev & st' & Hb & Hev & Hinv' & Hl);
      [now rewrite Erem|].
    rewrite Hb. rewrite Erem in Hl. simpl in Hl, Hf.
    destruct (IH st' Hinv') as (entries & stf & Hw & Hlen & Hall); [lia|].
    exists (ev :: entries), stf. unfold bind. rewrite Hw.
    split; [reflexivity|]. split; [simpl; lia|].
    simpl. now rewrite Hev, Hall.
Qed.

End RankingRuns.

Lemma NoDup_range (n : nat) : NoDup (range n).
Proof.
  unfold range. generalize 0%nat.
  induction n as [|n IH]; intros a; simpl; constructor; [|apply IH].
  intros H. apply in_map_iff in H as (k & Hk & Hin).
  apply in_seq in Hin. lia.
Qed.

Lemma filter_others_length (l : list Z) (i : Z) :
  NoDup l -> In i l ->
  S (length (filter (fun j => negb (i =? j)) l)) = length l.
Proof.
  induction l as [|a l IH]; intros Hnd Hin; [destruct Hin|].
  inversion Hnd as [|? ? Ha Hnd']; subst. simpl.
  destruct (Z.eqb_spec i a) as [->|Hne]; simpl.
  - f_equal. f_equal. apply forallb_filter_id. apply forallb_forall.
    intros j Hj. destruct (Z.eqb_spec a j) as [->|]; [contradiction | reflexivity].
  - f_equal. apply IH; [exact Hnd'|]. destruct Hin; [congruence | assumption].
Qed.

Lemma bind_print_no_nl_eq {B} (args : list pyval) (k : unit -> M B) l r :
  k tt = (l, r) -> bind (print_no_nl args) k = (PrintNoNl args :: l, r).
Proof. intros H. unfold bind, print_no_nl. now rewrite H. Qed.

(** X17. As written, the ranking pass for target row [i] of a square
    correlation matrix of n rows, with a name for every row, runs without
    an exception and ends within n rounds: it prints the target's name,
    then one entry for each of the n - 1 other rows, then the end of the
    line. *)
Theorem ranking_pass_returns (fuel : nat) (train_states : list string)
  (corr : matrix) (i : Z) :
  Np.rect (length corr) corr ->
  0 <= i < Z.of_nat (length corr) ->
  (length corr <= length train_states)%nat ->
  (length corr <= fuel)%nat ->
  exists name entries,
    py_nth train_states i = ret name /\
    second_pass fuel train_states corr i
    = (PrintNoNl [PyStr (name ++ ": ")] :: entries ++ [Print [PyStr ""]],
       Ret tt) /\
    length entries = (length corr - 1)%nat /\
    forallb is_ranking entries = true.
Proof.
  intros Hsq Hi Hn Hf.
  destruct (py_nth_in_range train_states i) as (name & En & _); [lia|].
  destruct (py_nth_in_range corr i Hi) as (row & Er & Hin).
  assert (Hrow : length row = length corr).
  { unfold Np.rect in Hsq. rewrite Forall_forall in Hsq. now apply Hsq. }
  set (pool := filter (fun j => negb (i =? j)) (range (length row))).
  set (st0 := {| rk_incl := [];
                 rk_rem := map (fun j => (j, PrimFloat.zero)) pool |}).
  assert (Hkeys : map fst (rk_rem st0) = pool).
  { cbn [st0 rk_rem]. rewrite map_map. apply map_id. }
  assert (Hpool : S (length pool) = length corr).
  { unfold pool. rewrite filter_others_length.
    - unfold range. now rewrite length_map, length_seq.
    - apply NoDup_range.
    - apply in_range. lia. }
  assert (Hinv : rank_inv (length corr) st0).
  { split; [|split].
    - rewrite Hkeys. apply NoDup_filter, NoDup_range.
    - constructor.
    - rewrite Hkeys, Forall_forall. intros k Hk.
      apply filter_In in Hk as [Hk _]. apply in_range in Hk. lia. }
  destruct (ranking_loop_in_range corr (length corr) eq_refl Hsq train_states
              i Hi row Hrow Hn fuel st0 Hinv)
    as (entries & stf & Hw & Hlen & Hall).
  { cbn [st0 rk_rem]. rewrite length_map. lia. }
  exists name, entries. split; [exact En|]. split; [|split; [|exact Hall]].
  - unfold second_pass. rewrite En, bind_ret_l.
    apply bind_print_no_nl_eq. rewrite Er, bind_ret_l.
    fold pool. fold st0. now rewrite Hw.
  - rewrite Hlen. cbn [st0 rk_rem]. rewrite length_map. lia.
Qed.

Lemma ranking_pass_returns_witness :
  exists name entries,
    py_nth ["p"; "a"; "b"] 0 = ret name /\
    second_pass 3 ["p"; "a"; "b"] Rank.opposed 0
    = (PrintNoNl [PyStr (name ++ ": ")] :: entries ++ [Print [PyStr ""]],
       Ret tt) /\
    length entries = (length Rank.opposed - 1)%nat /\
    forallb is_ranking entries = true.
Proof.
  apply (ranking_pass_returns 3 ["p"; "a"; "b"] Rank.opposed 0).
  - repeat constructor.
  - simpl. lia.
  - simpl. lia.
  - simpl. lia.
Defined.

(** ** An iteration that completes (lines 181-215) *)

Lemma item_in {A} (l : list A) (d : A) (k : Z) :
  l <> [] -> -1 <= k < Z.of_nat (length l) -> In (item l d k) l.
Proof.
  intros Hl Hk. unfold item. destruct (Z.ltb_spec k 0).
  - destruct (exists_last Hl) as (l' & a & ->). rewrite last_last.
    apply in_or_app. right. now left.
  - apply nth_In. lia.
Qed.

(** X18. An iteration of the selector's loop runs to its end without an
    exception when the numeric library answers in shape: on a rectangular
    training matrix with a name per row and at least two samples, from a
    state whose error row has one entry per sample and whose included set
    holds row [i], with a correlation matrix wide enough for the scan and
    SVD factors of thin shape for the rows to fit. The included set it
    leaves is the old one with the chosen index, its error row has one
    entry per sample. *)
Theorem loop_body_completes (np : Numerics) (train_states : list string)
  (traindata : matrix) (i : Z) (st : sel_state) (corr : matrix) (N : nat)
  (u : matrix) (s : vec) (vh : matrix) :
  let incl' := set_add (chosen train_states corr (incl st)) (incl st) in
  let sub := map (item traindata []) (sorted incl') in
  let K := Nat.min (length sub) (N - 1) in
  length traindata = length train_states ->
  Np.rect N traindata -> (2 <= N)%nat ->
  length (error st) = N ->
  Forall (fun k => -1 <= k < Z.of_nat (length train_states)) (incl st) ->
  0 <= i < Z.of_nat (length train_states) ->
  set_in i (incl st) = true ->
  corrcoef np (traindata ++ [error st]) = inr corr ->
  corr <> [] ->
  (length train_states <= length (last corr []))%nat ->
  svd np (Spec.X_block N sub) = inr (u, s, vh) ->
  length u = length sub -> Np.rect K u -> length s = K ->
  length vh = K -> Np.rect (N - 1) vh ->
  exists st',
    snd (loop_body np train_states traindata i st) = Ret st' /\
    incl st' = incl' /\ length (error st') = N.
Proof.
  intros incl' sub K Hlen Hr HN He Hincl Hi Hin Hc Hne Hcl Hsvd Hu Hur Hs
    Hvh Hvhr.
  assert (Hts : train_states <> []) by (intros ->; simpl in Hi; lia).
  assert (Htd : traindata <> []).
  { intros ->. destruct train_states; [congruence | discriminate]. }
  assert (Hsel : select_step np train_states traindata st
                 = ([Print [PyArr1 (last corr [])];
                     Print [PyStr "max correlation parameter:";
                            PyInt (chosen train_states corr (incl st));
                            PyStr (item train_states ""
                                     (chosen train_states corr (incl st)))]],
                    Ret (corr, chosen train_states corr (incl st), incl'))).
  { apply select_step_run; try assumption. now rewrite He. }
  assert (Hall : forall k, In k (sorted incl') ->
                   -1 <= k < Z.of_nat (length traindata)).
  { intros k Hk. apply (proj1 (in_sorted _ _)) in Hk.
    apply in_set_add in Hk as [->|Hk].
    - destruct (chosen_bounds train_states corr (incl st)) as [H|[H _]];
        [lia | contradiction].
    - rewrite Forall_forall in Hincl. rewrite Hlen. now apply Hincl. }
  assert (Hi' : In i (sorted incl')).
  { apply in_sorted, in_set_add. right. now apply set_in_iff. }
  destruct (index_from_in (sorted incl') i 0 Hi') as (p & Hp).
  assert (Hpos : 0 <= p < Z.of_nat (length sub)).
  { assert (Hq : snd (index_from Z.eqb (sorted incl') i 0) = Ret p)
      by now rewrite Hp.
    apply index_from_position in Hq as [Hq Hn]. rewrite Z.sub_0_r in Hn.
    assert (Z.to_nat p < length (sorted incl'))%nat
      by (apply nth_error_Some; congruence).
    unfold sub. rewrite length_map. lia. }
  assert (Htake : Np.take_rows traindata (sorted incl') = ret sub).
  { apply take_rows_items; [exact Htd|]. rewrite Forall_forall. exact Hall. }
  assert (Hsub : Np.rect N sub).
  { unfold Np.rect, sub. rewrite Forall_forall. intros r Hrin.
    apply in_map_iff in Hrin as (k & <- & Hk).
    unfold Np.rect in Hr. rewrite Forall_forall in Hr. apply Hr.
    apply item_in; [exact Htd | now apply Hall]. }
  assert (Hrows : (1 <= length sub)%nat) by lia.
  specialize (solve_run np sub p (length sub) N u s vh eq_refl Hsub Hrows HN
                Hpos Hsvd Hu Hur Hs Hvh Hvhr) as Hsolve.
  cbv zeta in Hsolve.
  set (A := Spec.operator (length sub)
              (Spec.Y_block N sub (Z.to_nat p)) u s vh) in Hsolve.
  assert (HA : length A = length sub).
  { apply (length_operator (length sub) K); auto. unfold K. lia. }
  destruct (py_nth_in_range traindata i) as (target & Et & Htin); [lia|].
  assert (Htg : length target = N).
  { unfold Np.rect in Hr. rewrite Forall_forall in Hr. now apply Hr. }
  assert (Hest : length (Spec.row_times A sub) = N).
  { unfold Spec.row_times. rewrite length_map, length_transpose.
    apply rect_ncols; [exact Hsub|]. intros E. rewrite E in Hrows.
    simpl in Hrows. lia. }
  exists {| incl := incl';
            error := Np.zip_with Np.fsub target (Spec.row_times A sub);
            corr := corr |}.
  split; [|split; [reflexivity|]].
  - unfold loop_body. rewrite snd_bind, Hsel. cbn [snd].
    unfold fit_step, index_of. rewrite Hp, bind_ret_l, Htake, bind_ret_l.
    rewrite snd_bind_print, snd_bind, Hsolve. cbn [snd py_matvec].
    rewrite (vecmat_ok A sub HA), bind_ret_l, Et, bind_ret_l.
    rewrite snd_bind. cbn [plot snd]. unfold Np.bcast_sub.
    rewrite bcast_row_same by congruence.
    rewrite bind_ret_l, snd_bind_print. reflexivity.
  - cbn [error]. rewrite length_zip_with. lia.
Qed.

Lemma loop_body_completes_witness :
  exists st',
    snd (loop_body Ref.numerics ["p"] Data.single 0 (Data.start Data.single))
    = Ret st' /\
    incl st' = set_add (chosen ["p"] (Data.corr1 Data.single)
                          (incl (Data.start Data.single)))
                 (incl (Data.start Data.single)) /\
    length (error st') = 2%nat.
Proof.
  apply (loop_body_completes Ref.numerics ["p"] Data.single 0
           (Data.start Data.single) (Data.corr1 Data.single) 2
           (map (fun y => [y]) (Ref.unit [3; 3]%float))
           [Ref.norm2 [3; 3]%float] [[1]]%float).
  - reflexivity.
  - repeat constructor.
  - lia.
  - reflexivity.
  - repeat constructor; lia.
  - simpl. lia.
  - reflexivity.
  - vm_compute. reflexivity.
  - vm_compute. discriminate.
  - vm_compute. lia.
  - vm_compute. reflexivity.
  - vm_compute. reflexivity.
  - vm_compute. repeat constructor.
  - vm_compute. reflexivity.
  - vm_compute. reflexivity.
  - vm_compute. repeat constructor.
Defined.

(** ** The ranking pass on a matrix with more rows than names *)

(** X19. As written, the ranking pass raises [IndexError] when the
    correlation matrix it reads has more rows than there are training
    state names: every row other than the target is pooled, and the round
    that chooses a row without a name fails at [train_states[j]]. The
    matrix [corr] holds after an iteration of the loop (line 186) is of
    that kind: it has a row for the error signal besides the training
    rows. *)
Theorem ranking_pass_fails_on_unnamed_row (fuel : nat)
  (train_states : list string) (corr : matrix) (i : Z) :
  Np.rect (length corr) corr ->
  0 <= i < Z.of_nat (length train_states) ->
  (length train_states < length corr)%nat ->
  (length corr <= fuel)%nat ->
  snd (second_pass fuel train_states corr i) = Raise IndexError /\
  forallb is_ranking (fst (second_pass fuel train_states corr i)) = true.
Proof.
  intros Hsq Hi Hn Hf.
  destruct (py_nth_in_range train_states i Hi) as (name & En & _).
  assert (Hi' : 0 <= i < Z.of_nat (length corr)) by lia.
  destruct (py_nth_in_range corr i Hi') as (row & Er & Hin).
  assert (Hrow : length row = length corr).
  { unfold Np.rect in Hsq. rewrite Forall_forall in Hsq. now apply Hsq. }
  set (pool := filter (fun j => negb (i =? j)) (range (length row))).
  set (st0 := {| rk_incl := [];
                 rk_rem := map (fun j => (j, PrimFloat.zero)) pool |}).
  assert (Hkeys : map fst (rk_rem st0) = pool).
  { cbn [st0 rk_rem]. rewrite map_map. apply map_id. }
  assert (Hpool : (length pool <= length corr)%nat).
  { unfold pool. rewrite <- Hrow.
    specialize (filter_length_le (fun j => negb (i =? j)) (range (length row))).
    unfold range at 2. now rewrite length_map, length_seq. }
  assert (Hinv : rank_inv (length corr) st0).
  { split; [|split].
    - rewrite Hkeys. apply NoDup_filter, NoDup_range.
    - constructor.
    - rewrite Hkeys, Forall_forall. intros k Hk.
      apply filter_In in Hk as [Hk _]. apply in_range in Hk. lia. }
  assert (Hm : In (Z.of_nat (length train_states)) (map fst (rk_rem st0))).
  { rewrite Hkeys. apply filter_In. split; [apply in_range; lia|].
    apply negb_true_iff, Z.eqb_neq. lia. }
  destruct (ranking_loop_unnamed corr (length corr) eq_refl Hsq train_states
              i Hi' row Hrow fuel st0 (Z.of_nat (length train_states))
              Hinv Hm (Z.le_refl _))
    as (entries & Hw & Hall).
  { cbn [st0 rk_rem]. rewrite length_map.
    assert (S (length pool) = length corr); [|lia].
    unfold pool. rewrite filter_others_length.
    - unfold range. now rewrite length_map, length_seq.
    - apply NoDup_range.
    - apply in_range. lia. }
  assert (E : second_pass fuel train_states corr i
              = (PrintNoNl [PyStr (name ++ ": ")] :: entries, Raise IndexError)).
  { unfold second_pass. rewrite En, bind_ret_l.
    apply bind_print_no_nl_eq. rewrite Er, bind_ret_l.
    fold pool. fold st0. now rewrite Hw. }
  rewrite E. split; [reflexivity|]. simpl. exact Hall.
Qed.

Lemma ranking_pass_fails_on_unnamed_row_witness :
  snd (second_pass 3 ["p"; "a"] Rank.opposed 0) = Raise IndexError /\
  forallb is_ranking (fst (second_pass 3 ["p"; "a"] Rank.opposed 0)) = true.
Proof.
  apply (ranking_pass_fails_on_unnamed_row 3 ["p"; "a"] Rank.opposed 0).
  - repeat constructor.
  - simpl. lia.
  - simpl. lia.
  - simpl. lia.
Defined.

(** ** The exceptions of [solve] *)

Lemma raises_only_bind {A B} (P : exn -> Prop) (m : M A) (f : A -> M B) :
  raises_only P m -> (forall a, raises_only P (f a)) ->
  raises_only P (bind m f).
Proof.
  intros Hm Hf e. rewrite snd_bind.
  destruct (snd m) as [a|x|] eqn:E; [apply Hf | | discriminate].
  intros H. injection H as <-. now apply Hm.
Qed.

Lemma raises_only_print (P : exn -> Prop) (args : list pyval) :
  raises_only P (print args).
Proof. intros e. discriminate. Qed.

Lemma raises_only_py_nth {A} (P : exn -> Prop) (l : list A) (k : Z) :
  P IndexError -> raises_only P (py_nth l k).
Proof.
  intros HP e.
  destruct (py_nth_cases l k) as [(a & -> & _)| ->]; [discriminate|].
  intros H. now injection H as <-.
Qed.

Lemma raises_only_mapM {A B} (P : exn -> Prop) (f : A -> M B) (l : list A) :
  (forall a, raises_only P (f a)) -> raises_only P (mapM f l).
Proof.
  intros Hf. induction l as [|a l IH]; [intros e; discriminate|].
  simpl. apply raises_only_bind; [apply Hf | intros b].
  apply raises_only_bind; [exact IH | intros bs e; discriminate].
Qed.

Lemma raises_only_vecmat (P : exn -> Prop) (y : vec) (b : matrix) :
  P ValueError -> raises_only P (Np.vecmat y b).
Proof.
  intros HP e. unfold Np.vecmat. destruct (Nat.eqb _ _); [discriminate|].
  intros H. now injection H as <-.
Qed.

Lemma raises_only_bcast_mul (P : exn -> Prop) (m : matrix) (s : vec) :
  P ValueError -> raises_only P (Np.bcast_mul m s).
Proof.
  intros HP. apply raises_only_mapM. intros r e. unfold Np.bcast_row.
  destruct (Nat.eqb _ _); [discriminate|].
  destruct r as [|x [|x' r]]; destruct s as [|y [|y' s]];
    try discriminate; intros H; now injection H as <-.
Qed.

(** X20. [solve] fails in three ways only: by the [IndexError] of a
    target index out of range or of a matrix without rows, by the
    [ValueError] of SVD factors whose shapes do not fit the products, or
    by the exception the SVD of X itself raised. *)
Theorem solve_raises (np : Numerics) (i : Z) (traindata : matrix) (e : exn) :
  snd (solve np i traindata) = Raise e -> solve_failure np traindata e.
Proof.
  assert (Hi : solve_failure np traindata IndexError) by now left.
  assert (Hv : solve_failure np traindata ValueError) by (right; now left).
  revert e. fold (raises_only (solve_failure np traindata) (solve np i traindata)).
  unfold solve.
  apply raises_only_bind; [now apply raises_only_py_nth | intros row0].
  apply raises_only_bind; [now apply raises_only_py_nth | intros rowi].
  do 3 (apply raises_only_bind; [apply raises_only_print | intros _]).
  apply raises_only_bind.
  { intros e. destruct (svd np _) as [x|usv] eqn:E; [|discriminate].
    intros H. injection H as <-. right. now right. }
  intros [[u s] vh].
  do 3 (apply raises_only_bind; [apply raises_only_print | intros _]).
  apply raises_only_bind; [now apply raises_only_bcast_mul | intros us].
  apply raises_only_bind.
  { apply raises_only_mapM. intros r. now apply raises_only_vecmat. }
  intros Xr.
  do 2 (apply raises_only_bind; [apply raises_only_print | intros _]).
  apply raises_only_bind; [now apply raises_only_bcast_mul | intros vs].
  apply raises_only_bind; [now apply raises_only_vecmat | intros t].
  apply raises_only_bind; [now apply raises_only_vecmat | intros A].
  do 2 (apply raises_only_bind; [apply raises_only_print | intros _]).
  intros e. discriminate.
Qed.

Lemma solve_raises_witness :
  solve_failure Run.svd_fails Data.single LinAlgError.
Proof.
  apply (solve_raises Run.svd_fails 0 Data.single LinAlgError).
  reflexivity.
Defined.

(** ** The invariant of the selector's loop *)

Lemma sel_inv_step (np : Numerics) (train_states : list string)
  (traindata : matrix) (i : Z) (N : nat) (st st' : sel_state) :
  Np.rect N traindata ->
  sel_inv (length train_states) N i st ->
  snd (loop_body np train_states traindata i st) = Ret st' ->
  sel_inv (length train_states) N i st' /\
  (length (incl st') <= S (length (incl st)))%nat.
Proof.
  intros Hr (Hi & Hall & Hnd & _) H.
  specialize (loop_body_error_length np train_states traindata i st st' N
                Hr H) as Hlen.
  unfold loop_body in H. rewrite snd_bind in H.
  destruct (snd (select_step np train_states traindata st))
    as [[[corr m] incl']| |] eqn:Es; try discriminate.
  apply fit_step_returns in H.
  specialize (select_step_returns _ _ _ _ _ _ _ Es) as [Ea Hm].
  assert (Hgrow : NoDup incl' /\ (length incl' <= S (length (incl st)))%nat).
  { destruct (select_step_choice _ _ _ _ _ _ _ Es) as [[_ ->]|(_ & Hn & ->)].
    - unfold set_add. destruct (set_in (-1) (incl st)) eqn:E.
      + split; [exact Hnd | lia].
      + split; [|rewrite length_app; simpl; lia].
        apply NoDup_app; [exact Hnd | repeat constructor; intros [] |].
        intros k Hk [<-|[]]. apply set_in_iff in Hk. congruence.
    - split; [|rewrite length_app; simpl; lia].
      apply NoDup_app; [exact Hnd | repeat constructor; intros [] |].
      intros k Hk [<-|[]]. apply set_in_iff in Hk. congruence. }
  unfold sel_inv. rewrite H, Hlen. destruct Hgrow as [Hnd' Hl].
  split; [split; [|split; [|split]]|exact Hl].
  - rewrite Ea. apply set_in_iff, in_set_add. right. now apply set_in_iff.
  - rewrite Ea, Forall_forall. rewrite Forall_forall in Hall.
    intros k Hk. apply in_set_add in Hk as [->|Hk]; [exact Hm | now apply Hall].
  - exact Hnd'.
  - reflexivity.
Qed.

Lemma iterates_inv (np : Numerics) (train_states : list string)
  (traindata : matrix) (i : Z) (N k c : nat) (st0 st : sel_state) :
  Np.rect N traindata ->
  iterates np train_states traindata i k st0 st ->
  sel_inv (length train_states) N i st0 ->
  (length (incl st0) <= c)%nat ->
  sel_inv (length train_states) N i st /\
  (length (incl st) <= k + c)%nat /\
  exists log, forall fuel,
    while (k + fuel) (fun _ => true) (loop_body np train_states traindata i)
      st0
    = (log ++ fst (while fuel (fun _ => true)
                     (loop_body np train_states traindata i) st),
       snd (while fuel (fun _ => true)
              (loop_body np train_states traindata i) st)).
Proof.
  intros Hr Hit. revert c.
  induction Hit as [st|k st st1 st2 Hb Hit IH]; intros c Hinv Hc.
  - split; [exact Hinv|]. split; [exact Hc|].
    exists []. intros fuel. simpl. now destruct (while fuel _ _ st).
  - destruct (sel_inv_step np train_states traindata i N st st1 Hr Hinv Hb)
      as [Hinv1 Hl1].
    destruct (IH (S c) Hinv1) as (Hinv2 & Hl2 & log & Hlog); [lia|].
    split; [exact Hinv2|]. split; [lia|].
    exists (fst (loop_body np train_states traindata i st) ++ log).
    intros fuel. cbn [Nat.add while].
    destruct (loop_body np train_states traindata i st) as [l1 r1].
    simpl in Hb. subst r1. unfold bind. rewrite Hlog.
    cbn [fst]. now rewrite app_assoc.
Qed.

(** X21. The invariant of the selector's loop. From the state the loop
    starts in for a target row [i] of a rectangular matrix, every state
    that [k] completed iterations lead to has row [i] included, holds
    distinct included indices that are row indices or the sentinel -1, at
    most [k + 1] of them, and an error row of one entry per sample; and
    the loop, given [k] rounds or more, passes through that state. *)
Theorem selector_loop_invariant (np : Numerics) (train_states : list string)
  (traindata : matrix) (i : Z) (target : vec) (corr0 : matrix) (N k : nat)
  (st : sel_state) :
  Np.rect N traindata ->
  0 <= i < Z.of_nat (length train_states) ->
  py_nth traindata i = ret target ->
  iterates np train_states traindata i k (initial_state i target corr0) st ->
  sel_inv (length train_states) N i st /\
  (length (incl st) <= S k)%nat /\
  exists log, forall fuel,
    while (k + fuel) (fun _ => true) (loop_body np train_states traindata i)
      (initial_state i target corr0)
    = (log ++ fst (while fuel (fun _ => true)
                     (loop_body np train_states traindata i) st),
       snd (while fuel (fun _ => true)
              (loop_body np train_states traindata i) st)).
Proof.
  intros Hr Hi Ht Hit.
  assert (H0 : sel_inv (length train_states) N i (initial_state i target corr0)).
  { split; [|split; [|split]]; cbn [initial_state incl error].
    - unfold set_in. simpl. now rewrite Z.eqb_refl.
    - constructor; [lia | constructor].
    - repeat constructor. intros [].
    - rewrite length_map.
      destruct (py_nth_cases traindata i) as [(r & E & Hin)|E];
        rewrite E in Ht; [|discriminate].
      injection Ht as <-. unfold Np.rect in Hr.
      rewrite Forall_forall in Hr. now apply Hr. }
  destruct (iterates_inv np train_states traindata i N k 1
              (initial_state i target corr0) st Hr Hit H0)
    as (Hinv & Hl & Hlog); [simpl; lia|].
  split; [exact Hinv|]. split; [lia | exact Hlog].
Qed.

Lemma selector_loop_invariant_witness :
  sel_inv (length ["p"]) 2 0
    (Rank.returned (Data.start Data.single)
       (loop_body Ref.numerics ["p"] Data.single 0 (Data.start Data.single))) /\
  (length (incl (Rank.returned (Data.start Data.single)
                   (loop_body Ref.numerics ["p"] Data.single 0
                      (Data.start Data.single)))) <= 2)%nat /\
  exists log, forall fuel,
    while (1 + fuel) (fun _ => true) (loop_body Ref.numerics ["p"] Data.single 0)
      (initial_state 0 [3; 6]%float (Data.corr_of Data.single))
    = (log ++ fst (while fuel (fun _ => true)
                     (loop_body Ref.numerics ["p"] Data.single 0)
                     (Rank.returned (Data.start Data.single)
                        (loop_body Ref.numerics ["p"] Data.single 0
                           (Data.start Data.single)))),
       snd (while fuel (fun _ => true)
              (loop_body Ref.numerics ["p"] Data.single 0)
              (Rank.returned (Data.start Data.single)
                 (loop_body Ref.numerics ["p"] Data.single 0
                    (Data.start Data.single))))).
Proof.
  apply (selector_loop_invariant Ref.numerics ["p"] Data.single 0
           [3; 6]%float (Data.corr_of Data.single) 2 1).
  - repeat constructor.
  - simpl. lia.
  - reflexivity.
  - apply (iterates_S _ _ _ _ 0 _
             (Rank.returned (Data.start Data.single)
                (loop_body Ref.numerics ["p"] Data.single 0
                   (Data.start Data.single)))).
    + vm_compute. reflexivity.
    + apply iterates_O.
Defined.

(** ** The target row of the fit (lines 201-204) *)

Lemma mapM_nth {A B} (f : A -> M B) (l : list A) (l' : list B) (k : nat)
  (a : A) :
  (forall x, pure (f x)) ->
  snd (mapM f l) = Ret l' -> nth_error l k = Some a ->
  exists b, f a = ret b /\ nth_error l' k = Some b.
Proof.
  intros Hp. revert l' k. induction l as [|x l IH]; intros l' k H Hk.
  - destruct k; discriminate.
  - simpl in H. rewrite snd_bind in H.
    destruct (snd (f x)) as [b| |] eqn:Ef; try discriminate.
    rewrite snd_bind in H.
    destruct (snd (mapM f l)) as [bs| |] eqn:Em; try discriminate.
    simpl in H. injection H as <-.
    destruct k as [|k]; simpl in Hk.
    + injection Hk as <-. exists b. split; [|reflexivity].
      now apply pure_returns.
    + destruct (IH bs k eq_refl Hk) as (b' & Hb & Hn). now exists b'.
Qed.

(** X22. The index mapping of line 202 is right: when the fitting half
    of an iteration completes, the row of the sub-matrix that [solve]
    takes as its target, [traindata[includes, :][param_index]], is row
    [i] of the training matrix, wherever the sentinel and the other
    included rows fall in the sorted order. *)
Theorem fit_step_targets_row_i (np : Numerics) (traindata : matrix) (i : Z)
  (corr : matrix) (incl' : pyset) (st' : sel_state) :
  snd (fit_step np traindata i corr incl') = Ret st' ->
  exists param_index sub target,
    index_of Z.eqb (sorted incl') i = ret param_index /\
    Np.take_rows traindata (sorted incl') = ret sub /\
    0 <= param_index < Z.of_nat (length sub) /\
    py_nth sub param_index = ret target /\
    py_nth traindata i = ret target.
Proof.
  intros H.
  apply fit_step_parts in H
    as (p & sub & A & est & target & Hp & Hs & _ & Ht & _).
  exists p, sub, target.
  specialize (index_from_position _ _ _ _ Hp) as [Hp0 Hn].
  rewrite Z.sub_0_r in Hn.
  destruct (mapM_nth (py_nth traindata) (sorted incl') sub (Z.to_nat p) i
              (pure_py_nth traindata) Hs Hn) as (row & Hrow & Hsub).
  assert (Hrt : row = target).
  { rewrite Hrow in Ht. now injection Ht. }
  subst row.
  assert (Hlt : (Z.to_nat p < length sub)%nat)
    by (apply nth_error_Some; congruence).
  split; [apply pure_returns; [apply pure_index_of | exact Hp]|].
  split; [apply pure_returns; [apply pure_take_rows | exact Hs]|].
  split; [lia|]. split; [|exact Hrow].
  rewrite <- (Z2Nat.id p) by lia. now rewrite py_nth_of_nat, Hsub.
Qed.

Lemma fit_step_targets_row_i_witness :
  exists param_index sub target,
    index_of Z.eqb (sorted [0; -1]) 0 = ret param_index /\
    Np.take_rows Data.single (sorted [0; -1]) = ret sub /\
    0 <= param_index < Z.of_nat (length sub) /\
    py_nth sub param_index = ret target /\
    py_nth Data.single 0 = ret target.
Proof.
  apply (fit_step_targets_row_i Ref.numerics Data.single 0 [] [0; -1]
           (Rank.returned (Data.start Data.single)
              (fit_step Ref.numerics Data.single 0 [] [0; -1]))).
  vm_compute. reflexivity.
Defined.

(** ** A fit state beyond the rows of the matrix (line 172) *)

(** X23. A state to fit that is named in [train_states] at an index the
    training matrix has no row for makes [correlation_report_3] raise
    [IndexError] at [traindata[i, :]], once the header, the state names
    and the correlation matrix are printed and before any fit. *)
Theorem correlation_report_3_row_out_of_range (np : Numerics) (fuel : nat)
  (train_states : list string) (traindata : matrix) (s : string)
  (rest : list string) (c : matrix) (i : Z) :
  corrcoef np traindata = inr c ->
  index_of String.eqb train_states s = ret i ->
  Z.of_nat (length traindata) <= i ->
  correlation_report_3 np fuel train_states traindata (s :: rest)
  = ([Print [PyStr "test pearson correlation coefficients:"];
      Print [PyList (map PyStr train_states)];
      Print [PyArr2 c]], Raise IndexError).
Proof.
  intros Hc Hs Hi. unfold correlation_report_3.
  do 2 (apply bind_print_eq; cbv beta).
  rewrite Hc. simpl lift. rewrite bind_ret_l.
  apply bind_print_eq; cbv beta.
  cbn [for_each]. rewrite Hs, bind_ret_l.
  now rewrite py_nth_out_of_range by (right; exact Hi).
Qed.

Lemma correlation_report_3_row_out_of_range_witness :
  correlation_report_3 Ref.numerics 3 ["p"; "q"] Data.single ["q"]
  = ([Print [PyStr "test pearson correlation coefficients:"];
      Print [PyList (map PyStr ["p"; "q"])];
      Print [PyArr2 (Data.corr_of Data.single)]], Raise IndexError).
Proof.
  apply (correlation_report_3_row_out_of_range Ref.numerics 3 ["p"; "q"]
           Data.single "q" [] (Data.corr_of Data.single) 1).
  - vm_compute. reflexivity.
  - reflexivity.
  - simpl. lia.
Defined.
